(** * deriva-datapackage: the offline DERIVA-compatible client

    A shallow embedding of [deriva_datapackage/__init__.py]: the query facade
    ([DerivaCompatPrimitive], [DerivaCompatTable], [DerivaCompatQuery]), the
    helpers [DERIVA_col_in] and [format_patch], and the resource loader of
    [DerivaCompatPkg.__init__], followed by the properties proved of them.

    The adapter is glue over SQLAlchemy, SQLite, pandas and datapackage.  The
    parts of those libraries the adapter calls are modelled in the modules
    [sa], [sqlite] and [pd] below; what the adapter does not depend on (how a
    float prints, how a cell is coerced, how the store compares a cell with a
    bound value) is taken from the class [Runtime]. *)

From Stdlib Require Import ZArith String List Bool SpecFloat Lia.
From stdpp Require Import gmap strings list fin_maps pretty.

Set Warnings "-register-all".
Open Scope string_scope.
Open Scope list_scope.
Open Scope Z_scope.

(** ** Python values, exceptions and results *)

(** The Python values that travel through the adapter: cells of records and
    result rows, literals of predicates, and the JSON of resource descriptors. *)
Inductive value : Type :=
| VNone
| VBool (b : bool)
| VInt (z : Z)
| VFloat (f : spec_float)
| VStr (s : string)
| VList (xs : list value)
| VDict (kvs : list (string * value)).

(** Exceptions.  [Foreign] is an exception object raised by a library
    underneath; [errors] is its [errors] attribute when it has one (the
    exceptions of datapackage and tableschema carry it, others do not). *)
Inductive exn : Type :=
| Exception (msg : string)
| NotImplementedError
| TypeError (msg : string)
| AttributeError (msg : string)
| KeyError (key : string)
| ValueError (msg : string)
| OperationalError (msg : string)
| InterfaceError (msg : string)
| Foreign (cls msg : string) (errors : option (list string)).

Inductive result (A : Type) : Type :=
| Ok (a : A)
| Raise (e : exn).
Arguments Ok {A} a.
Arguments Raise {A} e.

Definition rbind {A B} (r : result A) (k : A -> result B) : result B :=
  match r with
  | Ok a => k a
  | Raise e => Raise e
  end.

Declare Scope prog_scope.
Delimit Scope prog_scope with prog.
Notation "'let?' x := c 'in' k" := (rbind c (fun x => k))
  (at level 10, x pattern, c at level 100, k at level 200) : prog_scope.
Open Scope prog_scope.

Fixpoint rmap {A B} (f : A -> result B) (l : list A) : result (list B) :=
  match l with
  | [] => Ok []
  | x :: xs => let? y := f x in let? ys := rmap f xs in Ok (y :: ys)
  end.

(** A computation that reads and writes a state [S] and may raise. *)
Definition M (S A : Type) : Type := S -> result A * S.

Definition ret {S A} (a : A) : M S A := fun s => (Ok a, s).
Definition raise {S A} (e : exn) : M S A := fun s => (Raise e, s).
Definition lift {S A} (r : result A) : M S A := fun s => (r, s).
Definition bind {S A B} (c : M S A) (k : A -> M S B) : M S B :=
  fun s => match c s with
           | (Ok a, s') => k a s'
           | (Raise e, s') => (Raise e, s')
           end.
Notation "'let*' x := c 'in' k" := (bind c (fun x => k))
  (at level 10, x pattern, c at level 100, k at level 200) : prog_scope.

(** ** SQLAlchemy: tables, expressions and the query builder

    A [Query] object accumulates its entity, its joins, its WHERE criterion
    and its GROUP BY list separately; nothing is sent to the store until the
    query is iterated or counted. *)
Module sa.

(** A [Table], or an alias of one: [tbl_name] is the name it goes by in a
    statement, [tbl_source] the table of the store behind it. *)
Record table : Type := {
  tbl_source : string;
  tbl_name : string;
  tbl_columns : list string;
}.

(** [Table.alias(name)] *)
Definition alias (t : table) (name : string) : table :=
  {| tbl_source := tbl_source t; tbl_name := name; tbl_columns := tbl_columns t |}.

(** An expression.  A column belongs to a table (or to an alias of one), as
    a [Column] object does. *)
Inductive expr : Type :=
| EColumn (t : table) (col : string)
| ELiteral (v : value)
| EEq (a b : expr)
| ENe (a b : expr)
| EIsNull (a : expr)
| EIsNotNull (a : expr)
| EAnd (a b : expr)
| EOr (a b : expr).

(** [a == b]: a comparison with [None] is rendered [IS NULL]. *)
Definition eq (a b : expr) : expr :=
  match b with
  | ELiteral VNone => EIsNull a
  | _ => EEq a b
  end.

(** [a != b] *)
Definition ne (a b : expr) : expr :=
  match b with
  | ELiteral VNone => EIsNotNull a
  | _ => ENe a b
  end.

(** [a & b] and [a | b] *)
Definition and_ (a b : expr) : expr := EAnd a b.
Definition or_ (a b : expr) : expr := EOr a b.

Inductive join_kind : Type := InnerJoin | LeftOuterJoin.

Record join_clause : Type := {
  j_kind : join_kind;
  j_target : table;
  j_on : expr;
}.

Record Query : Type := {
  qs_entity : table;
  qs_joins : list join_clause;
  qs_criterion : option expr;
  qs_group_by : list expr;
}.

(** [session.query(table)] *)
Definition query (t : table) : Query :=
  {| qs_entity := t; qs_joins := []; qs_criterion := None; qs_group_by := [] |}.

(** [Query.join(target, onclause)] *)
Definition join (q : Query) (target : table) (on : expr) : Query :=
  {| qs_entity := qs_entity q;
     qs_joins := qs_joins q ++ [{| j_kind := InnerJoin; j_target := target; j_on := on |}];
     qs_criterion := qs_criterion q;
     qs_group_by := qs_group_by q |}.

(** [Query.outerjoin(target, onclause)]: a LEFT OUTER JOIN *)
Definition outerjoin (q : Query) (target : table) (on : expr) : Query :=
  {| qs_entity := qs_entity q;
     qs_joins := qs_joins q ++ [{| j_kind := LeftOuterJoin; j_target := target; j_on := on |}];
     qs_criterion := qs_criterion q;
     qs_group_by := qs_group_by q |}.

(** [Query.filter(criterion)]: the criterion is and-ed to the WHERE clause,
    wherever in the chain the call comes. *)
Definition filter (q : Query) (criterion : expr) : Query :=
  {| qs_entity := qs_entity q;
     qs_joins := qs_joins q;
     qs_criterion := Some match qs_criterion q with
                          | None => criterion
                          | Some c => EAnd c criterion
                          end;
     qs_group_by := qs_group_by q |}.

(** [Query.group_by( *clauses )] *)
Definition group_by (q : Query) (clauses : list expr) : Query :=
  {| qs_entity := qs_entity q;
     qs_joins := qs_joins q;
     qs_criterion := qs_criterion q;
     qs_group_by := qs_group_by q ++ clauses |}.

(** The tables the columns of an expression belong to, in the order the
    columns are met. *)
Fixpoint tables_of (e : expr) : list table :=
  match e with
  | EColumn t _ => [t]
  | ELiteral _ => []
  | EEq a b | ENe a b | EAnd a b | EOr a b => tables_of a ++ tables_of b
  | EIsNull a | EIsNotNull a => tables_of a
  end.

End sa.

(** What the adapter takes from the Python runtime and the libraries without
    depending on how it is computed. *)
Class Runtime : Type := {
  (** [str(v)] for a float, a list or a dict *)
  str_other : value -> string;
  (** SQLite's truth of a text value used as a condition *)
  text_truth : string -> bool;
  (** [pd.to_datetime(_, utc=True)], [json.dumps] and [astype('float64')],
      on one cell *)
  to_datetime : value -> result value;
  json_dumps : value -> result value;
  astype_float64 : value -> result value;
  (** the float64 nearest to an integer *)
  float_of_int : Z -> spec_float;
  (** SQLite's [a = b] on two operands that are not NULL.  The outcome
      depends on the type affinity of the operands (a text is read as a
      number when it is compared with a column of numeric affinity), so the
      comparison is given the operand expressions along with their values. *)
  compare : sa.expr -> sa.expr -> value -> value -> bool;
}.

(** [bool(v)] *)
Definition truthy (v : value) : bool :=
  match v with
  | VNone => false
  | VBool b => b
  | VInt z => negb (Z.eqb z 0)
  | VFloat (S754_zero _) => false
  | VFloat _ => true
  | VStr s => negb (String.eqb s "")
  | VList xs => match xs with [] => false | _ => true end
  | VDict kvs => match kvs with [] => false | _ => true end
  end.

(** [str(v)] *)
Definition py_str `{Runtime} (v : value) : string :=
  match v with
  | VNone => "None"
  | VBool true => "True"
  | VBool false => "False"
  | VInt z => pretty z
  | VStr s => s
  | _ => str_other v
  end.

(** [v[k]] on a dict *)
Fixpoint assoc {A} (k : string) (kvs : list (string * A)) : option A :=
  match kvs with
  | [] => None
  | (k', v) :: rest => if String.eqb k k' then Some v else assoc k rest
  end.

Definition getitem (v : value) (k : string) : result value :=
  match v with
  | VDict kvs => match assoc k kvs with
                 | Some x => Ok x
                 | None => Raise (KeyError k)
                 end
  | _ => Raise (TypeError "object is not subscriptable")
  end.

(** ** SQLite: the backing relational store and how it runs a statement *)
Module sqlite.
Import sa.

Record table : Type := {
  st_columns : list string;
  st_rows : list (list value);
  st_indexes : list (string * list string);
}.

(** A row of the FROM clause: the cells of every joined table, each under
    the name of its table and column. *)
Definition row : Type := list (string * string * value).
Definition scope : Type := list (string * string).

Fixpoint column_value (tbl col : string) (r : row) : option value :=
  match r with
  | [] => None
  | (t, c, v) :: rest =>
      if String.eqb t tbl && String.eqb c col then Some v
      else column_value tbl col rest
  end.

(** Booleans are stored as 0 and 1. *)
Definition stored (v : value) : value :=
  match v with
  | VBool b => VInt (if b then 1 else 0)
  | _ => v
  end.

Definition float_eq_int (f : spec_float) (z : Z) : bool :=
  match f with
  | S754_zero _ => Z.eqb z 0
  | S754_finite s m e =>
      let sm := if s then Z.neg m else Z.pos m in
      if Z.leb 0 e then Z.eqb z (sm * 2 ^ e) else Z.eqb (z * 2 ^ (- e)) sm
  | _ => false
  end.

(** Two values of one column that are not NULL are the same value: numbers
    compare by value, text with text.  This is how the keys of GROUP BY are
    compared; the [=] of a predicate goes by the affinity of its operands and
    is [compare]. *)
Definition equal (a b : value) : bool :=
  match stored a, stored b with
  | VInt x, VInt y => Z.eqb x y
  | VFloat x, VFloat y => SFeqb x y
  | VInt x, VFloat y => float_eq_int y x
  | VFloat x, VInt y => float_eq_int x y
  | VStr x, VStr y => String.eqb x y
  | _, _ => false
  end.

(** The truth of a value used as a condition; NULL is unknown. *)
Definition truth `{Runtime} (v : value) : option bool :=
  match v with
  | VNone => None
  | VBool b => Some b
  | VInt z => Some (negb (Z.eqb z 0))
  | VFloat (S754_zero _) => Some false
  | VFloat _ => Some true
  | VStr s => Some (text_truth s)
  | VList _ | VDict _ => None
  end.

Definition is_true `{Runtime} (v : value) : bool :=
  match truth v with
  | Some true => true
  | _ => false
  end.

Definition of_bool (b : bool) : value := VInt (if b then 1 else 0).

Definition is_null (v : value) : bool :=
  match v with
  | VNone => true
  | _ => false
  end.

(** A Python value as the driver binds it to a statement: NaN goes in as
    NULL. *)
Definition bound (v : value) : value :=
  match v with
  | VFloat S754_nan => VNone
  | _ => v
  end.

Fixpoint eval `{Runtime} (r : row) (e : expr) : value :=
  match e with
  | EColumn t c => default VNone (column_value (tbl_name t) c r)
  | ELiteral v => bound v
  | EEq a b =>
      let x := eval r a in let y := eval r b in
      if is_null x || is_null y then VNone else of_bool (compare a b x y)
  | ENe a b =>
      let x := eval r a in let y := eval r b in
      if is_null x || is_null y then VNone else of_bool (negb (compare a b x y))
  | EIsNull a => of_bool (is_null (eval r a))
  | EIsNotNull a => of_bool (negb (is_null (eval r a)))
  | EAnd a b =>
      match truth (eval r a), truth (eval r b) with
      | Some false, _ | _, Some false => of_bool false
      | Some true, Some true => of_bool true
      | _, _ => VNone
      end
  | EOr a b =>
      match truth (eval r a), truth (eval r b) with
      | Some true, _ | _, Some true => of_bool true
      | Some false, Some false => of_bool false
      | _, _ => VNone
      end
  end.

(** Preparing an expression: every column must be in scope and every
    literal must be a value the driver can bind (no list, no dict, and no
    integer beyond 64 bits). *)
Fixpoint prepare (sc : scope) (e : expr) : result unit :=
  match e with
  | EColumn t c =>
      if existsb (fun tc => String.eqb (fst tc) (tbl_name t) && String.eqb (snd tc) c) sc
      then Ok tt
      else Raise (OperationalError ("no such column: " +:+ tbl_name t +:+ "." +:+ c))
  | ELiteral v =>
      match v with
      | VList _ | VDict _ => Raise (InterfaceError "Error binding parameter")
      | VInt z =>
          if (- 2 ^ 63 <=? z) && (z <? 2 ^ 63) then Ok tt
          else Raise (Foreign "OverflowError"
                        "Python int too large to convert to SQLite INTEGER" None)
      | _ => Ok tt
      end
  | EEq a b | ENe a b | EAnd a b | EOr a b =>
      let? _ := prepare sc a in prepare sc b
  | EIsNull a | EIsNotNull a => prepare sc a
  end.

Definition open_table (db : gmap string table) (t : sa.table) : result (scope * list row) :=
  match db !! tbl_source t with
  | None => Raise (OperationalError ("no such table: " +:+ tbl_source t))
  | Some st =>
      Ok (map (pair (tbl_name t)) (st_columns st),
          map (fun cells => zip_with (fun c v => (tbl_name t, c, v)) (st_columns st) cells)
              (st_rows st))
  end.

Definition null_row (sc : scope) : row := map (fun tc => (fst tc, snd tc, VNone)) sc.

(** An inner join keeps the pairs on which the ON clause is true; a left
    outer join also keeps a left row that has no partner, padded with NULLs.
    The rows come in the order of a nested loop over the left rows; the store
    is free to return them in another order. *)
Definition join_rows `{Runtime} (k : join_kind) (on : expr)
    (left right : list row) (right_scope : scope) : list row :=
  flat_map (fun l =>
    match List.filter (fun r => is_true (eval (l ++ r) on)) right, k with
    | [], LeftOuterJoin => [l ++ null_row right_scope]
    | partners, _ => map (app l) partners
    end) left.

Definition from_step `{Runtime} (db : gmap string table)
    (acc : result (scope * list row)) (j : join_clause) : result (scope * list row) :=
  let? (sc, rows) := acc in
  let? (sc_t, rows_t) := open_table db (j_target j) in
  let? _ := prepare (sc ++ sc_t) (j_on j) in
  Ok (sc ++ sc_t, join_rows (j_kind j) (j_on j) rows rows_t sc_t).

Definition from_clause `{Runtime} (db : gmap string table) (q : Query)
    : result (scope * list row) :=
  fold_left (from_step db) (qs_joins q) (open_table db (qs_entity q)).

(** Two rows fall in one group when their keys agree; NULLs agree. *)
Definition key_equal (a b : value) : bool :=
  if is_null a then is_null b else if is_null b then false else equal a b.

Fixpoint keys_equal (k1 k2 : list value) : bool :=
  match k1, k2 with
  | [], [] => true
  | a :: k1', b :: k2' => key_equal a b && keys_equal k1' k2'
  | _, _ => false
  end.

(** GROUP BY with bare columns: one row stands for each group, here the
    first of the group, the groups in the order they are first met; which
    row of a group the store takes, and in which order it returns the groups,
    is its own choice. *)
Fixpoint group_rows (key : row -> list value) (seen : list (list value))
    (rows : list row) : list row :=
  match rows with
  | [] => []
  | r :: rest =>
      if existsb (keys_equal (key r)) seen then group_rows key seen rest
      else r :: group_rows key (key r :: seen) rest
  end.

Definition where_clause `{Runtime} (criterion : option expr) (rows : list row) : list row :=
  match criterion with
  | None => rows
  | Some c => List.filter (fun r => is_true (eval r c)) rows
  end.

Definition group_clause `{Runtime} (clauses : list expr) (rows : list row) : list row :=
  match clauses with
  | [] => rows
  | _ => group_rows (fun r => map (eval r) clauses) [] rows
  end.

(** The columns of the entity, in order, keyed by column name. *)
Definition select (t : sa.table) (r : row) : list (string * value) :=
  map (fun c => (c, default VNone (column_value (tbl_name t) c r))) (tbl_columns t).

Definition prepare_criterion (sc : scope) (criterion : option expr) : result unit :=
  match criterion with
  | None => Ok tt
  | Some c => prepare sc c
  end.

(** Whether a table of that name is in the FROM clause. *)
Definition in_from (sc : scope) (t : sa.table) : bool :=
  existsb (fun tc => String.eqb (fst tc) (tbl_name t)) sc.

(** SQLAlchemy puts every table the WHERE clause names into the FROM list:
    one that is neither the entity nor joined comes in as a cross join. *)
Definition cross_step (db : gmap string table)
    (acc : result (scope * list row)) (t : sa.table) : result (scope * list row) :=
  let? (sc, rows) := acc in
  if in_from sc t then Ok (sc, rows)
  else
    let? (sc_t, rows_t) := open_table db t in
    Ok (sc ++ sc_t, flat_map (fun l => map (app l) rows_t) rows).

Definition where_tables (criterion : option expr) : list sa.table :=
  match criterion with
  | None => []
  | Some c => tables_of c
  end.

Definition from_where `{Runtime} (db : gmap string table) (q : Query)
    : result (scope * list row) :=
  fold_left (cross_step db) (where_tables (qs_criterion q)) (from_clause db q).

(** The statement is prepared whole before any row is read: the FROM
    clause, then the WHERE, GROUP BY and SELECT expressions. *)
Definition prepare_statement `{Runtime} (db : gmap string table) (q : Query)
    : result (scope * list row) :=
  let? (sc, rows) := from_where db q in
  let? _ := prepare_criterion sc (qs_criterion q) in
  let? _ := rmap (prepare sc) (qs_group_by q) in
  let? _ := rmap (fun c => prepare sc (EColumn (qs_entity q) c))
                 (tbl_columns (qs_entity q)) in
  Ok (sc, rows).

(** The rows of the FROM clause that pass the WHERE clause. *)
Definition matching `{Runtime} (db : gmap string table) (q : Query) : result (list row) :=
  let? (sc, rows) := prepare_statement db q in
  Ok (where_clause (qs_criterion q) rows).

(** Running [SELECT entity.* FROM entity JOIN ... WHERE ... GROUP BY ...]. *)
Definition run `{Runtime} (db : gmap string table) (q : Query)
    : result (list (list (string * value))) :=
  let? rows := matching db q in
  Ok (map (select (qs_entity q)) (group_clause (qs_group_by q) rows)).

End sqlite.

(** ** The facade: predicates *)

(** [DerivaCompatPrimitive]: a handle on a relational expression.
    [p_value] is the attribute [_value]. *)
Record DerivaCompatPrimitive : Type := { p_value : sa.expr }.

(** What a caller may pass where a predicate or an operand is expected: a
    primitive (or column) handle, a bare [DerivaCompat] instance, or a plain
    Python value. *)
Inductive pyobj : Type :=
| PPrimitive (p : DerivaCompatPrimitive)
| PCompat
| PValue (v : value).

(** [DerivaCompat.__call__] *)
Definition DerivaCompat_call {A} : result A := Raise (Exception "Call is not defined").

(** [DerivaCompatPrimitive.__call__] *)
Definition DerivaCompatPrimitive_call (self : DerivaCompatPrimitive) : sa.expr :=
  p_value self.

(** [o()] for an object received from the caller *)
Definition call (o : pyobj) : result sa.expr :=
  match o with
  | PPrimitive p => Ok (DerivaCompatPrimitive_call p)
  | PCompat => DerivaCompat_call
  | PValue _ => Raise (TypeError "object is not callable")
  end.

(** [other() if isinstance(other, DerivaCompat) else other]; a plain value
    becomes a bound literal of the expression. *)
Definition operand (other : pyobj) : result sa.expr :=
  match other with
  | PValue v => Ok (sa.ELiteral v)
  | _ => call other
  end.

(** [__eq__], [__ne__], [__and__], [__or__].  ([in_] and [notin_] wrap
    their operand the same way; nothing below depends on them.) *)
Definition DerivaCompatPrimitive_eq (self : DerivaCompatPrimitive) (other : pyobj)
    : result DerivaCompatPrimitive :=
  let? o := operand other in
  Ok {| p_value := sa.eq (DerivaCompatPrimitive_call self) o |}.

Definition DerivaCompatPrimitive_ne (self : DerivaCompatPrimitive) (other : pyobj)
    : result DerivaCompatPrimitive :=
  let? o := operand other in
  Ok {| p_value := sa.ne (DerivaCompatPrimitive_call self) o |}.

Definition DerivaCompatPrimitive_and (self : DerivaCompatPrimitive) (other : pyobj)
    : result DerivaCompatPrimitive :=
  let? o := operand other in
  Ok {| p_value := sa.and_ (DerivaCompatPrimitive_call self) o |}.

Definition DerivaCompatPrimitive_or (self : DerivaCompatPrimitive) (other : pyobj)
    : result DerivaCompatPrimitive :=
  let? o := operand other in
  Ok {| p_value := sa.or_ (DerivaCompatPrimitive_call self) o |}.

(** ** The facade: table handles *)

(** The part of [DerivaCompatPkg] a handle reads: the flag [_progress_bar].
    Its session is bound to the store of the world below. *)
Record DerivaCompatPkg : Type := { progress_bar : bool }.

(** [DerivaCompatTable]: [t_pkg], [t_table] and [t_qs] are what [__init__]
    puts under [_pkg], [_table] and [_qs].  The attributes [path] and
    [column_definitions] and the one attribute per column that [__init__]
    sets follow from these; [DerivaCompatTable_getattr] below reads them,
    a column coming before an attribute or method of the same name.  The
    methods themselves read [_pkg], [_table] and [_qs] as they were put. *)
Record DerivaCompatTable : Type := {
  t_pkg : DerivaCompatPkg;
  t_table : sa.table;
  t_qs : sa.Query -> result sa.Query;
}.

(** [DerivaCompatColumn(table, col)] *)
Definition DerivaCompatColumn (table : DerivaCompatTable) (col : string)
    : DerivaCompatPrimitive :=
  {| p_value := sa.EColumn (t_table table) col |}.

(** [DerivaCompatTable.__init__]: what it puts under [_pkg], [_table] and
    [_qs].  Its other attributes, those of its loop over the columns among
    them, are computed from these by [DerivaCompatTable_getattr]. *)
Definition DerivaCompatTable_init (pkg : DerivaCompatPkg) (table : sa.table)
    (qs : option (sa.Query -> result sa.Query)) : DerivaCompatTable :=
  {| t_pkg := pkg;
     t_table := table;
     t_qs := match qs with
             | None => fun qs => Ok qs
             | Some f => f
             end |}.

Definition column_definitions (self : DerivaCompatTable)
    : list (string * DerivaCompatPrimitive) :=
  map (fun col => (col, DerivaCompatColumn self col)) (sa.tbl_columns (t_table self)).

(** [DerivaCompatTable.__call__] *)
Definition DerivaCompatTable_call (self : DerivaCompatTable) : sa.table := t_table self.

(** [with_qs]: the given closure runs after the table's own. *)
Definition DerivaCompatTable_with_qs (self : DerivaCompatTable)
    (qs : sa.Query -> result sa.Query) : DerivaCompatTable :=
  DerivaCompatTable_init (t_pkg self) (t_table self)
    (Some (fun q => let? q' := t_qs self q in qs q')).

Definition DerivaCompatTable_alias (self : DerivaCompatTable) (name : string)
    : DerivaCompatTable :=
  DerivaCompatTable_init (t_pkg self) (sa.alias (t_table self) name) (Some (t_qs self)).

(** ** The world a query lives in *)

Inductive statement : Type :=
| SelectRows (q : sa.Query)
| SelectCount (q : sa.Query).

(** [w_db] is the backing store and [w_sent] the statements the session has
    sent to it, oldest first.  Path mappings are Python dicts, objects with
    an identity: [w_paths] holds those built by [DerivaCompatQuery.__init__],
    by address, and [w_default_path] is the one dict created when the
    default [path={}] of [__init__] was evaluated. *)
Record world : Type := {
  w_db : gmap string sqlite.table;
  w_sent : list statement;
  w_default_path : gmap string DerivaCompatTable;
  w_paths : gmap positive (gmap string DerivaCompatTable);
}.

(** The [path] argument of [DerivaCompatQuery.__init__]: left out, or a dict. *)
Inductive path_ref : Type :=
| DefaultPath
| PathAt (l : positive).

Definition read_path (w : world) (p : path_ref) : gmap string DerivaCompatTable :=
  match p with
  | DefaultPath => w_default_path w
  | PathAt l => default ∅ (w_paths w !! l)
  end.

(** Allocating a new dict. *)
Definition new_dict (d : gmap string DerivaCompatTable) : M world positive :=
  fun w =>
    let l := fresh (dom (w_paths w)) in
    (Ok l, {| w_db := w_db w;
              w_sent := w_sent w;
              w_default_path := w_default_path w;
              w_paths := <[l := d]> (w_paths w) |}).

Definition send (s : statement) (w : world) : world :=
  {| w_db := w_db w;
     w_sent := w_sent w ++ [s];
     w_default_path := w_default_path w;
     w_paths := w_paths w |}.

(** ** The facade: query handles *)

(** [DerivaCompatQuery]: [q_pkg], [q_subj] and [q_query] are what [__init__]
    puts under [_pkg], [_subj] and [_query]; [q_path] is the address of the
    dict [_path].  The attribute [path] and the one attribute per table of
    the path that [__init__] sets are read through
    [DerivaCompatQuery_getattr] below. *)
Record DerivaCompatQuery : Type := {
  q_pkg : DerivaCompatPkg;
  q_subj : DerivaCompatTable;
  q_query : sa.Query -> result sa.Query;
  q_path : positive;
}.

(** [DerivaCompatQuery.__init__]: [dict(path, **{name: handle})] copies
    [path] into a new dict and adds the subject under its name. *)
Definition DerivaCompatQuery_init (pkg : DerivaCompatPkg) (subj : DerivaCompatTable)
    (query : sa.Query -> result sa.Query) (path : path_ref) : M world DerivaCompatQuery :=
  fun w =>
    let d := <[sa.tbl_name (DerivaCompatTable_call subj) := DerivaCompatTable_with_qs subj query]>
               (read_path w path) in
    (let* l := new_dict d in
     ret {| q_pkg := pkg; q_subj := subj; q_query := query; q_path := l |}) w.

(** [self._path] *)
Definition path_of (w : world) (self : DerivaCompatQuery) : gmap string DerivaCompatTable :=
  default ∅ (w_paths w !! q_path self).

(** ** Attributes of the handles *)

(** What [handle.<name>] can be.  [AMethod] is a method of the class, bound
    to the handle.  [AInherited] stands for a name of the form [__x] that the
    class does not define: the lookup goes on to [object], whose attributes
    all have such names ([__class__], [__dict__], [__eq__], ...), and what it
    finds there, if anything, is not looked into. *)
Inductive attribute : Type :=
| AColumn (c : DerivaCompatPrimitive)
| AColumns (cs : list (string * DerivaCompatPrimitive))
| ATable (t : DerivaCompatTable)
| AQuery (q : DerivaCompatQuery)
| APkg (pkg : DerivaCompatPkg)
| ASaTable (t : sa.table)
| AClosure (f : sa.Query -> result sa.Query)
| ADict (l : positive)
| AMethod (name : string)
| AInherited (name : string).

Definition DerivaCompatTable_methods : list string :=
  ["__init__"; "__repr__"; "__call__"; "with_qs"; "alias"; "_as_query";
   "link"; "filter"; "entities"; "count"].

Definition DerivaCompatQuery_methods : list string :=
  ["__init__"; "__call__"; "pivot"; "link"; "filter"; "groupby"; "entities"; "count"].

(** A name the instance does not have is looked up on its class. *)
Definition class_attribute (methods : list string) (name : string) : result attribute :=
  if existsb (String.eqb name) methods then Ok (AMethod name)
  else if String.prefix "__" name then Ok (AInherited name)
  else Raise (AttributeError name).

(** The attributes [DerivaCompatTable.__init__] sets before its loop over the
    columns, and those of the class. *)
Definition DerivaCompatTable_own (self : DerivaCompatTable) (name : string)
    : result attribute :=
  if String.eqb name "_pkg" then Ok (APkg (t_pkg self))
  else if String.eqb name "_table" then Ok (ASaTable (t_table self))
  else if String.eqb name "_qs" then Ok (AClosure (t_qs self))
  else if String.eqb name "path" then Ok (ATable self)
  else if String.eqb name "column_definitions" then Ok (AColumns (column_definitions self))
  else class_attribute DerivaCompatTable_methods name.

(** [self.<name>] on a table handle: the loop of [__init__] sets one
    attribute per column, which replaces an attribute of the same name and
    hides a method of the same name. *)
Definition DerivaCompatTable_getattr (self : DerivaCompatTable) (name : string)
    : result attribute :=
  match assoc name (column_definitions self) with
  | Some c => Ok (AColumn c)
  | None => DerivaCompatTable_own self name
  end.

(** The attributes [DerivaCompatQuery.__init__] sets before its loop over the
    path, and those of the class. *)
Definition DerivaCompatQuery_own (self : DerivaCompatQuery) (name : string)
    : result attribute :=
  if String.eqb name "_pkg" then Ok (APkg (q_pkg self))
  else if String.eqb name "_subj" then Ok (ATable (q_subj self))
  else if String.eqb name "_query" then Ok (AClosure (q_query self))
  else if String.eqb name "_path" then Ok (ADict (q_path self))
  else if String.eqb name "path" then Ok (AQuery self)
  else class_attribute DerivaCompatQuery_methods name.

(** [self.<name>] on a query handle: the loop of [__init__] sets one
    attribute per table of the path, which replaces an attribute of the same
    name and hides a method of the same name. *)
Definition DerivaCompatQuery_getattr (self : DerivaCompatQuery) (name : string)
    : M world attribute :=
  fun w =>
    match path_of w self !! name with
    | Some t => (Ok (ATable t), w)
    | None => (DerivaCompatQuery_own self name, w)
    end.

(** [DerivaCompatQuery.__call__]: builds the [Query]; nothing is sent. *)
Definition DerivaCompatQuery_call (self : DerivaCompatQuery) : result sa.Query :=
  q_query self (sa.query (DerivaCompatTable_call (q_subj self))).

Definition DerivaCompatQuery_pivot (self : DerivaCompatQuery) (other : DerivaCompatTable)
    : M world DerivaCompatQuery :=
  DerivaCompatQuery_init (q_pkg self) other (q_query self) (PathAt (q_path self)).

Definition DerivaCompatQuery_link (self : DerivaCompatQuery) (other : DerivaCompatTable)
    (on : pyobj) (join_type : string) : M world DerivaCompatQuery :=
  if String.eqb join_type "left" then
    DerivaCompatQuery_init (q_pkg self) other
      (fun qs =>
         let? qs' := q_query self qs in
         let? on' := call on in
         Ok (sa.join qs' (DerivaCompatTable_call (q_subj self)) on'))
      (PathAt (q_path self))
  else if String.eqb join_type "right" then
    raise NotImplementedError
  else if String.eqb join_type "full" then
    DerivaCompatQuery_init (q_pkg self) other
      (fun qs =>
         let? qs' := q_query self qs in
         let? on' := call on in
         Ok (sa.outerjoin qs' (DerivaCompatTable_call (q_subj self)) on'))
      (PathAt (q_path self))
  else
    raise NotImplementedError.

Definition DerivaCompatQuery_filter (self : DerivaCompatQuery) (clause : pyobj)
    : M world DerivaCompatQuery :=
  DerivaCompatQuery_init (q_pkg self) (q_subj self)
    (fun qs =>
       let? qs' := q_query self qs in
       let? c := call clause in
       Ok (sa.filter qs' c))
    (PathAt (q_path self)).

Definition DerivaCompatQuery_groupby (self : DerivaCompatQuery) (clauses : list pyobj)
    : M world DerivaCompatQuery :=
  DerivaCompatQuery_init (q_pkg self) (q_subj self)
    (fun qs =>
       let? qs' := q_query self qs in
       let? cs := rmap call clauses in
       Ok (sa.group_by qs' cs))
    (PathAt (q_path self)).

(** Iterating a [Query] sends it to the store and fetches its rows. *)
Definition fetch `{Runtime} (q : sa.Query) : M world (list (list (string * value))) :=
  fun w => (sqlite.run (w_db w) q, send (SelectRows q) w).

(** [Query.count()] sends [SELECT count( * ) FROM (query)]. *)
Definition fetch_count `{Runtime} (q : sa.Query) : M world Z :=
  fun w => ((let? rows := sqlite.run (w_db w) q in Ok (Z.of_nat (length rows))),
            send (SelectCount q) w).

(** [record._asdict()]: a later column of the same name overrides. *)
Definition asdict (record : list (string * value)) : gmap string value :=
  list_to_map (reverse record).

(** [{k: str(v) for k, v in record._asdict().items() if v}] *)
Definition entity `{Runtime} (record : list (string * value)) : gmap string string :=
  py_str <$> filter (fun kv => truthy (snd kv) = true) (asdict record).

(** The generator object made by [entities()]: not yet started, suspended
    at its [yield] with the records still to come, or finished. *)
Inductive generator : Type :=
| Created (q : DerivaCompatQuery)
| Suspended (pending : list (list (string * value)))
| Finished.

(** [DerivaCompatQuery.entities]: calling it only makes the generator. *)
Definition DerivaCompatQuery_entities (self : DerivaCompatQuery) : generator :=
  Created self.

(** [next(g)]: [Ok None] stands for [StopIteration].  The body starts on the
    first call, which builds the query and sends it. *)
Definition next `{Runtime} (g : generator) (w : world)
    : result (option (gmap string string)) * generator * world :=
  match g with
  | Created q =>
      match (let* stmt := lift (DerivaCompatQuery_call q) in fetch stmt) w with
      | (Raise e, w') => (Raise e, Finished, w')
      | (Ok [], w') => (Ok None, Finished, w')
      | (Ok (r :: rest), w') => (Ok (Some (entity r)), Suspended rest, w')
      end
  | Suspended [] => (Ok None, Finished, w)
  | Suspended (r :: rest) => (Ok (Some (entity r)), Suspended rest, w)
  | Finished => (Ok None, Finished, w)
  end.

(** At most [n] calls of [next], collecting what they yield. *)
Fixpoint take `{Runtime} (n : nat) (g : generator) (w : world)
    : result (list (gmap string string)) * generator * world :=
  match n with
  | O => (Ok [], g, w)
  | S n' =>
      match next g w with
      | (Raise e, g', w') => (Raise e, g', w')
      | (Ok None, g', w') => (Ok [], g', w')
      | (Ok (Some x), g', w') =>
          match take n' g' w' with
          | (Ok xs, g'', w'') => (Ok (x :: xs), g'', w'')
          | other => other
          end
      end
  end.

(** [list(g)]: the generator run to its end. *)
Definition to_list `{Runtime} (g : generator) : M world (list (gmap string string)) :=
  match g with
  | Created q =>
      let* stmt := lift (DerivaCompatQuery_call q) in
      let* rows := fetch stmt in
      ret (map entity rows)
  | Suspended pending => ret (map entity pending)
  | Finished => ret []
  end.

(** [DerivaCompatQuery.count] *)
Definition DerivaCompatQuery_count `{Runtime} (self : DerivaCompatQuery) : M world Z :=
  let* stmt := lift (DerivaCompatQuery_call self) in
  fetch_count stmt.

(** ** Table handles as queries *)

Definition DerivaCompatTable_as_query (self : DerivaCompatTable) : M world DerivaCompatQuery :=
  DerivaCompatQuery_init (t_pkg self) self (fun qs => t_qs self qs) DefaultPath.

Definition DerivaCompatTable_link (self : DerivaCompatTable) (other : DerivaCompatTable)
    (on : pyobj) (join_type : string) : M world DerivaCompatQuery :=
  let* q := DerivaCompatTable_as_query self in
  DerivaCompatQuery_link q other on join_type.

Definition DerivaCompatTable_filter (self : DerivaCompatTable) (selector : pyobj)
    : M world DerivaCompatQuery :=
  let* q := DerivaCompatTable_as_query self in
  DerivaCompatQuery_filter q selector.

(** [tqdm(iterable)] yields what the iterable yields. *)
Definition tqdm (g : generator) : generator := g.

Definition DerivaCompatTable_entities (self : DerivaCompatTable) : M world generator :=
  if progress_bar (t_pkg self) then
    let* q := DerivaCompatTable_as_query self in
    ret (tqdm (DerivaCompatQuery_entities q))
  else
    let* q := DerivaCompatTable_as_query self in
    ret (DerivaCompatQuery_entities q).

Definition DerivaCompatTable_count `{Runtime} (self : DerivaCompatTable) : M world Z :=
  let* q := DerivaCompatTable_as_query self in
  DerivaCompatQuery_count q.

(** ** Chains of calls on a handle *)

Inductive handle : Type :=
| HTable (t : DerivaCompatTable)
| HQuery (q : DerivaCompatQuery).

Inductive op : Type :=
| OpFilter (clause : pyobj)
| OpLink (other : DerivaCompatTable) (on : pyobj) (join_type : string)
| OpGroupby (clauses : list pyobj)
| OpPivot (other : DerivaCompatTable).

(** [h.filter(...)], [h.link(...)], [h.groupby(...)], [h.pivot(...)]: a table
    handle has no [groupby] and no [pivot]. *)
Definition apply_op (h : handle) (o : op) : M world DerivaCompatQuery :=
  match h, o with
  | HQuery q, OpFilter c => DerivaCompatQuery_filter q c
  | HQuery q, OpLink t on jt => DerivaCompatQuery_link q t on jt
  | HQuery q, OpGroupby cs => DerivaCompatQuery_groupby q cs
  | HQuery q, OpPivot t => DerivaCompatQuery_pivot q t
  | HTable t, OpFilter c => DerivaCompatTable_filter t c
  | HTable t, OpLink t' on jt => DerivaCompatTable_link t t' on jt
  | HTable _, OpGroupby _ => raise (AttributeError "groupby")
  | HTable _, OpPivot _ => raise (AttributeError "pivot")
  end.

Fixpoint chain (h : handle) (ops : list op) : M world handle :=
  match ops with
  | [] => ret h
  | o :: rest => let* q := apply_op h o in chain (HQuery q) rest
  end.

(** [h.filter(f)] on either kind of handle *)
Definition handle_filter (h : handle) (f : pyobj) : M world handle :=
  let* q := apply_op h (OpFilter f) in ret (HQuery q).

(** [h.count()] and [h.entities()] on either kind of handle *)
Definition handle_count `{Runtime} (h : handle) : M world Z :=
  match h with
  | HTable t => DerivaCompatTable_count t
  | HQuery q => DerivaCompatQuery_count q
  end.

Definition handle_entities (h : handle) : M world generator :=
  match h with
  | HTable t => DerivaCompatTable_entities t
  | HQuery q => ret (DerivaCompatQuery_entities q)
  end.

(** ** [DERIVA_col_in] *)

(** One turn of the loop: [f = col == el] the first time, then
    [f = f | (col == el)]. *)
Definition col_in_step (col : DerivaCompatPrimitive)
    (f : result (option DerivaCompatPrimitive)) (el : pyobj)
    : result (option DerivaCompatPrimitive) :=
  let? f' := f in
  let? c := DerivaCompatPrimitive_eq col el in
  match f' with
  | None => Ok (Some c)
  | Some g => let? h := DerivaCompatPrimitive_or g (PPrimitive c) in Ok (Some h)
  end.

Definition DERIVA_col_in (qs : handle) (col : DerivaCompatPrimitive) (arr : list pyobj)
    : M world handle :=
  let* f := lift (fold_left (col_in_step col) arr (Ok None)) in
  match f with
  | None => ret qs
  | Some f' => handle_filter qs (PPrimitive f')
  end.

(** ** Resources and [format_patch] *)

(** A datapackage [Resource].  [rc_descriptor] is the dict behind
    [rc.descriptor], which the caller may edit; [rc_committed] is the
    descriptor in force since the last [commit()]; [rc_read] is what
    [read(keyed=True)] gives under the descriptor in force. *)
Record Resource : Type := {
  rc_name : string;
  rc_descriptor : gmap string value;
  rc_committed : gmap string value;
  rc_read : gmap string value -> result (list (list (string * value)));
}.

(** The state the loader works on: the store, the resource objects by
    address, and what has been printed. *)
Record loader_state : Type := {
  l_db : gmap string sqlite.table;
  l_resources : gmap nat Resource;
  l_stdout : list string;
}.

Definition deref (rc : nat) : M loader_state Resource :=
  fun s =>
    match l_resources s !! rc with
    | Some r => (Ok r, s)
    | None => (Raise (ValueError "no such object"), s)
    end.

Definition store (rc : nat) (r : Resource) : M loader_state unit :=
  fun s => (Ok tt, {| l_db := l_db s;
                      l_resources := <[rc := r]> (l_resources s);
                      l_stdout := l_stdout s |}).

Definition print (line : string) : M loader_state unit :=
  fun s => (Ok tt, {| l_db := l_db s;
                      l_resources := l_resources s;
                      l_stdout := l_stdout s ++ [line] |}).

(** [rc.descriptor[k] = v] *)
Definition set_descriptor (rc : nat) (k : string) (v : value) : M loader_state unit :=
  let* r := deref rc in
  store rc {| rc_name := rc_name r;
              rc_descriptor := <[k := v]> (rc_descriptor r);
              rc_committed := rc_committed r;
              rc_read := rc_read r |}.

(** [rc.commit()]: the edited descriptor comes into force.  (The library
    does more: it rebuilds the descriptor, filling in the defaults of the
    profile of the resource, and in strict mode it raises on a descriptor that
    is not valid.  [format_patch_with] below is written over any [commit].) *)
Definition commit (rc : nat) : M loader_state unit :=
  let* r := deref rc in
  store rc {| rc_name := rc_name r;
              rc_descriptor := rc_descriptor r;
              rc_committed := rc_descriptor r;
              rc_read := rc_read r |}.

(** [s.endswith(suffix)] *)
Definition endswith (s suffix : string) : bool :=
  let n := String.length s in
  let m := String.length suffix in
  (m <=? n)%nat && String.eqb (substring (n - m) m s) suffix.

Definition tab : string := String (Ascii.ascii_of_nat 9) EmptyString.
Definition newline : string := String (Ascii.ascii_of_nat 10) EmptyString.

Definition tsv_dialect : value :=
  VDict [ ("delimiter", VStr tab);
          ("doubleQuote", VBool false);
          ("lineTerminator", VStr newline);
          ("skipInitialSpace", VBool true);
          ("header", VBool true) ].

(** [s.endswith('.tsv')] on whatever the descriptor holds under [path] *)
Definition path_endswith_tsv (d : gmap string value) : result bool :=
  match d !! "path" with
  | None => Raise (KeyError "path")
  | Some (VStr p) => Ok (endswith p ".tsv")
  | Some _ => Raise (AttributeError "endswith")
  end.

(** [format_patch], over what [rc.commit()] does. *)
Definition format_patch_with (commit : nat -> M loader_state unit) (rc : nat)
    : M loader_state nat :=
  let* r := deref rc in
  let* tsv := lift (path_endswith_tsv (rc_descriptor r)) in
  if tsv && bool_decide (rc_descriptor r !! "dialect" = None) then
    let* _ := set_descriptor rc "dialect" tsv_dialect in
    let* _ := commit rc in
    ret rc
  else if bool_decide (rc_descriptor r !! "format" = None) then
    let* _ := set_descriptor rc "format" VNone in
    let* _ := commit rc in
    ret rc
  else
    ret rc.

(** [format_patch], with the [commit] above. *)
Definition format_patch : nat -> M loader_state nat := format_patch_with commit.

(** Whether the store has an index of that name, on whatever table: the
    names of indexes are those of the whole database. *)
Definition index_exists (idx : string) (db : gmap string sqlite.table) : bool :=
  existsb (fun kv => existsb (String.eqb idx) (map fst (sqlite.st_indexes (snd kv))))
          (map_to_list db).

(** ** pandas: data frames and [to_sql] *)
Module pd.

(** [df_index] holds the names of the index levels, or [None] for the
    unnamed default index 0, 1, 2, ...; [df_columns] the column labels;
    every record holds its cells by label, those of the index levels too. *)
Record DataFrame : Type := {
  df_index : option (list string);
  df_columns : list string;
  df_records : list (list (string * value));
}.

Definition nan : value := VFloat S754_nan.

Definition mem (x : string) (l : list string) : bool := existsb (String.eqb x) l.

Fixpoint union_keys (seen : list string) (keys : list string) : list string :=
  match keys with
  | [] => seen
  | k :: rest => union_keys (if mem k seen then seen else seen ++ [k]) rest
  end.

(** A column of numbers that has a float or a missing cell (NaN or [None])
    is made a column of float64, its integers with it.  Any other column is
    kept as it is read. *)
Definition int64 (z : Z) : bool := (- 2 ^ 63 <=? z) && (z <? 2 ^ 63).

Definition number_or_missing (v : value) : bool :=
  match v with
  | VInt z => int64 z
  | VFloat _ | VNone => true
  | _ => false
  end.

Definition is_int (v : value) : bool :=
  match v with
  | VInt _ => true
  | _ => false
  end.

Definition to_float64 `{Runtime} (v : value) : value :=
  match v with
  | VInt z => VFloat (float_of_int z)
  | VNone => nan
  | _ => v
  end.

Definition floats (cells : list value) : bool :=
  forallb number_or_missing cells && negb (forallb is_int cells).

(** [pd.DataFrame(records)]: one column per key met, a missing cell is NaN,
    and the type of each column is inferred from its cells. *)
Definition of_records `{Runtime} (raw : list (list (string * value))) : DataFrame :=
  let cols := fold_left (fun seen r => union_keys seen (map fst r)) raw [] in
  let cell c r := default nan (assoc c r) in
  {| df_index := None;
     df_columns := cols;
     df_records :=
       map (fun r => map (fun c => (c, if floats (map (cell c) raw)
                                       then to_float64 (cell c r) else cell c r)) cols)
           raw |}.

(** [pd.DataFrame([], columns=cols)] *)
Definition empty (cols : list string) : DataFrame :=
  {| df_index := None; df_columns := cols; df_records := [] |}.

Definition first_missing (wanted have : list string) : option string :=
  List.find (fun c => negb (mem c have)) wanted.

(** [df[[cols]]] *)
Definition select (df : DataFrame) (cols : list string) : result DataFrame :=
  match first_missing cols (df_columns df) with
  | Some c => Raise (KeyError c)
  | None =>
      Ok {| df_index := df_index df;
            df_columns := cols;
            df_records := map (fun r => map (fun c => (c, default nan (assoc c r))) cols)
                              (df_records df) |}
  end.

Definition update_cell (c : string) (f : value -> result value)
    (kv : string * value) : result (string * value) :=
  if String.eqb (fst kv) c then let? v := f (snd kv) in Ok (fst kv, v) else Ok kv.

(** [df[c] = f(df[c])] for a conversion [f] that works cell by cell *)
Definition convert (df : DataFrame) (c : string) (f : value -> result value)
    : result DataFrame :=
  if mem c (df_columns df) then
    let? rs := rmap (rmap (update_cell c f)) (df_records df) in
    Ok {| df_index := df_index df; df_columns := df_columns df; df_records := rs |}
  else Raise (KeyError c).

(** [df.set_index(keys, inplace=True)] *)
Definition set_index (df : DataFrame) (keys : list string) : result DataFrame :=
  match first_missing keys (df_columns df) with
  | Some c => Raise (KeyError c)
  | None =>
      Ok {| df_index := Some keys;
            df_columns := List.filter (fun c => negb (mem c keys)) (df_columns df);
            df_records := df_records df |}
  end.

(** The labels [to_sql(index=True, index_label=...)] writes the index
    under: the given labels, else the names of the index, an unnamed index
    going under [index], or [level_0] when a column has that name. *)
Definition index_labels (df : DataFrame) (index_label : option (list string))
    : result (list string) :=
  let levels := match df_index df with
                | None => 1%nat
                | Some names => length names
                end in
  match index_label with
  | Some labels =>
      if Nat.eqb (length labels) levels then Ok labels
      else Raise (ValueError "Length of 'index_label' should match number of levels")
  | None =>
      match df_index df with
      | Some names => Ok names
      | None => Ok [if mem "index" (df_columns df) then "level_0" else "index"]
      end
  end.

(** A cell as the store takes it: NaN goes in as NULL; a list, a dict or an
    integer beyond 64 bits cannot be bound. *)
Definition to_cell (v : value) : result value :=
  match v with
  | VFloat S754_nan => Ok VNone
  | VList _ | VDict _ => Raise (InterfaceError "Error binding parameter")
  | VInt z =>
      if int64 z then Ok v
      else Raise (Foreign "OverflowError"
                    "Python int too large to convert to SQLite INTEGER" None)
  | _ => Ok v
  end.

Definition index_cells (df : DataFrame) (i : nat) (r : list (string * value)) : list value :=
  match df_index df with
  | None => [VInt (Z.of_nat i)]
  | Some names => map (fun c => default nan (assoc c r)) names
  end.

Definition row_cells (df : DataFrame) (ir : nat * list (string * value))
    : result (list value) :=
  rmap to_cell (index_cells df (fst ir) (snd ir)
                ++ map (fun c => default nan (assoc c (snd ir))) (df_columns df)).

(** [to_sql(df, name, con, if_exists='replace', index=True, index_label)]:
    the table of that name is dropped, with its indexes, and made anew; the
    index levels are written as columns, before the columns of the frame, and
    each gets an index of its own, whose name must not be that of an index of
    another table.  The table that a failed [to_sql] leaves behind is not
    modelled. *)
Definition to_sql (df : DataFrame) (name : string) (index_label : option (list string))
    (db : gmap string sqlite.table) : result (gmap string sqlite.table) :=
  let? labels := index_labels df index_label in
  match List.find (fun l => index_exists ("ix_" +:+ name +:+ "_" +:+ l) (delete name db))
                  labels with
  | Some l =>
      Raise (OperationalError ("index ix_" +:+ name +:+ "_" +:+ l +:+ " already exists"))
  | None =>
      let? rows := rmap (row_cells df) (imap pair (df_records df)) in
      Ok (<[name := {| sqlite.st_columns := labels ++ df_columns df;
                       sqlite.st_rows := rows;
                       sqlite.st_indexes :=
                         map (fun l => ("ix_" +:+ name +:+ "_" +:+ l, [l])) labels |}]> db)
  end.

End pd.

(** ** The resource loader of [DerivaCompatPkg.__init__] *)

Fixpoint foldM {S A B} (f : B -> A -> M S B) (l : list A) (b : B) : M S B :=
  match l with
  | [] => ret b
  | x :: xs => let* b' := f b x in foldM f xs b'
  end.

Definition as_str (v : value) : result string :=
  match v with
  | VStr s => Ok s
  | _ => Raise (TypeError "expected str")
  end.

Definition as_list (v : value) : result (list value) :=
  match v with
  | VList xs => Ok xs
  | _ => Raise (TypeError "object is not iterable")
  end.

(** [[k] if type(k) != list else k], as column names *)
Definition keys_of (k : value) : result (list string) :=
  match k with
  | VList xs => rmap as_str xs
  | _ => let? s := as_str k in Ok [s]
  end.

(** [[field['name'] for field in schema['fields']]] *)
Definition field_names (schema : value) : result (list string) :=
  let? fs := getitem schema "fields" in
  let? fields := as_list fs in
  rmap (fun field => let? n := getitem field "name" in as_str n) fields.

(** The entries of the dict [rcs], in the order their names were first met. *)
Record rcs_entry : Type := {
  e_schema : value;
  e_rcs : list nat;
}.

Fixpoint append_rc (name : string) (rc : nat) (rcs : list (string * rcs_entry))
    : list (string * rcs_entry) :=
  match rcs with
  | [] => []
  | (k, e) :: rest =>
      if String.eqb k name
      then (k, {| e_schema := e_schema e; e_rcs := e_rcs e ++ [rc] |}) :: rest
      else (k, e) :: append_rc name rc rest
  end.

(** The body of [for resource in map(format_patch, pkg.resources)] *)
Definition collect_resource (rcs : list (string * rcs_entry)) (rc : nat)
    : M loader_state (list (string * rcs_entry)) :=
  let* resource := format_patch rc in
  let* r := deref resource in
  let* rcs' :=
    match assoc (rc_name r) rcs with
    | Some _ => ret rcs
    | None =>
        match rc_descriptor r !! "schema" with
        | Some schema => ret (rcs ++ [(rc_name r, {| e_schema := schema; e_rcs := [] |})])
        | None => raise (KeyError "schema")
        end
    end in
  ret (append_rc (rc_name r) resource rcs').

(** [resource.read(keyed=True)] *)
Definition read (rc : nat) : M loader_state (list (list (string * value))) :=
  let* r := deref rc in
  lift (rc_read r (rc_committed r)).

(** [[record for resource in rcs for record in resource.read(keyed=True)]] *)
Fixpoint read_all (rcs : list nat) : M loader_state (list (list (string * value))) :=
  match rcs with
  | [] => ret []
  | rc :: rest =>
      let* records := read rc in
      let* more := read_all rest in
      ret (records ++ more)
  end.

(** [e.errors] *)
Definition getattr_errors (e : exn) : result (list string) :=
  match e with
  | Foreign _ _ (Some errors) => Ok errors
  | _ => Raise (AttributeError "errors")
  end.

Definition repr_list (l : list string) : string :=
  "[" +:+ String.concat ", " (map (fun x => "'" +:+ x +:+ "'") l) +:+ "]".

(** The [try] around the read, with its [except Exception as e] handler. *)
Definition read_or_report (resource_name : string) (rcs : list nat)
    : M loader_state (list (list (string * value))) :=
  fun s =>
    match read_all rcs s with
    | (Ok raw_data, s') => (Ok raw_data, s')
    | (Raise e, s') =>
        (let* _ := print ("datapackage exception while reading from table: '"
                          +:+ resource_name +:+ "'") in
         let* errors := lift (getattr_errors e) in
         let* _ := print (repr_list errors) in
         raise e) s'
    end.

(** One turn of [for field in resource['schema']['fields']] *)
Definition coerce_field `{Runtime} (data : pd.DataFrame) (field : value)
    : result pd.DataFrame :=
  let? ty := getitem field "type" in
  match ty with
  | VStr t =>
      if String.eqb t "datetime" then
        let? n := getitem field "name" in let? c := as_str n in
        pd.convert data c to_datetime
      else if String.eqb t "array" || String.eqb t "object" then
        let? n := getitem field "name" in let? c := as_str n in
        pd.convert data c json_dumps
      else if String.eqb t "number" then
        let? n := getitem field "name" in let? c := as_str n in
        pd.convert data c astype_float64
      else Ok data
  | VList _ | VDict _ => Raise (TypeError "unhashable type")
  | _ => Ok data
  end.

Definition write (f : gmap string sqlite.table -> result (gmap string sqlite.table))
    : M loader_state unit :=
  fun s =>
    match f (l_db s) with
    | Ok db => (Ok tt, {| l_db := db; l_resources := l_resources s; l_stdout := l_stdout s |})
    | Raise e => (Raise e, s)
    end.

(** [create index if not exists idx on tbl (cols)] *)
Definition create_index (idx tbl : string) (cols : list string)
    (db : gmap string sqlite.table) : result (gmap string sqlite.table) :=
  match db !! tbl with
  | None => Raise (OperationalError ("no such table: " +:+ tbl))
  | Some st =>
      if index_exists idx db then Ok db
      else match pd.first_missing cols (sqlite.st_columns st) with
           | Some c => Raise (OperationalError ("no such column: " +:+ c))
           | None =>
               Ok (<[tbl := {| sqlite.st_columns := sqlite.st_columns st;
                               sqlite.st_rows := sqlite.st_rows st;
                               sqlite.st_indexes := sqlite.st_indexes st ++ [(idx, cols)] |}]> db)
           end
  end.

Definition index_name (resource_name : string) (cols : list string) : string :=
  String.concat "_" ("idx" :: resource_name :: cols).

(** [schema.get('foreignKeys', [])] *)
Definition foreign_keys (schema : value) : result (list value) :=
  match schema with
  | VDict kvs => match assoc "foreignKeys" kvs with
                 | Some fks => as_list fks
                 | None => Ok []
                 end
  | _ => Raise (AttributeError "get")
  end.

(** The body of [for resource_name, resource in rcs.items()] *)
Definition load_resource `{Runtime} (resource_name : string) (resource : rcs_entry)
    : M loader_state unit :=
  let schema := e_schema resource in
  let* raw_data := read_or_report resource_name (e_rcs resource) in
  let empty := match raw_data with [] => true | _ => false end in
  let* names := lift (field_names schema) in
  let* data := lift (if empty then Ok (pd.empty names)
                     else pd.select (pd.of_records raw_data) names) in
  let* fields := lift (let? fs := getitem schema "fields" in as_list fs) in
  let* data := lift (fold_left (fun acc field => let? d := acc in coerce_field d field)
                               fields (Ok data)) in
  if empty then
    write (pd.to_sql data resource_name None)
  else
    let* pk := lift (getitem schema "primaryKey") in
    let* keys := lift (keys_of pk) in
    let* data := lift (pd.set_index data keys) in
    let* _ := write (pd.to_sql data resource_name (Some keys)) in
    let* _ := write (create_index (index_name resource_name keys) resource_name keys) in
    let* fks := lift (foreign_keys schema) in
    foldM (fun _ foreignKeys =>
             let* fs := lift (let? f := getitem foreignKeys "fields" in keys_of f) in
             write (create_index (index_name resource_name fs) resource_name fs))
          fks tt.

(** [metadata.reflect] and the dict [tables] *)
Definition reflect (pkg : DerivaCompatPkg) (db : gmap string sqlite.table)
    : gmap string DerivaCompatTable :=
  map_imap (fun name st =>
              Some (DerivaCompatTable_init pkg
                      {| sa.tbl_source := name;
                         sa.tbl_name := name;
                         sa.tbl_columns := sqlite.st_columns st |} None)) db.

(** [DerivaCompatPkg.__init__]: the package object and its [tables]. *)
Definition DerivaCompatPkg_init `{Runtime} (pkgs : list (list nat)) (progress : bool)
    : M loader_state (DerivaCompatPkg * gmap string DerivaCompatTable) :=
  let* rcs := foldM collect_resource (concat pkgs) [] in
  let* _ := foldM (fun _ entry => load_resource (fst entry) (snd entry)) rcs tt in
  let pkg := {| progress_bar := progress |} in
  fun s => (Ok (pkg, reflect pkg (l_db s)), s).

(** ** Notions used in the statements below *)

(** [w'] has the store, the sent statements, the default path dict and
    every existing path dict of [w] as they were; it may hold new dicts. *)
Definition extends (w w' : world) : Prop :=
  w_db w' = w_db w
  /\ w_sent w' = w_sent w
  /\ w_default_path w' = w_default_path w
  /\ forall l, l ∈ dom (w_paths w) -> w_paths w' !! l = w_paths w !! l.

(** The join kinds [link] implements. *)
Definition supported (o : op) : bool :=
  match o with
  | OpLink _ _ jt => String.eqb jt "left" || String.eqb jt "full"
  | _ => true
  end.

(** Whether the first call of a chain is a method of the handle it is made on. *)
Definition has_method (h : handle) (ops : list op) : bool :=
  match h, ops with
  | HTable _, (OpGroupby _ :: _ | OpPivot _ :: _) => false
  | _, _ => true
  end.

(** The [Query] a handle stands for. *)
Definition statement_of (h : handle) : result sa.Query :=
  match h with
  | HTable t => t_qs t (sa.query (DerivaCompatTable_call t))
  | HQuery q => DerivaCompatQuery_call q
  end.

(** The OR of the equalities [col == v], in the words of the docstring of
    [DERIVA_col_in]: [(col == a) | (col == b) | (col == c)]. *)
Definition or_of_equalities (col : sa.expr) (v : value) (vs : list value) : sa.expr :=
  fold_left (fun f x => sa.EOr f (sa.eq col (sa.ELiteral x))) vs (sa.eq col (sa.ELiteral v)).

(** The comparison [col == v] is true on the row [r], as the store
    evaluates it. *)
Definition equals_candidate `{Runtime} (col : sa.expr) (r : sqlite.row) (v : value) : bool :=
  sqlite.is_true (sqlite.eval r (sa.eq col (sa.ELiteral v))).

(** A record of a result, read as a row of the table it was selected from. *)
Definition as_row (t : sa.table) (record : list (string * value)) : sqlite.row :=
  map (fun kv => (sa.tbl_name t, fst kv, snd kv)) record.

(** The records of a result over the table [t] on which the column [c]
    equals at least one candidate. *)
Definition rows_with_candidate `{Runtime} (t : sa.table) (c : string) (vs : list value)
    (rows : list (list (string * value))) : list (list (string * value)) :=
  List.filter (fun record => existsb (equals_candidate (sa.EColumn t c) (as_row t record)) vs)
              rows.

(** The rows a handle gives when its query is run on a store. *)
Definition rows_of `{Runtime} (db : gmap string sqlite.table) (h : handle)
    : result (list (list (string * value))) :=
  let? stmt := statement_of h in sqlite.run db stmt.

(** The values the specification calls empty or null-like: [None], an empty
    string, an empty list or dict. *)
Definition empty_or_null (v : value) : bool :=
  match v with
  | VNone => true
  | VStr s => String.eqb s ""
  | VList [] => true
  | VDict [] => true
  | _ => false
  end.

(** The resource [r] with [k: v] written into its descriptor, not yet
    committed. *)
Definition edited (r : Resource) (k : string) (v : value) : Resource :=
  {| rc_name := rc_name r;
     rc_descriptor := <[k := v]> (rc_descriptor r);
     rc_committed := rc_committed r;
     rc_read := rc_read r |}.

(** What [format_patch] relies on in [rc.commit()]: it returns, and it leaves
    the resource with its [path], with every entry of its descriptor that was
    there (under a value that may have been filled in), and without [format]
    if it had none. *)
Definition commit_keeps (commit : nat -> M loader_state unit) (rc : nat) : Prop :=
  forall s r,
    l_resources s !! rc = Some r ->
    exists s' r',
      commit rc s = (Ok tt, s')
      /\ l_resources s' !! rc = Some r'
      /\ rc_descriptor r' !! "path" = rc_descriptor r !! "path"
      /\ (forall k, is_Some (rc_descriptor r !! k) -> is_Some (rc_descriptor r' !! k))
      /\ (rc_descriptor r !! "format" = None -> rc_descriptor r' !! "format" = None).

(** The resource [r] with [k: v] written into its descriptor and committed. *)
Definition patched (r : Resource) (k : string) (v : value) : Resource :=
  {| rc_name := rc_name r;
     rc_descriptor := <[k := v]> (rc_descriptor r);
     rc_committed := <[k := v]> (rc_descriptor r);
     rc_read := rc_read r |}.

(** The state [s] with the resource at [rc] replaced. *)
Definition with_resource (s : loader_state) (rc : nat) (r : Resource) : loader_state :=
  {| l_db := l_db s;
     l_resources := <[rc := r]> (l_resources s);
     l_stdout := l_stdout s |}.

(** The state [s] after some lines were printed. *)
Definition printed (s : loader_state) (lines : list string) : loader_state :=
  {| l_db := l_db s; l_resources := l_resources s; l_stdout := l_stdout s ++ lines |}.

(** The table [to_sql] makes of an empty frame: the surrogate index column,
    then the declared columns, no row, and the index pandas puts on the
    surrogate column. *)
Definition empty_table (name : string) (names : list string) : sqlite.table :=
  let label := if pd.mem "index" names then "level_0" else "index" in
  {| sqlite.st_columns := label :: names;
     sqlite.st_rows := [];
     sqlite.st_indexes := [("ix_" +:+ name +:+ "_" +:+ label, [label])] |}.

(** A table handle as [DerivaCompatPkg.__init__] makes it: its closure
    leaves the query as it is. *)
Definition root (t : DerivaCompatTable) : Prop := forall qs, t_qs t qs = Ok qs.

(** A computation of the loader that leaves every table but [name], and
    every resource object, as it finds them. *)
Definition writes_only {A} (name : string) (c : M loader_state A) : Prop :=
  forall s,
    (forall n, n <> name -> l_db (snd (c s)) !! n = l_db s !! n)
    /\ l_resources (snd (c s)) = l_resources s.

(** The state [s] with the store replaced. *)
Definition with_db (s : loader_state) (db : gmap string sqlite.table) : loader_state :=
  {| l_db := db; l_resources := l_resources s; l_stdout := l_stdout s |}.

(** The table [name] of [db] has the columns and rows of [st0], and at least
    its indexes. *)
Definition same_table_more_indexes (name : string) (st0 : sqlite.table)
    (db : gmap string sqlite.table) : Prop :=
  exists st,
    db !! name = Some st
    /\ sqlite.st_columns st = sqlite.st_columns st0
    /\ sqlite.st_rows st = sqlite.st_rows st0
    /\ forall i, In i (sqlite.st_indexes st0) -> In i (sqlite.st_indexes st).

(** The statement selects from the table [t]: it can be prepared, and a
    table of that name is in its FROM clause. *)
Definition selects_from `{Runtime} (db : gmap string sqlite.table) (stmt : sa.Query)
    (t : sa.table) : Prop :=
  exists sc rows,
    sqlite.prepare_statement db stmt = Ok (sc, rows) /\ sqlite.in_from sc t = true.

(** The attributes and methods of a table handle that its methods, and
    [DerivaCompatQuery.__init__] for its subject, read on the handle.  A column
    of such a name would be found in place of the attribute or method. *)
Definition DerivaCompatTable_reads : list string :=
  ["_pkg"; "_table"; "_qs"; "column_definitions"; "with_qs"; "alias"; "_as_query";
   "link"; "filter"; "entities"; "count"].

(** The attributes and methods of a query handle that its methods read on
    the handle.  A table of such a name on the path would be found in their
    place. *)
Definition DerivaCompatQuery_reads : list string :=
  ["_pkg"; "_subj"; "_query"; "_path"; "pivot"; "link"; "filter"; "groupby";
   "entities"; "count"].

(** No column of the table hides an attribute or a method that the methods
    of its handle read. *)
Definition plain_table (t : DerivaCompatTable) : Prop :=
  forall n, In n DerivaCompatTable_reads -> ~ In n (sa.tbl_columns (t_table t)).

(** No table on the path of the query handle hides an attribute or a method
    that the methods of the handle read. *)
Definition plain_query (w : world) (q : DerivaCompatQuery) : Prop :=
  forall n, In n DerivaCompatQuery_reads -> path_of w q !! n = None.

(** ** A small catalog, for the examples *)

(** The comparison of the examples follows the affinity rules of SQLite as
    far as the catalog needs them.  The columns [label] and [name] have TEXT
    affinity, the others INTEGER affinity.  Against a column of INTEGER
    affinity a bound text that is an integer numeral is read as that integer;
    against a column of TEXT affinity a bound integer is read as its numeral. *)
Definition digit_of (a : Ascii.ascii) : option Z :=
  let n := Ascii.nat_of_ascii a in
  if (48 <=? n)%nat && (n <=? 57)%nat then Some (Z.of_nat (n - 48)) else None.

Fixpoint read_digits (acc : Z) (s : string) : option Z :=
  match s with
  | EmptyString => Some acc
  | String a rest =>
      match digit_of a with
      | Some d => read_digits (10 * acc + d) rest
      | None => None
      end
  end.

(** An integer numeral: digits, after a minus sign or not. *)
Definition read_int (s : string) : option Z :=
  match s with
  | EmptyString => None
  | String a rest =>
      if Nat.eqb (Ascii.nat_of_ascii a) 45 then
        match rest with
        | EmptyString => None
        | _ => Z.opp <$> read_digits 0 rest
        end
      else read_digits 0 s
  end.

Definition text_column (e : sa.expr) : bool :=
  match e with
  | sa.EColumn _ c => String.eqb c "label" || String.eqb c "name"
  | _ => false
  end.

Definition integer_column (e : sa.expr) : bool :=
  match e with
  | sa.EColumn _ c => negb (String.eqb c "label" || String.eqb c "name")
  | _ => false
  end.

Definition as_number (v : value) : value :=
  match v with
  | VStr s => match read_int s with Some z => VInt z | None => v end
  | _ => v
  end.

Definition as_text (v : value) : value :=
  match v with
  | VInt z => VStr (pretty z)
  | _ => v
  end.

Definition demo_compare (a b : sa.expr) (x y : value) : bool :=
  if integer_column a && negb (integer_column b) then sqlite.equal x (as_number y)
  else if integer_column b && negb (integer_column a) then sqlite.equal (as_number x) y
  else if text_column a && negb (text_column b || integer_column b)
       then sqlite.equal x (as_text y)
  else if text_column b && negb (text_column a || integer_column a)
       then sqlite.equal (as_text x) y
  else sqlite.equal x y.

(** A runtime for the examples. *)
Definition demo_runtime : Runtime := {|
  str_other := fun _ => "<repr>";
  text_truth := fun _ => false;
  to_datetime := fun v => Ok v;
  json_dumps := fun _ => Ok (VStr "<json>");
  astype_float64 := fun v =>
    match v with
    | VInt 0 => Ok (VFloat (S754_zero false))
    | VInt (Zpos p) => Ok (VFloat (S754_finite false p 0))
    | VInt (Zneg p) => Ok (VFloat (S754_finite true p 0))
    | _ => Ok v
    end;
  float_of_int := fun z =>
    match z with
    | 0 => S754_zero false
    | Zpos p => S754_finite false p 0
    | Zneg p => S754_finite true p 0
    end;
  compare := demo_compare |}.

Definition demo_pkg : DerivaCompatPkg := {| progress_bar := false |}.

(** Table [item(id, grp, tag)] with two rows of one group, and table
    [category(id, label)] with the group of the items and one more. *)
Definition demo_db : gmap string sqlite.table :=
  {[ "item" := {| sqlite.st_columns := ["id"; "grp"; "tag"];
                  sqlite.st_rows := [ [VInt 1; VInt 7; VInt 0];
                                      [VInt 2; VInt 7; VInt 1] ];
                  sqlite.st_indexes := [] |};
     "category" := {| sqlite.st_columns := ["id"; "label"];
                      sqlite.st_rows := [ [VInt 7; VStr "fruit"];
                                          [VInt 8; VStr "roots"] ];
                      sqlite.st_indexes := [] |} ]}.

Definition demo_world : world :=
  {| w_db := demo_db; w_sent := []; w_default_path := ∅; w_paths := ∅ |}.

Definition item : DerivaCompatTable :=
  DerivaCompatTable_init demo_pkg
    {| sa.tbl_source := "item"; sa.tbl_name := "item";
       sa.tbl_columns := ["id"; "grp"; "tag"] |} None.

Definition category : DerivaCompatTable :=
  DerivaCompatTable_init demo_pkg
    {| sa.tbl_source := "category"; sa.tbl_name := "category";
       sa.tbl_columns := ["id"; "label"] |} None.

(** [item.grp == category.id] *)
Definition item_in_category : DerivaCompatPrimitive :=
  {| p_value := sa.EEq (sa.EColumn (t_table item) "grp")
                       (sa.EColumn (t_table category) "id") |}.

Definition item_schema : value :=
  VDict [ ("fields", VList [ VDict [("name", VStr "id"); ("type", VStr "number")];
                             VDict [("name", VStr "name"); ("type", VStr "string")] ]);
          ("primaryKey", VStr "id") ].

(** A resource [item] backed by [item.tsv], whose read gives [outcome]. *)
Definition item_resource (outcome : result (list (list (string * value)))) : Resource :=
  {| rc_name := "item";
     rc_descriptor := {[ "path" := VStr "item.tsv"; "schema" := item_schema ]};
     rc_committed := {[ "path" := VStr "item.tsv"; "schema" := item_schema ]};
     rc_read := fun _ => outcome |}.

Definition demo_loader (outcome : result (list (list (string * value)))) : loader_state :=
  {| l_db := ∅; l_resources := {[ 0%nat := item_resource outcome ]}; l_stdout := [] |}.

(** The query handle [item._as_query()] makes in [demo_world], and the
    world it leaves. *)
Definition item_query : DerivaCompatQuery :=
  {| q_pkg := demo_pkg; q_subj := item; q_query := fun qs => t_qs item qs;
     q_path := 1%positive |}.

Definition item_world : world := snd (DerivaCompatTable_as_query item demo_world).

Definition item_rows : list (list (string * value)) :=
  [ [("id", VInt 1); ("grp", VInt 7); ("tag", VInt 0)];
    [("id", VInt 2); ("grp", VInt 7); ("tag", VInt 1)] ].

(** [groupby(item.grp)] *)
Definition by_group : op := OpGroupby [PPrimitive (DerivaCompatColumn item "grp")].

Definition category_schema : value :=
  VDict [ ("fields", VList [ VDict [("name", VStr "id"); ("type", VStr "integer")];
                             VDict [("name", VStr "label"); ("type", VStr "string")] ]);
          ("primaryKey", VStr "id") ].

(** A resource [category] with one row, which reads well. *)
Definition category_resource : Resource :=
  {| rc_name := "category";
     rc_descriptor := {[ "path" := VStr "category.csv"; "schema" := category_schema ]};
     rc_committed := {[ "path" := VStr "category.csv"; "schema" := category_schema ]};
     rc_read := fun _ => Ok [ [("id", VInt 1); ("label", VStr "fruit")] ] |}.

(** A package of [category], then [item]; reading a row of [item] fails with
    an exception that carries [errors], or with one that does not. *)
Definition cast_error : exn := Foreign "CastError" "row 3 has a bad id" (Some ["row 3"]).
Definition encoding_error : exn := Foreign "EncodingError" "cannot decode row 3" None.

Definition failing_loader (e : exn) : loader_state :=
  {| l_db := ∅;
     l_resources := {[ 0%nat := category_resource; 1%nat := item_resource (Raise e) ]};
     l_stdout := [] |}.

(** A resource with inline data, which has no [path], and one in several
    parts, whose [path] is a list. *)
Definition inline_resource : Resource :=
  {| rc_name := "inline";
     rc_descriptor := {[ "name" := VStr "inline";
                         "data" := VList [VDict [("id", VInt 1)]] ]};
     rc_committed := {[ "name" := VStr "inline";
                        "data" := VList [VDict [("id", VInt 1)]] ]};
     rc_read := fun _ => Ok [ [("id", VInt 1)] ] |}.

Definition multipart_resource : Resource :=
  {| rc_name := "parts";
     rc_descriptor := {[ "name" := VStr "parts";
                         "path" := VList [VStr "a.tsv"; VStr "b.tsv"] ]};
     rc_committed := {[ "name" := VStr "parts";
                        "path" := VList [VStr "a.tsv"; VStr "b.tsv"] ]};
     rc_read := fun _ => Ok [] |}.

Definition inline_loader : loader_state :=
  {| l_db := ∅;
     l_resources := {[ 0%nat := inline_resource; 1%nat := multipart_resource ]};
     l_stdout := [] |}.

(** A store whose table [item] has a row with [id = 0], and the handle of
    that table. *)
Definition zero_db : gmap string sqlite.table :=
  {[ "item" := {| sqlite.st_columns := ["id"; "name"];
                  sqlite.st_rows := [ [VInt 0; VStr "a"] ];
                  sqlite.st_indexes := [] |} ]}.

Definition zero_world : world :=
  {| w_db := zero_db; w_sent := []; w_default_path := ∅; w_paths := ∅ |}.

Definition zero_item : DerivaCompatTable :=
  DerivaCompatTable_init demo_pkg
    {| sa.tbl_source := "item"; sa.tbl_name := "item";
       sa.tbl_columns := ["id"; "name"] |} None.

(** A chain whose predicates are all malformed: a column that does not
    exist, a bare [DerivaCompat], a plain number. *)
Definition malformed_chain : list op :=
  [ OpFilter (PPrimitive (DerivaCompatColumn item "no_such_column"));
    OpLink item PCompat "full";
    OpGroupby [PValue (VInt 3)];
    OpPivot item ].

(** * Properties *)

(** ** Frame lemmas of the facade *)

Lemma extends_refl w : extends w w.
Proof. repeat split; auto. Qed.

Lemma extends_dom w w' l :
  extends w w' -> l ∈ dom (w_paths w) -> l ∈ dom (w_paths w').
Proof.
  intros (_ & _ & _ & Hp) Hl.
  apply elem_of_dom. rewrite (Hp l Hl). by apply elem_of_dom.
Qed.

Lemma extends_trans w1 w2 w3 : extends w1 w2 -> extends w2 w3 -> extends w1 w3.
Proof.
  intros H12 H23.
  assert (Hdom : forall l, l ∈ dom (w_paths w1) -> l ∈ dom (w_paths w2))
    by (intros l; by apply extends_dom).
  destruct H12 as (Hd & Hs & Hf & Hp), H23 as (Hd' & Hs' & Hf' & Hp').
  repeat split; try congruence.
  intros l Hl. rewrite Hp' by (apply Hdom, Hl). by apply Hp.
Qed.

(** [__init__] returns a handle over a newly allocated dict and changes
    nothing else. *)
Lemma DerivaCompatQuery_init_spec pkg subj query path w :
  DerivaCompatQuery_init pkg subj query path w =
    (Ok {| q_pkg := pkg; q_subj := subj; q_query := query;
           q_path := fresh (dom (w_paths w)) |},
     {| w_db := w_db w;
        w_sent := w_sent w;
        w_default_path := w_default_path w;
        w_paths := <[fresh (dom (w_paths w)) :=
                       <[sa.tbl_name (DerivaCompatTable_call subj) :=
                           DerivaCompatTable_with_qs subj query]> (read_path w path)]>
                     (w_paths w) |}).
Proof. reflexivity. Qed.

Lemma DerivaCompatQuery_init_extends pkg subj query path w :
  extends w (snd (DerivaCompatQuery_init pkg subj query path w)).
Proof.
  rewrite DerivaCompatQuery_init_spec. simpl.
  repeat split; auto.
  intros l Hl. apply lookup_insert_ne.
  intros <-. by apply (is_fresh (dom (w_paths w))).
Qed.

Lemma DerivaCompatQuery_init_ok pkg subj query path w :
  exists q, fst (DerivaCompatQuery_init pkg subj query path w) = Ok q
            /\ q_subj q = subj /\ q_query q = query /\ q_pkg q = pkg
            /\ q_path q = fresh (dom (w_paths w)).
Proof. rewrite DerivaCompatQuery_init_spec. simpl. eauto 10. Qed.

(** A supported [link] is one [__init__] over the prior path. *)
Lemma DerivaCompatQuery_link_supported q t on jt :
  supported (OpLink t on jt) = true ->
  exists query,
    DerivaCompatQuery_link q t on jt =
    DerivaCompatQuery_init (q_pkg q) t query (PathAt (q_path q)).
Proof.
  unfold supported, DerivaCompatQuery_link. intros Hjt.
  destruct (String.eqb jt "left") eqn:Hl; [eauto|].
  destruct (String.eqb jt "right") eqn:Hr.
  - apply String.eqb_eq in Hr. subst jt. discriminate.
  - simpl in Hjt. rewrite Hjt. eauto.
Qed.

Lemma DerivaCompatQuery_link_extends q t on jt w :
  extends w (snd (DerivaCompatQuery_link q t on jt w)).
Proof.
  unfold DerivaCompatQuery_link.
  repeat (case_match; try apply DerivaCompatQuery_init_extends; try apply extends_refl).
Qed.

Lemma query_op_extends q o w : extends w (snd (apply_op (HQuery q) o w)).
Proof.
  destruct o; cbn [apply_op];
    [ apply DerivaCompatQuery_init_extends
    | apply DerivaCompatQuery_link_extends
    | apply DerivaCompatQuery_init_extends
    | apply DerivaCompatQuery_init_extends ].
Qed.

Lemma apply_op_extends h o w : extends w (snd (apply_op h o w)).
Proof.
  destruct h as [t|q]; [|apply query_op_extends].
  pose proof (DerivaCompatQuery_init_extends (t_pkg t) t (fun qs => t_qs t qs) DefaultPath w) as H0.
  destruct o; cbn [apply_op]; try apply extends_refl.
  - unfold DerivaCompatTable_filter, DerivaCompatTable_as_query, bind.
    rewrite DerivaCompatQuery_init_spec in *. cbn [fst snd] in *.
    eapply extends_trans; [exact H0|]. apply DerivaCompatQuery_init_extends.
  - unfold DerivaCompatTable_link, DerivaCompatTable_as_query, bind.
    rewrite DerivaCompatQuery_init_spec in *. cbn [fst snd] in *.
    eapply extends_trans; [exact H0|]. apply DerivaCompatQuery_link_extends.
Qed.

Lemma query_op_ok q o w :
  supported o = true -> exists q', fst (apply_op (HQuery q) o w) = Ok q'.
Proof.
  intros Hs. destruct o; cbn [apply_op].
  - unfold DerivaCompatQuery_filter. rewrite DerivaCompatQuery_init_spec. simpl. eauto.
  - destruct (DerivaCompatQuery_link_supported q other on join_type Hs) as [f ->].
    rewrite DerivaCompatQuery_init_spec. simpl. eauto.
  - unfold DerivaCompatQuery_groupby. rewrite DerivaCompatQuery_init_spec. simpl. eauto.
  - unfold DerivaCompatQuery_pivot. rewrite DerivaCompatQuery_init_spec. simpl. eauto.
Qed.

Lemma apply_op_ok h o w :
  supported o = true -> has_method h [o] = true ->
  exists q', fst (apply_op h o w) = Ok q'.
Proof.
  intros Hs Hm. destruct h as [t|q]; [|by apply query_op_ok].
  destruct o; cbn [apply_op has_method] in *; try discriminate.
  - unfold DerivaCompatTable_filter, DerivaCompatTable_as_query, bind.
    rewrite DerivaCompatQuery_init_spec.
    apply (query_op_ok _ (OpFilter clause)). done.
  - unfold DerivaCompatTable_link, DerivaCompatTable_as_query, bind.
    rewrite DerivaCompatQuery_init_spec.
    apply (query_op_ok _ (OpLink other on join_type)). done.
Qed.

Lemma chain_extends ops : forall h w, extends w (snd (chain h ops w)).
Proof.
  induction ops as [|o ops IH]; intros h w; simpl; [apply extends_refl|].
  unfold bind. pose proof (apply_op_extends h o w) as H1.
  destruct (apply_op h o w) as [[q|e] w1]; simpl in *; [|exact H1].
  eapply extends_trans; [exact H1|apply IH].
Qed.

Lemma chain_ok ops : forall h w,
  forallb supported ops = true -> has_method h ops = true ->
  exists h', fst (chain h ops w) = Ok h'.
Proof.
  induction ops as [|o ops IH]; intros h w Hs Hm; simpl; [eauto|].
  simpl in Hs. apply andb_true_iff in Hs as [Ho Hs].
  assert (Hm1 : has_method h [o] = true) by (destruct h, o; done).
  destruct (apply_op_ok h o w Ho Hm1) as [q Hq].
  unfold bind. destruct (apply_op h o w) as [[q'|e] w1]; simpl in *; [|discriminate].
  apply IH; [exact Hs|done].
Qed.

(** [entities()] only makes a generator. *)
Lemma handle_entities_lazy h w :
  (exists g, fst (handle_entities h w) = Ok g) /\ extends w (snd (handle_entities h w)).
Proof.
  destruct h as [t|q]; cbn [handle_entities].
  - unfold DerivaCompatTable_entities, DerivaCompatTable_as_query, bind.
    destruct (progress_bar (t_pkg t)); rewrite DerivaCompatQuery_init_spec;
      (split; [eexists; reflexivity|]);
      apply (DerivaCompatQuery_init_extends (t_pkg t) t (fun qs => t_qs t qs) DefaultPath w).
  - split; [eexists; reflexivity|apply extends_refl].
Qed.

(** ** C7: a right join is refused *)

(** C7. For every query handle, table handle and predicate, [link] with join
    kind [right] raises [NotImplementedError] at the call: no handle is built
    (no path dict is allocated), nothing is sent to the store, and no other
    join kind is taken instead. *)
Theorem link_right_raises (q : DerivaCompatQuery) (t : DerivaCompatTable)
    (p : pyobj) (w : world) :
  DerivaCompatQuery_link q t p "right" w = (Raise NotImplementedError, w).
Proof. reflexivity. Qed.

(** On a table handle the query handle of [_as_query] is built first; the
    refusal is the same and the store is not touched. *)
Lemma table_link_right_raises (t t' : DerivaCompatTable) (p : pyobj) (w : world) :
  fst (DerivaCompatTable_link t t' p "right" w) = Raise NotImplementedError
  /\ extends w (snd (DerivaCompatTable_link t t' p "right" w)).
Proof.
  split; [reflexivity|].
  apply (apply_op_extends (HTable t) (OpLink t' p "right") w).
Qed.

(** ** C1: building a query runs nothing *)

(** C1. For every table or query handle and every chain of [filter], [link]
    (with a supported join kind), [groupby] and [pivot] calls, whatever the
    predicates are (handles on columns that do not exist, objects that are not
    predicates at all), building the chain leaves the store as it was and
    sends no statement to it, and it raises nothing: it returns the new
    handle, provided the first call is a method of the handle it is made on
    (a table handle has neither [groupby] nor [pivot]); and calling
    [entities()] on the new handle only makes a generator, still without a
    statement sent.  What a malformed predicate breaks is therefore met only
    by [next] on the generator or by [count()]. *)
Theorem construction_runs_nothing (h : handle) (ops : list op) (w : world) :
  forallb supported ops = true ->
  w_db (snd (chain h ops w)) = w_db w
  /\ w_sent (snd (chain h ops w)) = w_sent w
  /\ (has_method h ops = true -> exists h', fst (chain h ops w) = Ok h')
  /\ (forall h', fst (chain h ops w) = Ok h' ->
        (exists g, fst (handle_entities h' (snd (chain h ops w))) = Ok g)
        /\ w_db (snd (handle_entities h' (snd (chain h ops w)))) = w_db w
        /\ w_sent (snd (handle_entities h' (snd (chain h ops w)))) = w_sent w).
Proof.
  intros Hs.
  destruct (chain_extends ops h w) as (Hdb & Hsent & _).
  split; [exact Hdb|]. split; [exact Hsent|]. split.
  - intros Hm. by apply chain_ok.
  - intros h' _.
    destruct (handle_entities_lazy h' (snd (chain h ops w))) as (Hg & Hdb' & Hsent' & _).
    split; [exact Hg|]. split; congruence.
Qed.

Lemma construction_runs_nothing_witness :
  forallb supported malformed_chain = true
  /\ w_db (snd (chain (HTable item) malformed_chain demo_world)) = w_db demo_world
  /\ w_sent (snd (chain (HTable item) malformed_chain demo_world)) = w_sent demo_world
  /\ (has_method (HTable item) malformed_chain = true ->
      exists h', fst (chain (HTable item) malformed_chain demo_world) = Ok h').
Proof.
  assert (Hs : forallb supported malformed_chain = true) by reflexivity.
  split; [exact Hs|].
  pose proof (construction_runs_nothing (HTable item) malformed_chain demo_world Hs)
    as (Hdb & Hsent & Hok & _).
  split; [exact Hdb|]. split; [exact Hsent|exact Hok].
Defined.

(** A filter on a column that does not exist is accepted when the handle is
    built; the store refuses the statement when it is counted, and when the
    generator of [entities()] is first advanced. *)
Example missing_column_raised_by_count :
  fst ((let* h := chain (HTable item)
                    [OpFilter (PPrimitive (DerivaCompatColumn item "no_such_column"))] in
        handle_count (H := demo_runtime) h) demo_world)
  = Raise (OperationalError "no such column: item.no_such_column").
Proof. vm_compute. reflexivity. Qed.

Example missing_column_raised_by_next :
  exists q w,
    chain (HTable item)
      [OpFilter (PPrimitive (DerivaCompatColumn item "no_such_column"))] demo_world
    = (Ok (HQuery q), w)
    /\ w_sent w = []
    /\ fst (fst (next (H := demo_runtime) (DerivaCompatQuery_entities q) w))
       = Raise (OperationalError "no such column: item.no_such_column").
Proof. eexists _, _. split; [reflexivity|]. split; vm_compute; reflexivity. Qed.

(** An object that is not a predicate is called only when the query runs. *)
Example not_a_predicate_raised_by_count :
  fst ((let* h := chain (HTable item) [OpFilter PCompat] in
        handle_count (H := demo_runtime) h) demo_world)
  = Raise (Exception "Call is not defined").
Proof. vm_compute. reflexivity. Qed.

(** ** C2: what [link] joins, and how *)

Section Joins.
Context `{Runtime}.

Lemma from_clause_join db q target on :
  sqlite.from_clause db (sa.join q target on) =
  sqlite.from_step db (sqlite.from_clause db q)
    {| sa.j_kind := sa.InnerJoin; sa.j_target := target; sa.j_on := on |}.
Proof. unfold sqlite.from_clause, sa.join. simpl. by rewrite fold_left_app. Qed.

Lemma from_clause_outerjoin db q target on :
  sqlite.from_clause db (sa.outerjoin q target on) =
  sqlite.from_step db (sqlite.from_clause db q)
    {| sa.j_kind := sa.LeftOuterJoin; sa.j_target := target; sa.j_on := on |}.
Proof. unfold sqlite.from_clause, sa.outerjoin. simpl. by rewrite fold_left_app. Qed.

(** An inner join holds exactly the pairs on which the ON clause is true. *)
Lemma join_rows_inner on left right sc x :
  In x (sqlite.join_rows sa.InnerJoin on left right sc) <->
  exists l r, In l left /\ In r right
              /\ sqlite.is_true (sqlite.eval (l ++ r) on) = true /\ x = l ++ r.
Proof.
  unfold sqlite.join_rows. rewrite in_flat_map. split.
  - intros (l & Hl & Hx).
    set (ps := List.filter (fun r => sqlite.is_true (sqlite.eval (l ++ r) on)) right) in *.
    assert (Hx' : In x (map (app l) ps)) by (destruct ps; exact Hx).
    apply in_map_iff in Hx' as (r & <- & Hr). apply filter_In in Hr as [Hr Ht].
    eauto 10.
  - intros (l & r & Hl & Hr & Ht & ->). exists l. split; [exact Hl|].
    assert (Hin : In r (List.filter (fun r => sqlite.is_true (sqlite.eval (l ++ r) on)) right))
      by (apply filter_In; auto).
    set (ps := List.filter (fun r => sqlite.is_true (sqlite.eval (l ++ r) on)) right) in *.
    destruct ps; [destruct Hin|].
    apply in_map_iff. eauto.
Qed.

(** An outer join keeps a left row without partner, padded with NULLs. *)
Lemma join_rows_outer_unmatched on left right sc l :
  In l left ->
  (forall r, In r right -> sqlite.is_true (sqlite.eval (l ++ r) on) = false) ->
  In (l ++ sqlite.null_row sc) (sqlite.join_rows sa.LeftOuterJoin on left right sc).
Proof.
  intros Hl Hno. unfold sqlite.join_rows. apply in_flat_map. exists l. split; [exact Hl|].
  assert (Hnil : List.filter (fun r => sqlite.is_true (sqlite.eval (l ++ r) on)) right = []).
  { destruct (List.filter (fun r => sqlite.is_true (sqlite.eval (l ++ r) on)) right)
      as [|r rest] eqn:Hf; [done|].
    assert (Hin : In r (List.filter (fun r => sqlite.is_true (sqlite.eval (l ++ r) on)) right))
      by (rewrite Hf; by left).
    apply filter_In in Hin as [Hr Ht]. rewrite (Hno r Hr) in Ht. discriminate. }
  rewrite Hnil. by left.
Qed.

End Joins.

(** C2. For every query handle [q], table handle [t] and predicate [p]:
    [q.link(t, p, join_type='left')] returns a handle on [t] whose query, when
    built, is [q]'s accumulated query joined by [Query.join] (an inner join:
    only the pairs on which [p] is true) with the prior subject, the subject
    of [q], on [p]; with [join_type='full'] the join is made by
    [Query.outerjoin] (an outer join: a row without partner is kept, padded
    with NULLs).  So [left] is an inner join and [full] an outer join. *)
Theorem link_left_joins_full_outerjoins (q : DerivaCompatQuery) (t : DerivaCompatTable)
    (p : pyobj) (w : world) :
  (exists q', fst (DerivaCompatQuery_link q t p "left" w) = Ok q'
      /\ q_subj q' = t
      /\ DerivaCompatQuery_call q' =
           (let? qs := q_query q (sa.query (DerivaCompatTable_call t)) in
            let? on := call p in
            Ok (sa.join qs (DerivaCompatTable_call (q_subj q)) on)))
  /\ (exists q', fst (DerivaCompatQuery_link q t p "full" w) = Ok q'
      /\ q_subj q' = t
      /\ DerivaCompatQuery_call q' =
           (let? qs := q_query q (sa.query (DerivaCompatTable_call t)) in
            let? on := call p in
            Ok (sa.outerjoin qs (DerivaCompatTable_call (q_subj q)) on)))
  /\ (forall (RT : Runtime) db qs target on,
        sqlite.from_clause db (sa.join qs target on) =
        sqlite.from_step db (sqlite.from_clause db qs)
          {| sa.j_kind := sa.InnerJoin; sa.j_target := target; sa.j_on := on |}
        /\ sqlite.from_clause db (sa.outerjoin qs target on) =
           sqlite.from_step db (sqlite.from_clause db qs)
             {| sa.j_kind := sa.LeftOuterJoin; sa.j_target := target; sa.j_on := on |})
  /\ (forall (RT : Runtime) on left right sc,
        (forall x, In x (sqlite.join_rows sa.InnerJoin on left right sc) ->
           exists l r, In l left /\ In r right
                       /\ sqlite.is_true (sqlite.eval (l ++ r) on) = true /\ x = l ++ r)
        /\ (forall l, In l left ->
              (forall r, In r right -> sqlite.is_true (sqlite.eval (l ++ r) on) = false) ->
              In (l ++ sqlite.null_row sc)
                 (sqlite.join_rows sa.LeftOuterJoin on left right sc))).
Proof.
  split; [|split; [|split]].
  - eexists. split; [reflexivity|]. split; reflexivity.
  - eexists. split; [reflexivity|]. split; reflexivity.
  - intros RT db qs target on. split.
    + apply from_clause_join.
    + apply from_clause_outerjoin.
  - intros RT on left right sc. split.
    + intros x Hx. by apply join_rows_inner in Hx.
    + intros l Hl Hno. by apply join_rows_outer_unmatched.
Qed.

(** [item.link(category, on=item.grp == category.id)]: the subject becomes
    [category], joined with [item].  With [left] the category without item
    is dropped, with [full] it is kept. *)
Example item_in_category_built :
  DerivaCompatPrimitive_eq (DerivaCompatColumn item "grp")
    (PPrimitive (DerivaCompatColumn category "id")) = Ok item_in_category.
Proof. reflexivity. Qed.

Example link_left_drops_unmatched :
  exists q w,
    apply_op (HTable item) (OpLink category (PPrimitive item_in_category) "left") demo_world
    = (Ok q, w)
    /\ rows_of (H := demo_runtime) demo_db (HQuery q)
       = Ok [ [("id", VInt 7); ("label", VStr "fruit")];
              [("id", VInt 7); ("label", VStr "fruit")] ].
Proof. eexists _, _. split; [reflexivity|]. vm_compute. reflexivity. Qed.

Example link_full_keeps_unmatched :
  exists q w,
    apply_op (HTable item) (OpLink category (PPrimitive item_in_category) "full") demo_world
    = (Ok q, w)
    /\ rows_of (H := demo_runtime) demo_db (HQuery q)
       = Ok [ [("id", VInt 7); ("label", VStr "fruit")];
              [("id", VInt 7); ("label", VStr "fruit")];
              [("id", VInt 8); ("label", VStr "roots")] ].
Proof. eexists _, _. split; [reflexivity|]. vm_compute. reflexivity. Qed.

(** ** C10: a derived handle gets a path mapping of its own *)

(** C10. For every existing query handle [q], building a derived handle by
    [filter], [link], [groupby] or [pivot] leaves the path mapping of [q] as
    it was: the new handle holds a newly allocated dict, the mapping of [q]
    extended with the new subject; and the dict of the default argument
    [path={}] is never written, neither here nor when a table handle is turned
    into a query. *)
Theorem derived_handle_has_fresh_path (q : DerivaCompatQuery) (o : op) (w : world) :
  q_path q ∈ dom (w_paths w) ->
  path_of (snd (apply_op (HQuery q) o w)) q = path_of w q
  /\ w_default_path (snd (apply_op (HQuery q) o w)) = w_default_path w
  /\ (forall t, w_default_path (snd (apply_op (HTable t) o w)) = w_default_path w)
  /\ (forall q', fst (apply_op (HQuery q) o w) = Ok q' ->
        q_path q' <> q_path q
        /\ (q_path q' ∉ dom (w_paths w))
        /\ path_of (snd (apply_op (HQuery q) o w)) q' =
             <[sa.tbl_name (DerivaCompatTable_call (q_subj q')) :=
                 DerivaCompatTable_with_qs (q_subj q') (q_query q')]> (path_of w q)).
Proof.
  intros Hq.
  destruct (apply_op_extends (HQuery q) o w) as (_ & _ & Hdef & Hpaths).
  split; [|split; [|split]].
  - unfold path_of. by rewrite Hpaths.
  - exact Hdef.
  - intros t. by destruct (apply_op_extends (HTable t) o w) as (_ & _ & ? & _).
  - intros q' Hq'.
    assert (Hinit : exists subj query,
               apply_op (HQuery q) o w =
               DerivaCompatQuery_init (q_pkg q) subj query (PathAt (q_path q)) w).
    { destruct o; cbn [apply_op] in *.
      - eexists _, _. reflexivity.
      - unfold DerivaCompatQuery_link in *.
        repeat (case_match; try (eexists _, _; reflexivity); try discriminate).
      - eexists _, _. reflexivity.
      - eexists _, _. reflexivity. }
    destruct Hinit as (subj & query & Hinit).
    rewrite Hinit in *. rewrite DerivaCompatQuery_init_spec in *.
    cbn [fst snd] in *. injection Hq' as <-. cbn.
    assert (Hne : fresh (dom (w_paths w)) <> q_path q).
    { intros Heq. apply (is_fresh (dom (w_paths w))). by rewrite Heq. }
    split; [exact Hne|]. split; [apply is_fresh|].
    unfold path_of. cbn. by rewrite lookup_insert_eq.
Qed.

Lemma derived_handle_has_fresh_path_witness :
  q_path item_query ∈ dom (w_paths item_world)
  /\ path_of (snd (apply_op (HQuery item_query) (OpPivot item) item_world)) item_query
     = path_of item_world item_query.
Proof.
  assert (Hq : q_path item_query ∈ dom (w_paths item_world)).
  { apply elem_of_dom. eexists. vm_compute. reflexivity. }
  split; [exact Hq|].
  exact (proj1 (derived_handle_has_fresh_path item_query (OpPivot item) item_world Hq)).
Defined.

(** ** C3: what [entities()] yields *)

Section Entities.
Context `{Runtime}.

Lemma entity_lookup record k s :
  entity record !! k = Some s <->
  exists v, asdict record !! k = Some v /\ truthy v = true /\ s = py_str v.
Proof.
  unfold entity. rewrite lookup_fmap. split.
  - intros Hs. apply fmap_Some in Hs as (v & Hv & ->).
    apply map_lookup_filter_Some in Hv as [Hv Ht]. eauto.
  - intros (v & Hv & Ht & ->). apply fmap_Some. exists v. split; [|done].
    apply map_lookup_filter_Some. auto.
Qed.

Lemma entity_lookup_falsy record k v :
  asdict record !! k = Some v -> truthy v = false -> entity record !! k = None.
Proof.
  intros Hv Hf. destruct (entity record !! k) as [s|] eqn:Hs; [|done].
  apply entity_lookup in Hs as (v' & Hv' & Ht & _). congruence.
Qed.

(** A suspended generator hands out its pending records one at a time and
    finishes on the call after the last. *)
Lemma take_suspended n : forall pending w,
  take n (Suspended pending) w =
  (Ok (firstn n (map entity pending)),
   if (n <=? length pending)%nat then Suspended (skipn n pending) else Finished,
   w).
Proof.
  induction n as [|n IH]; intros pending w; [reflexivity|].
  destruct pending as [|r rest]; [reflexivity|].
  cbn [take next]. rewrite IH. reflexivity.
Qed.

Lemma take_created q w stmt rows n :
  DerivaCompatQuery_call q = Ok stmt ->
  sqlite.run (w_db w) stmt = Ok rows ->
  take (S n) (DerivaCompatQuery_entities q) w =
  (Ok (firstn (S n) (map entity rows)),
   if (S n <=? length rows)%nat then Suspended (skipn (S n) rows) else Finished,
   send (SelectRows stmt) w).
Proof.
  intros Hcall Hrun. unfold DerivaCompatQuery_entities.
  cbn [take next]. unfold bind, lift, fetch. rewrite Hcall, Hrun.
  destruct rows as [|r rest]; [reflexivity|].
  rewrite take_suspended. reflexivity.
Qed.

End Entities.

(** C3. When the query of a handle runs and gives the rows [rows]:
    [entities()] only makes a generator (nothing is sent until it is first
    advanced); the first [n] calls of [next] yield the mappings of the first
    [n] rows, one per row and in order, the statement being sent once, by the
    first call; once the rows are used up every further call stops, so the
    sequence is finite and cannot be restarted; and the mapping of a row holds
    [k: str(v)] exactly for the columns [k] whose value [v] is truthy, so no
    key is present for a value that is [None], empty, zero or [False]. *)
Theorem entities_one_mapping_per_row `{Runtime} (q : DerivaCompatQuery) (w : world)
    (stmt : sa.Query) (rows : list (list (string * value))) :
  DerivaCompatQuery_call q = Ok stmt ->
  sqlite.run (w_db w) stmt = Ok rows ->
  take 0 (DerivaCompatQuery_entities q) w = (Ok [], DerivaCompatQuery_entities q, w)
  /\ (forall n,
        take (S n) (DerivaCompatQuery_entities q) w =
        (Ok (firstn (S n) (map entity rows)),
         if (S n <=? length rows)%nat then Suspended (skipn (S n) rows) else Finished,
         send (SelectRows stmt) w))
  /\ (forall w', next Finished w' = (Ok None, Finished, w'))
  /\ to_list (DerivaCompatQuery_entities q) w
       = (Ok (map entity rows), send (SelectRows stmt) w)
  /\ length (map entity rows) = length rows
  /\ (forall record k s,
        entity record !! k = Some s <->
        exists v, asdict record !! k = Some v /\ truthy v = true /\ s = py_str v)
  /\ (forall record k v,
        asdict record !! k = Some v -> truthy v = false -> entity record !! k = None).
Proof.
  intros Hcall Hrun.
  split; [reflexivity|].
  split; [intros n; by apply take_created|].
  split; [reflexivity|].
  split.
  { unfold to_list, DerivaCompatQuery_entities, bind, lift, fetch, ret.
    by rewrite Hcall, Hrun. }
  split; [apply length_map|].
  split; [apply entity_lookup|apply entity_lookup_falsy].
Qed.

Lemma entities_one_mapping_per_row_witness :
  DerivaCompatQuery_call item_query = Ok (sa.query (t_table item))
  /\ sqlite.run (H := demo_runtime) (w_db item_world) (sa.query (t_table item)) = Ok item_rows
  /\ to_list (H := demo_runtime) (DerivaCompatQuery_entities item_query) item_world
     = (Ok (map (entity (H := demo_runtime)) item_rows),
        send (SelectRows (sa.query (t_table item))) item_world).
Proof.
  assert (Hcall : DerivaCompatQuery_call item_query = Ok (sa.query (t_table item)))
    by reflexivity.
  assert (Hrun : sqlite.run (H := demo_runtime) (w_db item_world) (sa.query (t_table item))
                 = Ok item_rows) by (vm_compute; reflexivity).
  split; [exact Hcall|]. split; [exact Hrun|].
  exact (proj1 (proj2 (proj2 (proj2
           (entities_one_mapping_per_row (H := demo_runtime) item_query item_world
              (sa.query (t_table item)) item_rows Hcall Hrun))))).
Defined.

(** The first row of [item] has [tag = 0]: its mapping has no key [tag]. *)
Example entity_drops_zero :
  entity (H := demo_runtime) [("id", VInt 1); ("grp", VInt 7); ("tag", VInt 0)]
  = {[ "id" := "1"; "grp" := "7" ]}.
Proof. vm_compute. reflexivity. Qed.

(** C3 as first stated (every column is mapped to [str(v)] but those whose
    value is empty or null-like) fails on a row with a zero: the table [item]
    has one row, with [id = 0] and [name = 'a'].  [entities()] yields one
    mapping, and it has no key [id], though [0] is neither empty nor
    null-like. *)
Lemma entities_one_mapping_per_row_counterexample :
  rows_of (H := demo_runtime) zero_db (HTable zero_item)
  = Ok [ [("id", VInt 0); ("name", VStr "a")] ]
  /\ fst ((let* g := DerivaCompatTable_entities zero_item in
           to_list (H := demo_runtime) g) zero_world)
     = Ok [ {[ "name" := "a" ]} ]
  /\ empty_or_null (VInt 0) = false
  /\ entity (H := demo_runtime) [("id", VInt 0); ("name", VStr "a")] !! "id" = None
  /\ entity (H := demo_runtime) [("id", VInt 0); ("name", VStr "a")] !! "id"
     <> Some (py_str (H := demo_runtime) (VInt 0)).
Proof.
  split; [vm_compute; reflexivity|]. split; [vm_compute; reflexivity|].
  split; [reflexivity|]. split; [vm_compute; reflexivity|].
  vm_compute. discriminate.
Qed.

(** ** Lists of results *)

Lemma rmap_In {A B} (f : A -> result B) l ys x :
  rmap f l = Ok ys -> In x l -> exists y, f x = Ok y /\ In y ys.
Proof.
  revert ys. induction l as [|a l IH]; intros ys Hmap Hin; [destruct Hin|].
  cbn [rmap] in Hmap.
  destruct (f a) as [b|] eqn:Hfa; [|discriminate]. cbn [rbind] in Hmap.
  destruct (rmap f l) as [bs|] eqn:Hl; [|discriminate]. cbn [rbind] in Hmap.
  injection Hmap as <-. destruct Hin as [->|Hin].
  - exists b. split; [exact Hfa|by left].
  - destruct (IH bs eq_refl Hin) as (y & Hy & Hiny). exists y. split; [exact Hy|by right].
Qed.

(** ** The WHERE clause: conjunction and disjunction *)

Section Where.
Context `{Runtime}.

Lemma is_true_of_bool b : sqlite.is_true (sqlite.of_bool b) = b.
Proof. by destruct b. Qed.

Lemma is_true_and r a b :
  sqlite.is_true (sqlite.eval r (sa.EAnd a b)) =
  sqlite.is_true (sqlite.eval r a) && sqlite.is_true (sqlite.eval r b).
Proof.
  cbn [sqlite.eval]. unfold sqlite.is_true at 2 3.
  destruct (sqlite.truth (sqlite.eval r a)) as [[|]|],
           (sqlite.truth (sqlite.eval r b)) as [[|]|]; reflexivity.
Qed.

Lemma is_true_or r a b :
  sqlite.is_true (sqlite.eval r (sa.EOr a b)) =
  sqlite.is_true (sqlite.eval r a) || sqlite.is_true (sqlite.eval r b).
Proof.
  cbn [sqlite.eval]. unfold sqlite.is_true at 2 3.
  destruct (sqlite.truth (sqlite.eval r a)) as [[|]|],
           (sqlite.truth (sqlite.eval r b)) as [[|]|]; reflexivity.
Qed.

(** What [col == v] comes to on a row: only NULL equals [None]; any other
    candidate is compared, as it is bound, with a cell that is not NULL. *)
Lemma is_true_eq_literal r col v :
  equals_candidate col r v =
  match v with
  | VNone => sqlite.is_null (sqlite.eval r col)
  | _ => negb (sqlite.is_null (sqlite.eval r col))
         && negb (sqlite.is_null (sqlite.bound v))
         && compare col (sa.ELiteral v) (sqlite.eval r col) (sqlite.bound v)
  end.
Proof.
  unfold equals_candidate.
  destruct v; cbn [sa.eq sqlite.eval];
    destruct (sqlite.is_null (sqlite.eval r col)); cbn [orb negb andb];
    try reflexivity; try apply is_true_of_bool;
    destruct (sqlite.is_null (sqlite.bound _)); cbn [orb negb andb];
    first [reflexivity | apply is_true_of_bool].
Qed.

Lemma is_true_or_chain r col vs : forall acc,
  sqlite.is_true (sqlite.eval r
    (fold_left (fun f x => sa.EOr f (sa.eq col (sa.ELiteral x))) vs acc)) =
  sqlite.is_true (sqlite.eval r acc) || existsb (equals_candidate col r) vs.
Proof.
  induction vs as [|x vs IH]; intros acc; cbn [fold_left existsb].
  - by rewrite orb_false_r.
  - rewrite IH, is_true_or. by rewrite orb_assoc.
Qed.

Lemma is_true_or_of_equalities r col v vs :
  sqlite.is_true (sqlite.eval r (or_of_equalities col v vs)) =
  existsb (equals_candidate col r) (v :: vs).
Proof.
  unfold or_of_equalities. rewrite is_true_or_chain. reflexivity.
Qed.

Lemma prepare_criterion_filter sc criterion f :
  sqlite.prepare_criterion sc
    (Some match criterion with None => f | Some c => sa.EAnd c f end) =
  (let? _ := sqlite.prepare_criterion sc criterion in sqlite.prepare sc f).
Proof. destruct criterion; reflexivity. Qed.

Lemma where_clause_filter criterion f rows :
  sqlite.where_clause (Some match criterion with None => f | Some c => sa.EAnd c f end) rows =
  List.filter (fun r => sqlite.is_true (sqlite.eval r f)) (sqlite.where_clause criterion rows).
Proof.
  destruct criterion as [c|]; cbn [sqlite.where_clause]; [|reflexivity].
  induction rows as [|r rows IH]; [reflexivity|].
  cbn [List.filter]. rewrite is_true_and.
  destruct (sqlite.is_true (sqlite.eval r c)); cbn [andb List.filter]; rewrite IH; reflexivity.
Qed.

(** The FROM clause of a statement with one more [filter]: the tables the
    new criterion names are added to those of the statement. *)
Lemma from_where_filter db q f :
  sqlite.from_where db (sa.filter q f) =
  fold_left (sqlite.cross_step db) (sa.tables_of f) (sqlite.from_where db q).
Proof.
  unfold sqlite.from_where.
  change (sqlite.from_clause db (sa.filter q f)) with (sqlite.from_clause db q).
  cbn [sa.filter sa.qs_criterion].
  destruct (sa.qs_criterion q) as [c|]; cbn [sqlite.where_tables sa.tables_of];
    [by rewrite fold_left_app|reflexivity].
Qed.

Lemma cross_steps_raise db ts e :
  fold_left (sqlite.cross_step db) ts (Raise e) = Raise e.
Proof. induction ts as [|t ts IH]; [reflexivity|exact IH]. Qed.

(** Tables that are in the FROM clause already add nothing to it. *)
Lemma cross_steps_in_from db ts sc rows :
  (forall t, In t ts -> sqlite.in_from sc t = true) ->
  fold_left (sqlite.cross_step db) ts (Ok (sc, rows)) = Ok (sc, rows).
Proof.
  induction ts as [|t ts IH]; intros Hin; [reflexivity|].
  cbn [fold_left sqlite.cross_step rbind]. rewrite (Hin t) by (by left).
  apply IH. intros t' Ht'. apply Hin. by right.
Qed.

(** An expression that can be prepared names tables of the FROM clause only. *)
Lemma prepare_in_from sc f :
  sqlite.prepare sc f = Ok tt ->
  forall t, In t (sa.tables_of f) -> sqlite.in_from sc t = true.
Proof.
  assert (Hbin : forall a b,
            (sqlite.prepare sc a = Ok tt ->
             forall t, In t (sa.tables_of a) -> sqlite.in_from sc t = true) ->
            (sqlite.prepare sc b = Ok tt ->
             forall t, In t (sa.tables_of b) -> sqlite.in_from sc t = true) ->
            (let? _ := sqlite.prepare sc a in sqlite.prepare sc b) = Ok tt ->
            forall t, In t (sa.tables_of a ++ sa.tables_of b) -> sqlite.in_from sc t = true).
  { intros a b IHa IHb Hp t Ht.
    destruct (sqlite.prepare sc a) as [[]|] eqn:Ha; [|discriminate].
    cbn [rbind] in Hp. apply in_app_or in Ht as [Ht|Ht]; eauto. }
  induction f; cbn [sqlite.prepare sa.tables_of]; eauto.
  - intros Hp t' [<-|[]].
    destruct (existsb _ sc) eqn:He; [|discriminate].
    apply existsb_exists in He as (tc & Hin & Htc).
    apply andb_true_iff in Htc as [Htc _].
    unfold sqlite.in_from. apply existsb_exists. eauto.
Qed.

(** A statement with one more [filter], on tables it selects from already,
    selects from the rows that passed before and pass the new criterion. *)
Lemma prepare_statement_inv db q sc rows :
  sqlite.prepare_statement db q = Ok (sc, rows) ->
  sqlite.from_where db q = Ok (sc, rows)
  /\ sqlite.prepare_criterion sc (sa.qs_criterion q) = Ok tt
  /\ (exists gs, rmap (sqlite.prepare sc) (sa.qs_group_by q) = Ok gs)
  /\ (exists cs, rmap (fun c => sqlite.prepare sc (sa.EColumn (sa.qs_entity q) c))
                   (sa.tbl_columns (sa.qs_entity q)) = Ok cs).
Proof.
  unfold sqlite.prepare_statement.
  destruct (sqlite.from_where db q) as [[sc0 rows0]|e]; [|discriminate].
  cbn [rbind].
  destruct (sqlite.prepare_criterion sc0 (sa.qs_criterion q)) as [[]|e] eqn:Hc;
    [|discriminate].
  cbn [rbind].
  destruct (rmap (sqlite.prepare sc0) (sa.qs_group_by q)) as [gs|e] eqn:Hg; [|discriminate].
  cbn [rbind].
  destruct (rmap _ (sa.tbl_columns (sa.qs_entity q))) as [cs|e] eqn:Hs; [|discriminate].
  cbn [rbind]. intros [= <- <-]. repeat split; eauto.
Qed.

Lemma prepare_statement_filter db q f sc rows :
  sqlite.prepare_statement db q = Ok (sc, rows) ->
  sqlite.prepare sc f = Ok tt ->
  sqlite.prepare_statement db (sa.filter q f) = Ok (sc, rows).
Proof.
  intros Hp Hf.
  destruct (prepare_statement_inv db q sc rows Hp) as (Hfw & Hc & [gs Hg] & [cs Hs]).
  unfold sqlite.prepare_statement. rewrite from_where_filter, Hfw.
  rewrite (cross_steps_in_from db _ sc rows (prepare_in_from sc f Hf)).
  cbn [rbind sa.filter sa.qs_criterion sa.qs_group_by sa.qs_entity].
  rewrite prepare_criterion_filter, Hc. cbn [rbind]. rewrite Hf. cbn [rbind].
  rewrite Hg. cbn [rbind]. rewrite Hs. reflexivity.
Qed.

Lemma matching_filter db q f sc rows :
  sqlite.prepare_statement db q = Ok (sc, rows) ->
  sqlite.prepare sc f = Ok tt ->
  sqlite.matching db (sa.filter q f) =
  Ok (List.filter (fun r => sqlite.is_true (sqlite.eval r f))
        (sqlite.where_clause (sa.qs_criterion q) rows)).
Proof.
  intros Hp Hf. unfold sqlite.matching.
  rewrite (prepare_statement_filter db q f sc rows Hp Hf).
  cbn [rbind sa.filter sa.qs_criterion]. by rewrite where_clause_filter.
Qed.

(** Two filters in a row run as one filter on the conjunction. *)
Lemma run_filter_filter db q a b :
  sqlite.run db (sa.filter (sa.filter q a) b) = sqlite.run db (sa.filter q (sa.EAnd a b)).
Proof.
  unfold sqlite.run, sqlite.matching, sqlite.prepare_statement.
  rewrite !from_where_filter. cbn [sa.tables_of]. rewrite fold_left_app.
  cbn [sa.filter sa.qs_criterion sa.qs_group_by sa.qs_entity].
  destruct (fold_left (sqlite.cross_step db) (sa.tables_of b)
              (fold_left (sqlite.cross_step db) (sa.tables_of a) (sqlite.from_where db q)))
    as [[sc rows]|e]; [|reflexivity].
  cbn [rbind].
  destruct (sa.qs_criterion q) as [c|]; [|reflexivity].
  assert (Hw : sqlite.where_clause (Some (sa.EAnd (sa.EAnd c a) b)) rows =
               sqlite.where_clause (Some (sa.EAnd c (sa.EAnd a b))) rows).
  { cbn [sqlite.where_clause]. apply filter_ext. intros r.
    rewrite !is_true_and. by rewrite andb_assoc. }
  cbn [sqlite.prepare_criterion sqlite.prepare].
  destruct (sqlite.prepare sc c) as [[]|]; [|reflexivity].
  destruct (sqlite.prepare sc a) as [[]|]; [|reflexivity].
  destruct (sqlite.prepare sc b) as [[]|]; [|reflexivity].
  cbn [rbind].
  destruct (rmap (sqlite.prepare sc) (sa.qs_group_by q)); [|reflexivity].
  cbn [rbind].
  destruct (rmap _ (sa.tbl_columns (sa.qs_entity q))); [|reflexivity].
  cbn [rbind]. by rewrite Hw.
Qed.

End Where.

(** ** C9: two filters are one filter on the conjunction *)

(** C9. For every table handle [t] and predicates [a] and [b], the handles
    [t.filter(a).filter(b)] and [t.filter(a & b)] are both built, and in every
    world [entities()] enumerates the same mappings and [count()] returns the
    same integer for the two (or both raise the same exception, when the
    predicates name columns that do not exist). *)
Theorem filter_filter_is_filter_and `{Runtime} (t : DerivaCompatTable)
    (a b : DerivaCompatPrimitive) (w : world) :
  exists q1 q2 ab,
    fst ((let* q := DerivaCompatTable_filter t (PPrimitive a) in
          DerivaCompatQuery_filter q (PPrimitive b)) w) = Ok q1
    /\ DerivaCompatPrimitive_and a (PPrimitive b) = Ok ab
    /\ fst (DerivaCompatTable_filter t (PPrimitive ab) w) = Ok q2
    /\ forall w',
         fst (to_list (DerivaCompatQuery_entities q1) w')
         = fst (to_list (DerivaCompatQuery_entities q2) w')
         /\ fst (DerivaCompatQuery_count q1 w') = fst (DerivaCompatQuery_count q2 w').
Proof.
  unfold DerivaCompatTable_filter, DerivaCompatTable_as_query, DerivaCompatQuery_filter, bind.
  rewrite !DerivaCompatQuery_init_spec. cbn [fst snd q_pkg q_subj q_query q_path].
  rewrite ?DerivaCompatQuery_init_spec. cbn [fst snd].
  eexists _, _, _. split; [reflexivity|]. split; [reflexivity|]. split; [reflexivity|].
  intros w'.
  unfold to_list, DerivaCompatQuery_count, DerivaCompatQuery_entities, DerivaCompatQuery_call,
    bind, lift, fetch, fetch_count, ret.
  cbn [q_query q_subj call DerivaCompatPrimitive_call p_value sa.and_ rbind].
  unfold sa.and_, DerivaCompatPrimitive_call.
  destruct (t_qs t (sa.query (DerivaCompatTable_call t))) as [qs|e]; cbn [rbind fst];
    [|split; reflexivity].
  rewrite run_filter_filter.
  destruct (sqlite.run (w_db w') (sa.filter qs (sa.EAnd (p_value a) (p_value b))));
    split; reflexivity.
Qed.

(** ** C5: [DERIVA_col_in] *)

(** The loop of [DERIVA_col_in] builds the OR of the equalities, left to right. *)
Lemma col_in_fold col vs : forall acc,
  fold_left (col_in_step col) (map PValue vs) (Ok (Some {| p_value := acc |})) =
  Ok (Some {| p_value :=
                fold_left (fun f x => sa.EOr f (sa.eq (p_value col) (sa.ELiteral x))) vs acc |}).
Proof.
  induction vs as [|x vs IH]; intros acc; [reflexivity|].
  cbn [map fold_left]. apply IH.
Qed.

Lemma col_in_loop col v vs :
  fold_left (col_in_step col) (map PValue (v :: vs)) (Ok None) =
  Ok (Some {| p_value := or_of_equalities (p_value col) v vs |}).
Proof. cbn [map fold_left]. apply col_in_fold. Qed.

(** [h.filter(f)] returns a handle on the query of [h] with [f] filtered in. *)
Lemma handle_filter_statement h f w :
  exists q, fst (handle_filter h (PPrimitive f) w) = Ok (HQuery q)
    /\ statement_of (HQuery q) =
         (let? stmt := statement_of h in Ok (sa.filter stmt (p_value f))).
Proof.
  destruct h as [t|q0]; unfold handle_filter, bind; cbn [apply_op].
  - unfold DerivaCompatTable_filter, DerivaCompatTable_as_query, DerivaCompatQuery_filter, bind.
    rewrite !DerivaCompatQuery_init_spec. cbn [fst snd q_pkg q_subj q_query q_path].
    rewrite ?DerivaCompatQuery_init_spec. cbn [fst snd ret].
    eexists. split; [reflexivity|]. reflexivity.
  - unfold DerivaCompatQuery_filter. rewrite DerivaCompatQuery_init_spec. cbn [fst snd ret].
    eexists. split; [reflexivity|]. reflexivity.
Qed.

Lemma assoc_select (t : sa.table) (r : sqlite.row) c :
  In c (sa.tbl_columns t) ->
  assoc c (sqlite.select t r) = Some (default VNone (sqlite.column_value (sa.tbl_name t) c r)).
Proof.
  unfold sqlite.select. induction (sa.tbl_columns t) as [|c' cols IH]; [intros []|].
  intros Hin. cbn [map assoc].
  destruct (String.eqb c c') eqn:Heq.
  - apply String.eqb_eq in Heq. by subst c'.
  - destruct Hin as [->|Hin]; [by rewrite String.eqb_refl in Heq|]. by apply IH.
Qed.

Lemma filter_map_commute {A B} (g : A -> B) (P : B -> bool) (l : list A) :
  List.filter P (map g l) = map g (List.filter (fun a => P (g a)) l).
Proof.
  induction l as [|a l IH]; [reflexivity|].
  cbn [map List.filter]. destruct (P (g a)); cbn [map]; by rewrite IH.
Qed.

Section ColIn.
Context `{Runtime}.

(** The predicate of [DERIVA_col_in] names the tables of its column only. *)
Lemma tables_of_or_chain col vs : forall acc t,
  In t (sa.tables_of
          (fold_left (fun f x => sa.EOr f (sa.eq col (sa.ELiteral x))) vs acc)) ->
  In t (sa.tables_of acc) \/ In t (sa.tables_of col).
Proof.
  assert (Heq : forall x t, In t (sa.tables_of (sa.eq col (sa.ELiteral x))) ->
                            In t (sa.tables_of col)).
  { intros x t. destruct x; cbn [sa.eq sa.tables_of]; rewrite ?app_nil_r; auto. }
  induction vs as [|x vs IH]; intros acc t; cbn [fold_left]; [auto|].
  intros Ht. apply IH in Ht as [Ht|Ht]; [|auto].
  cbn [sa.tables_of] in Ht. apply in_app_or in Ht as [Ht|Ht]; eauto.
Qed.

Lemma tables_of_or_of_equalities col v vs t :
  In t (sa.tables_of (or_of_equalities col v vs)) -> In t (sa.tables_of col).
Proof.
  unfold or_of_equalities. intros Ht. apply tables_of_or_chain in Ht as [Ht|Ht]; [|exact Ht].
  destruct v; cbn [sa.eq sa.tables_of] in Ht; rewrite ?app_nil_r in Ht; exact Ht.
Qed.

(** A statement that can be prepared has its entity in the FROM clause, if
    the entity has a column at all. *)
Lemma entity_in_from db q sc rows c :
  sqlite.prepare_statement db q = Ok (sc, rows) ->
  In c (sa.tbl_columns (sa.qs_entity q)) ->
  sqlite.in_from sc (sa.qs_entity q) = true.
Proof.
  intros Hp Hc.
  destruct (prepare_statement_inv db q sc rows Hp) as (_ & _ & _ & [cs Hs]).
  destruct (rmap_In _ _ _ c Hs Hc) as ([] & Hpc & _).
  apply (prepare_in_from sc _ Hpc). by left.
Qed.

(** If a statement can be prepared with one more filter on tables it
    selects from already, the filter itself can be prepared, over the same
    FROM clause. *)
Lemma prepare_statement_filter_inv db q f sc0 rows0 sc rows :
  sqlite.prepare_statement db q = Ok (sc0, rows0) ->
  (forall t, In t (sa.tables_of f) -> sqlite.in_from sc0 t = true) ->
  sqlite.prepare_statement db (sa.filter q f) = Ok (sc, rows) ->
  sc = sc0 /\ rows = rows0 /\ sqlite.prepare sc0 f = Ok tt.
Proof.
  intros Hp Hin Hp'.
  destruct (prepare_statement_inv db q sc0 rows0 Hp) as (Hfw & Hc & _).
  destruct (prepare_statement_inv db _ sc rows Hp') as (Hfw' & Hc' & _).
  rewrite from_where_filter, Hfw, (cross_steps_in_from db _ sc0 rows0 Hin) in Hfw'.
  injection Hfw' as <- <-.
  cbn [sa.filter sa.qs_criterion] in Hc'. rewrite prepare_criterion_filter, Hc in Hc'.
  auto.
Qed.

(** The rows of a statement without GROUP BY, and those of the statement
    with one more filter on tables it selects from already. *)
Lemma run_filter_from db q f rows rows' :
  sa.qs_group_by q = [] ->
  (forall sc rows0, sqlite.prepare_statement db q = Ok (sc, rows0) ->
     forall t, In t (sa.tables_of f) -> sqlite.in_from sc t = true) ->
  sqlite.run db q = Ok rows ->
  sqlite.run db (sa.filter q f) = Ok rows' ->
  exists m,
    rows = map (sqlite.select (sa.qs_entity q)) m
    /\ rows' = map (sqlite.select (sa.qs_entity q))
                 (List.filter (fun r => sqlite.is_true (sqlite.eval r f)) m).
Proof.
  intros Hg Hin Hrun Hrun'. unfold sqlite.run in Hrun, Hrun'.
  destruct (sqlite.matching db (sa.filter q f)) as [m'|] eqn:Hm'; [|discriminate].
  destruct (sqlite.matching db q) as [m|] eqn:Hm; [|discriminate].
  cbn [rbind sa.filter sa.qs_group_by sa.qs_entity] in Hrun, Hrun'.
  injection Hrun as <-. injection Hrun' as <-.
  assert (Hps : exists sc0 rows0 sc rows1,
             sqlite.prepare_statement db q = Ok (sc0, rows0)
             /\ sqlite.prepare_statement db (sa.filter q f) = Ok (sc, rows1)).
  { unfold sqlite.matching in Hm, Hm'.
    destruct (sqlite.prepare_statement db q) as [[sc0 rows0]|]; [|discriminate].
    destruct (sqlite.prepare_statement db (sa.filter q f)) as [[sc rows1]|];
      [|discriminate].
    by eexists _, _, _, _. }
  destruct Hps as (sc0 & rows0 & sc & rows1 & Hp & Hp').
  destruct (prepare_statement_filter_inv db q f sc0 rows0 sc rows1 Hp (Hin sc0 rows0 Hp) Hp')
    as (-> & -> & Hf).
  rewrite (matching_filter db q f sc0 rows0 Hp Hf) in Hm'. injection Hm' as <-.
  unfold sqlite.matching in Hm. rewrite Hp in Hm. cbn [rbind] in Hm. injection Hm as <-.
  rewrite Hg. cbn [sqlite.group_clause]. eauto.
Qed.

(** A column of the entity reads the same on a row and on the record
    selected from it. *)
Lemma column_value_as_row (t : sa.table) (r : sqlite.row) c :
  In c (sa.tbl_columns t) ->
  default VNone (sqlite.column_value (sa.tbl_name t) c (as_row t (sqlite.select t r)))
  = default VNone (sqlite.column_value (sa.tbl_name t) c r).
Proof.
  unfold as_row, sqlite.select.
  induction (sa.tbl_columns t) as [|c' cols IH]; [intros []|].
  intros Hin. cbn [map sqlite.column_value fst snd].
  rewrite String.eqb_refl. cbn [andb].
  destruct (String.eqb c' c) eqn:Heq.
  - apply String.eqb_eq in Heq. by subst c'.
  - destruct Hin as [->|Hin]; [by rewrite String.eqb_refl in Heq|]. by apply IH.
Qed.

Lemma equals_candidate_as_row (t : sa.table) (r : sqlite.row) c v :
  In c (sa.tbl_columns t) ->
  equals_candidate (sa.EColumn t c) (as_row t (sqlite.select t r)) v
  = equals_candidate (sa.EColumn t c) r v.
Proof.
  intros Hc. rewrite !is_true_eq_literal. cbn [sqlite.eval].
  by rewrite (column_value_as_row t r c Hc).
Qed.

(** Without GROUP BY, filtering on a column of the entity keeps the result
    rows whose column passes. *)
Lemma run_filter_ungrouped db q c v vs rows rows' :
  sa.qs_group_by q = [] ->
  In c (sa.tbl_columns (sa.qs_entity q)) ->
  sqlite.run db q = Ok rows ->
  sqlite.run db (sa.filter q (or_of_equalities (sa.EColumn (sa.qs_entity q) c) v vs))
    = Ok rows' ->
  rows' = rows_with_candidate (sa.qs_entity q) c (v :: vs) rows.
Proof.
  intros Hg Hc Hrun Hrun'.
  destruct (run_filter_from db q (or_of_equalities (sa.EColumn (sa.qs_entity q) c) v vs)
              rows rows' Hg) as (m & -> & ->); [|exact Hrun|exact Hrun'|].
  { intros sc rows0 Hp t Ht. apply tables_of_or_of_equalities in Ht as [<-|[]].
    by apply (entity_in_from db q sc rows0 c). }
  unfold rows_with_candidate. rewrite filter_map_commute. f_equal.
  apply filter_ext. intros r. rewrite is_true_or_of_equalities.
  clear -Hc. induction (v :: vs) as [|x xs IH]; [reflexivity|].
  cbn [existsb]. f_equal; [|exact IH].
  symmetry. by apply equals_candidate_as_row.
Qed.

End ColIn.

(** C5, as the code has it. For every handle [h], column handle [col] and
    candidates: with no candidate [DERIVA_col_in] returns [h] itself and builds
    nothing; with candidates [v, vs...] it returns [h.filter(f)], [f] being the
    OR of the equalities [col == x] in the order of the list, a handle on the
    query of [h] with [f] filtered in.  [f] is true on a row exactly when one
    of the comparisons [col == x] is, and the filter goes into the WHERE
    clause and leaves the GROUP BY as it is, so it is applied before any
    grouping: when [f] can be prepared over the tables the query of [h]
    selects from ([col] is a column of one of them, and every candidate is a
    value the driver can bind), the rows the result selects from are those
    [h] selects from on which [col] equals at least one candidate.  When
    moreover the query of [h] has no GROUP BY and [col] is a column of its
    subject, the result set is the rows of [h] on which the column equals at
    least one candidate. *)
Theorem DERIVA_col_in_spec `{Runtime} (h : handle) (col : DerivaCompatPrimitive)
    (v : value) (vs : list value) (w : world) :
  DERIVA_col_in h col [] w = (Ok h, w)
  /\ DERIVA_col_in h col (map PValue (v :: vs)) w
     = handle_filter h (PPrimitive {| p_value := or_of_equalities (p_value col) v vs |}) w
  /\ (exists q,
        fst (DERIVA_col_in h col (map PValue (v :: vs)) w) = Ok (HQuery q)
        /\ statement_of (HQuery q) =
             (let? stmt := statement_of h in
              Ok (sa.filter stmt (or_of_equalities (p_value col) v vs))))
  /\ (forall r,
        sqlite.is_true (sqlite.eval r (or_of_equalities (p_value col) v vs)) =
        existsb (equals_candidate (p_value col) r) (v :: vs))
  /\ (forall stmt f,
        sa.qs_group_by (sa.filter stmt f) = sa.qs_group_by stmt
        /\ sa.qs_joins (sa.filter stmt f) = sa.qs_joins stmt
        /\ sa.qs_entity (sa.filter stmt f) = sa.qs_entity stmt
        /\ sa.qs_criterion (sa.filter stmt f)
           = Some match sa.qs_criterion stmt with
                  | None => f
                  | Some c => sa.EAnd c f
                  end)
  /\ (forall db stmt sc rows,
        sqlite.prepare_statement db stmt = Ok (sc, rows) ->
        sqlite.prepare sc (or_of_equalities (p_value col) v vs) = Ok tt ->
        exists selected,
          sqlite.matching db (sa.filter stmt (or_of_equalities (p_value col) v vs))
          = Ok selected
          /\ selected ≡ₚ
             List.filter (fun r => existsb (equals_candidate (p_value col) r) (v :: vs))
                         (sqlite.where_clause (sa.qs_criterion stmt) rows))
  /\ (forall db stmt c rows rows',
        p_value col = sa.EColumn (sa.qs_entity stmt) c ->
        sa.qs_group_by stmt = [] ->
        In c (sa.tbl_columns (sa.qs_entity stmt)) ->
        sqlite.run db stmt = Ok rows ->
        sqlite.run db (sa.filter stmt (or_of_equalities (p_value col) v vs)) = Ok rows' ->
        rows' ≡ₚ rows_with_candidate (sa.qs_entity stmt) c (v :: vs) rows).
Proof.
  assert (Hloop : DERIVA_col_in h col (map PValue (v :: vs)) w
     = handle_filter h (PPrimitive {| p_value := or_of_equalities (p_value col) v vs |}) w).
  { unfold DERIVA_col_in, bind, lift. by rewrite col_in_loop. }
  split; [reflexivity|]. split; [exact Hloop|]. split.
  { rewrite Hloop.
    apply (handle_filter_statement h {| p_value := or_of_equalities (p_value col) v vs |} w). }
  split; [intros r; apply is_true_or_of_equalities|].
  split; [intros stmt f; repeat split|]. split.
  - intros db stmt sc rows Hp Hf.
    rewrite (matching_filter db stmt _ sc rows Hp Hf). eexists. split; [reflexivity|].
    erewrite filter_ext; [reflexivity|].
    intros r. apply is_true_or_of_equalities.
  - intros db stmt c rows rows' Hcol Hg Hc Hrun Hrun'. rewrite Hcol in Hrun'.
    by rewrite (run_filter_ungrouped db stmt c v vs rows rows' Hg Hc Hrun Hrun').
Qed.

(** A candidate given as text on a column of numbers: the store reads the
    numeral as a number, and the row is found. *)
Example DERIVA_col_in_numeral :
  exists h w,
    DERIVA_col_in (HTable item) (DerivaCompatColumn item "id") [PValue (VStr "2")] demo_world
    = (Ok h, w)
    /\ rows_of (H := demo_runtime) demo_db h
       = Ok [ [("id", VInt 2); ("grp", VInt 7); ("tag", VInt 1)] ].
Proof. eexists _, _. split; [reflexivity|]. vm_compute. reflexivity. Qed.

(** A candidate beyond 64 bits cannot be bound: the query fails when it runs. *)
Example DERIVA_col_in_overflow :
  exists h w,
    DERIVA_col_in (HTable item) (DerivaCompatColumn item "id") [PValue (VInt (2 ^ 70))]
      demo_world = (Ok h, w)
    /\ rows_of (H := demo_runtime) demo_db h
       = Raise (Foreign "OverflowError"
                  "Python int too large to convert to SQLite INTEGER" None).
Proof. eexists _, _. split; [reflexivity|]. vm_compute. reflexivity. Qed.

(** A column of a table the query does not select from: [item] is brought
    into the FROM clause, and [category] gives each of its rows twice. *)
Example DERIVA_col_in_other_table :
  exists h w rows,
    DERIVA_col_in (HTable category) (DerivaCompatColumn item "grp") [PValue (VInt 7)]
      demo_world = (Ok h, w)
    /\ rows_of (H := demo_runtime) demo_db h = Ok rows
    /\ length rows = 4%nat.
Proof.
  eexists _, _, _. split; [reflexivity|]. split; [vm_compute; reflexivity|]. reflexivity.
Qed.

(** C5 as first stated (the result set is the rows of the query whose column
    equals a candidate) fails on a grouped query: [item] has two rows of
    one group, with [tag] 0 and 1.  Grouped by [grp] the query has one row, the
    one with [tag = 0]; [DERIVA_col_in] of [tag] in [[1]] filters before the
    grouping and gives the row with [tag = 1], which is not among the rows of
    the grouped query.  (The grouped query has one row, yet the candidate
    lists [[0]] and [[1]] both give a row: whichever row of the group the
    store lets stand for it, one of the two lists shows the difference.) *)
Lemma DERIVA_col_in_grouped_counterexample :
  exists q h0 h1 w1 w2 w3,
    apply_op (HQuery item_query) by_group item_world = (Ok q, w1)
    /\ DERIVA_col_in (HQuery q) (DerivaCompatColumn item "tag") [PValue (VInt 0)] w1
       = (Ok h0, w2)
    /\ DERIVA_col_in (HQuery q) (DerivaCompatColumn item "tag") [PValue (VInt 1)] w1
       = (Ok h1, w3)
    /\ rows_of (H := demo_runtime) demo_db (HQuery q)
       = Ok [ [("id", VInt 1); ("grp", VInt 7); ("tag", VInt 0)] ]
    /\ rows_of (H := demo_runtime) demo_db h0
       = Ok [ [("id", VInt 1); ("grp", VInt 7); ("tag", VInt 0)] ]
    /\ rows_of (H := demo_runtime) demo_db h1
       = Ok [ [("id", VInt 2); ("grp", VInt 7); ("tag", VInt 1)] ]
    /\ rows_of (H := demo_runtime) demo_db h1
       <> (let? rows := rows_of (H := demo_runtime) demo_db (HQuery q) in
           Ok (rows_with_candidate (H := demo_runtime) (t_table item) "tag" [VInt 1] rows)).
Proof.
  eexists _, _, _, _, _, _.
  split; [reflexivity|]. split; [reflexivity|]. split; [reflexivity|].
  split; [vm_compute; reflexivity|]. split; [vm_compute; reflexivity|].
  split; [vm_compute; reflexivity|].
  vm_compute. discriminate.
Qed.

(** ** C8: [format_patch] *)

Lemma patch_and_commit rc r k v s :
  l_resources s !! rc = Some r ->
  (let* _ := set_descriptor rc k v in let* _ := commit rc in ret rc) s
  = (Ok rc, with_resource s rc (patched r k v)).
Proof.
  intros Hr. unfold set_descriptor, commit, bind, deref, store, ret. rewrite Hr.
  cbn [l_resources]. rewrite lookup_insert_eq.
  cbn [rc_name rc_descriptor rc_committed rc_read l_db l_stdout].
  unfold with_resource, patched. cbn [l_resources]. by rewrite insert_insert_eq.
Qed.

(** Writing an entry of the descriptor, then going on. *)
Lemma set_descriptor_then {A} rc r k v (c : M loader_state A) s :
  l_resources s !! rc = Some r ->
  (let* _ := set_descriptor rc k v in c) s = c (with_resource s rc (edited r k v)).
Proof.
  intros Hr. unfold set_descriptor, bind, deref, store. rewrite Hr. reflexivity.
Qed.

(** The three cases of [format_patch], whatever [commit] does. *)
Lemma format_patch_with_cases commit rc r p s :
  l_resources s !! rc = Some r ->
  rc_descriptor r !! "path" = Some (VStr p) ->
  format_patch_with commit rc s =
  if endswith p ".tsv" && bool_decide (rc_descriptor r !! "dialect" = None)
  then (let* _ := commit rc in ret rc) (with_resource s rc (edited r "dialect" tsv_dialect))
  else if bool_decide (rc_descriptor r !! "format" = None)
       then (let* _ := commit rc in ret rc) (with_resource s rc (edited r "format" VNone))
       else (Ok rc, s).
Proof.
  intros Hr Hp.
  unfold format_patch_with. unfold bind at 1. unfold deref. rewrite Hr.
  unfold bind at 1. unfold lift, path_endswith_tsv. rewrite Hp.
  destruct (endswith p ".tsv" && bool_decide (rc_descriptor r !! "dialect" = None)).
  - by apply set_descriptor_then.
  - destruct (bool_decide (rc_descriptor r !! "format" = None)).
    + by apply set_descriptor_then.
    + reflexivity.
Qed.

(** C8, as the code has it.  On a resource whose descriptor has a string
    [path], and whatever the library's [commit()] does: if the path ends in
    [.tsv] and the descriptor has no [dialect], the canonical TSV dialect (tab
    delimiter, no double quote, newline terminator, initial spaces skipped,
    header row) is written under [dialect] and the resource is committed;
    otherwise, if the descriptor has no [format], [None] is written under
    [format] and the resource is committed; otherwise nothing is done.  The
    resource given is the one returned, in the third case and whenever
    [commit()] returns; nothing but that one entry of the descriptor is
    written before [commit()] is called. *)
Theorem format_patch_spec (commit : nat -> M loader_state unit) (rc : nat) (r : Resource)
    (p : string) (s : loader_state) :
  l_resources s !! rc = Some r ->
  rc_descriptor r !! "path" = Some (VStr p) ->
  (endswith p ".tsv" = true -> rc_descriptor r !! "dialect" = None ->
     format_patch_with commit rc s
     = (let* _ := commit rc in ret rc) (with_resource s rc (edited r "dialect" tsv_dialect)))
  /\ ((endswith p ".tsv" = false \/ is_Some (rc_descriptor r !! "dialect")) ->
        rc_descriptor r !! "format" = None ->
        format_patch_with commit rc s
        = (let* _ := commit rc in ret rc) (with_resource s rc (edited r "format" VNone)))
  /\ ((endswith p ".tsv" = false \/ is_Some (rc_descriptor r !! "dialect")) ->
        is_Some (rc_descriptor r !! "format") ->
        format_patch_with commit rc s = (Ok rc, s))
  /\ (forall rc', fst (format_patch_with commit rc s) = Ok rc' -> rc' = rc)
  /\ (forall s',
        (let* _ := commit rc in ret rc) s'
        = match commit rc s' with
          | (Ok _, s'') => (Ok rc, s'')
          | (Raise e, s'') => (Raise e, s'')
          end)
  /\ tsv_dialect = VDict [ ("delimiter", VStr tab);
                           ("doubleQuote", VBool false);
                           ("lineTerminator", VStr newline);
                           ("skipInitialSpace", VBool true);
                           ("header", VBool true) ].
Proof.
  intros Hr Hp.
  pose proof (format_patch_with_cases commit rc r p s Hr Hp) as Hstep.
  assert (Hret : forall s',
            (let* _ := commit rc in ret rc) s'
            = match commit rc s' with
              | (Ok _, s'') => (Ok rc, s'')
              | (Raise e, s'') => (Raise e, s'')
              end).
  { intros s'. unfold bind, ret. by destruct (commit rc s') as [[[]|e] s'']. }
  split; [|split; [|split; [|split; [|split]]]].
  - intros Ht Hd. rewrite Hstep, Ht, (bool_decide_eq_true_2 _ Hd). reflexivity.
  - intros Hno Hf. rewrite Hstep, (bool_decide_eq_true_2 _ Hf).
    destruct Hno as [->|[d Hd]]; [reflexivity|].
    rewrite (bool_decide_eq_false_2 (rc_descriptor r !! "dialect" = None))
      by (rewrite Hd; discriminate).
    by rewrite andb_false_r.
  - intros Hno [f Hf]. rewrite Hstep.
    rewrite (bool_decide_eq_false_2 (rc_descriptor r !! "format" = None))
      by (rewrite Hf; discriminate).
    destruct Hno as [->|[d Hd]]; [reflexivity|].
    rewrite (bool_decide_eq_false_2 (rc_descriptor r !! "dialect" = None))
      by (rewrite Hd; discriminate).
    by rewrite andb_false_r.
  - intros rc'. rewrite Hstep.
    repeat case_match; rewrite ?Hret; repeat case_match; cbn [fst]; congruence.
  - exact Hret.
  - reflexivity.
Qed.

Lemma format_patch_spec_witness :
  l_resources (demo_loader (Ok [])) !! 0%nat = Some (item_resource (Ok []))
  /\ rc_descriptor (item_resource (Ok [])) !! "path" = Some (VStr "item.tsv")
  /\ endswith "item.tsv" ".tsv" = true
  /\ rc_descriptor (item_resource (Ok [])) !! "dialect" = None
  /\ format_patch_with commit 0 (demo_loader (Ok []))
     = (let* _ := commit 0 in ret 0%nat)
         (with_resource (demo_loader (Ok [])) 0
            (edited (item_resource (Ok [])) "dialect" tsv_dialect)).
Proof.
  assert (Hr : l_resources (demo_loader (Ok [])) !! 0%nat = Some (item_resource (Ok [])))
    by (vm_compute; reflexivity).
  assert (Hp : rc_descriptor (item_resource (Ok [])) !! "path" = Some (VStr "item.tsv"))
    by (vm_compute; reflexivity).
  assert (Ht : endswith "item.tsv" ".tsv" = true) by reflexivity.
  assert (Hd : rc_descriptor (item_resource (Ok [])) !! "dialect" = None)
    by (vm_compute; reflexivity).
  split; [exact Hr|]. split; [exact Hp|]. split; [exact Ht|]. split; [exact Hd|].
  exact (proj1 (format_patch_spec commit 0 (item_resource (Ok [])) "item.tsv"
                  (demo_loader (Ok [])) Hr Hp) Ht Hd).
Defined.

(** C8 as first stated (in every case the same resource is returned) fails
    on a resource that has no string [path]: with inline data the descriptor
    has no [path] and the lookup raises [KeyError]; with a resource in
    several parts [path] is a list, which has no [endswith].  Nothing is
    written and no resource is returned. *)
Lemma format_patch_spec_counterexample :
  l_resources inline_loader !! 0%nat = Some inline_resource
  /\ rc_descriptor inline_resource !! "path" = None
  /\ format_patch 0 inline_loader = (Raise (KeyError "path"), inline_loader)
  /\ fst (format_patch 0 inline_loader) <> Ok 0%nat
  /\ format_patch 1 inline_loader = (Raise (AttributeError "endswith"), inline_loader)
  /\ fst (format_patch 1 inline_loader) <> Ok 1%nat.
Proof.
  split; [vm_compute; reflexivity|]. split; [vm_compute; reflexivity|].
  assert (H0 : format_patch 0 inline_loader = (Raise (KeyError "path"), inline_loader))
    by (vm_compute; reflexivity).
  assert (H1 : format_patch 1 inline_loader
               = (Raise (AttributeError "endswith"), inline_loader))
    by (vm_compute; reflexivity).
  split; [exact H0|]. split; [rewrite H0; discriminate|].
  split; [exact H1|]. rewrite H1. discriminate.
Qed.

(** A descriptor without [path] (a resource with inline data) is outside
    what [format_patch] handles: the lookup raises and nothing is changed. *)
Lemma format_patch_without_path rc r s :
  l_resources s !! rc = Some r ->
  rc_descriptor r !! "path" = None ->
  format_patch rc s = (Raise (KeyError "path"), s).
Proof.
  intros Hr Hp. unfold format_patch, format_patch_with, bind, deref, lift, path_endswith_tsv.
  by rewrite Hr, Hp.
Qed.

(** The [.tsv] resource of the catalog gets the dialect, and it is in force
    when the resource is read. *)
Example format_patch_item :
  exists s, format_patch 0 (demo_loader (Ok [])) = (Ok 0%nat, s)
    /\ exists r, l_resources s !! 0%nat = Some r
         /\ rc_committed r !! "dialect" = Some tsv_dialect
         /\ rc_committed r !! "format" = None.
Proof.
  eexists. split; [reflexivity|]. eexists. split; [vm_compute; reflexivity|].
  split; vm_compute; reflexivity.
Qed.

(** ** The loader: a failing read *)

Lemma foldM_raise {S A B} (f : B -> A -> M S B) done x rest b s b1 s1 e s2 :
  foldM f done b s = (Ok b1, s1) ->
  f b1 x s1 = (Raise e, s2) ->
  foldM f (done ++ x :: rest) b s = (Raise e, s2).
Proof.
  revert b s. induction done as [|y done IH]; intros b s Hdone Hx.
  - cbn [foldM ret] in Hdone. injection Hdone as -> ->.
    cbn [app foldM]. unfold bind. by rewrite Hx.
  - cbn [app foldM] in *. unfold bind in *.
    destruct (f b y s) as [[b'|e'] s']; [|discriminate]. by apply IH.
Qed.

(** Reading leaves the state as it is. *)
Lemma read_all_state rcs s : snd (read_all rcs s) = s.
Proof.
  induction rcs as [|rc rcs IH]; [reflexivity|].
  cbn [read_all]. unfold read, bind, deref, lift.
  destruct (l_resources s !! rc) as [r|]; [|reflexivity].
  destruct (rc_read r (rc_committed r)) as [records|e]; [|reflexivity].
  destruct (read_all rcs s) as [[more|e] s'] eqn:Hrest; cbn [snd] in IH; by subst s'.
Qed.

(** When a read fails with [e], the handler prints the name of the table,
    then reads [e.errors]: if [e] has the attribute it is printed and [e] is
    raised again; if not, the handler itself fails with [AttributeError]. *)
Lemma load_resource_read_failure `{Runtime} name entry s e :
  fst (read_all (e_rcs entry) s) = Raise e ->
  load_resource name entry s =
  match getattr_errors e with
  | Ok errors =>
      (Raise e,
       printed s ["datapackage exception while reading from table: '" +:+ name +:+ "'";
                  repr_list errors])
  | Raise a =>
      (Raise a,
       printed s ["datapackage exception while reading from table: '" +:+ name +:+ "'"])
  end.
Proof.
  intros Hread. unfold load_resource, bind at 1, read_or_report.
  pose proof (read_all_state (e_rcs entry) s) as Hs.
  destruct (read_all (e_rcs entry) s) as [[raw|e'] s']; cbn [fst snd] in *; [discriminate|].
  injection Hread as ->. subst s'.
  unfold bind, print, lift, raise. cbn [l_db l_resources l_stdout].
  destruct (getattr_errors e) as [errors|a]; unfold printed; cbn [l_db l_resources l_stdout].
  - by rewrite <- app_assoc.
  - reflexivity.
Qed.

(** The part of C4 that holds: when reading a row fails with an exception
    that carries [errors], the load stops there; the exception itself reaches
    the caller, its detail having been printed; the store is as the earlier
    resources left it, with no table made for the failing resource; and
    nothing is tried again. *)
Lemma row_read_failure_propagates `{Runtime} done name entry rest s s1 e errors :
  foldM (fun _ x => load_resource (fst x) (snd x)) done tt s = (Ok tt, s1) ->
  fst (read_all (e_rcs entry) s1) = Raise e ->
  getattr_errors e = Ok errors ->
  foldM (fun _ x => load_resource (fst x) (snd x)) (done ++ (name, entry) :: rest) tt s =
  (Raise e,
   printed s1 ["datapackage exception while reading from table: '" +:+ name +:+ "'";
               repr_list errors]).
Proof.
  intros Hdone Hread Herr. eapply foldM_raise; [exact Hdone|].
  cbn [fst snd]. rewrite (load_resource_read_failure name entry s1 e Hread).
  by rewrite Herr.
Qed.

(** With the failing read of [item] raising an exception that carries
    [errors]: the exception reaches the caller and [category] stays loaded. *)
Example cast_error_propagates :
  fst (DerivaCompatPkg_init (H := demo_runtime) [[0; 1]%nat] false (failing_loader cast_error))
  = Raise cast_error
  /\ map fst (map_to_list
        (l_db (snd (DerivaCompatPkg_init (H := demo_runtime) [[0; 1]%nat] false
                      (failing_loader cast_error)))))
     = ["category"]
  /\ l_stdout (snd (DerivaCompatPkg_init (H := demo_runtime) [[0; 1]%nat] false
                      (failing_loader cast_error)))
     = ["datapackage exception while reading from table: 'item'"; "['row 3']"].
Proof. repeat split; vm_compute; reflexivity. Qed.

(** ** C4: a read error without [errors] does not reach the caller *)

(** C4, at the failing input. Reading a row of [item] fails with an
    exception that has no attribute [errors] (an encoding error of the reader
    underneath).  The load stops, no table is made for [item], the table of
    [category] loaded before stays, nothing is tried again; but what reaches
    the caller is the [AttributeError] of the handler's [print(e.errors)],
    not the read error. *)
Theorem read_error_without_errors_is_masked :
  fst (DerivaCompatPkg_init (H := demo_runtime) [[0; 1]%nat] false
         (failing_loader encoding_error))
  = Raise (AttributeError "errors")
  /\ fst (DerivaCompatPkg_init (H := demo_runtime) [[0; 1]%nat] false
            (failing_loader encoding_error))
     <> Raise encoding_error
  /\ map fst (map_to_list
        (l_db (snd (DerivaCompatPkg_init (H := demo_runtime) [[0; 1]%nat] false
                      (failing_loader encoding_error)))))
     = ["category"]
  /\ l_stdout (snd (DerivaCompatPkg_init (H := demo_runtime) [[0; 1]%nat] false
                      (failing_loader encoding_error)))
     = ["datapackage exception while reading from table: 'item'"].
Proof.
  split; [vm_compute; reflexivity|]. split; [vm_compute; discriminate|].
  split; vm_compute; reflexivity.
Qed.

(** ** The loader: a resource without rows *)

Lemma mem_In x l : In x l -> pd.mem x l = true.
Proof.
  intros Hin. unfold pd.mem. apply existsb_exists. exists x. split; [exact Hin|].
  apply String.eqb_refl.
Qed.

(** On a frame without records, the conversion of a column changes nothing. *)
Lemma convert_empty names c f :
  pd.mem c names = true -> pd.convert (pd.empty names) c f = Ok (pd.empty names).
Proof. intros Hc. unfold pd.convert. cbn [pd.empty pd.df_columns]. by rewrite Hc. Qed.

Lemma coerce_field_empty `{Runtime} names field t n :
  getitem field "type" = Ok (VStr t) ->
  getitem field "name" = Ok (VStr n) ->
  pd.mem n names = true ->
  coerce_field (pd.empty names) field = Ok (pd.empty names).
Proof.
  intros Ht Hn Hmem. unfold coerce_field. rewrite Ht. cbn [rbind].
  repeat case_match; try reflexivity;
    rewrite Hn; cbn [rbind as_str]; by apply convert_empty.
Qed.

Lemma coerce_fields_empty `{Runtime} names fields :
  (forall field, In field fields ->
     exists t n, getitem field "type" = Ok (VStr t)
                 /\ getitem field "name" = Ok (VStr n)
                 /\ pd.mem n names = true) ->
  fold_left (fun acc field => let? d := acc in coerce_field d field) fields
            (Ok (pd.empty names)) = Ok (pd.empty names).
Proof.
  induction fields as [|field fields IH]; intros Hall; [reflexivity|].
  cbn [fold_left rbind].
  destruct (Hall field (or_introl eq_refl)) as (t & n & Ht & Hn & Hmem).
  rewrite (coerce_field_empty names field t n Ht Hn Hmem).
  apply IH. intros f Hf. apply Hall. by right.
Qed.


Lemma field_names_inv schema names :
  field_names schema = Ok names ->
  exists fields,
    getitem schema "fields" = Ok (VList fields)
    /\ forall field, In field fields ->
         exists n, getitem field "name" = Ok (VStr n) /\ In n names.
Proof.
  unfold field_names. intros Hn.
  destruct (getitem schema "fields") as [fs|]; [|discriminate]. cbn [rbind] in Hn.
  destruct fs as [| | | | |fields|]; try discriminate. cbn [as_list rbind] in Hn.
  exists fields. split; [reflexivity|]. intros field Hin.
  destruct (rmap_In _ _ _ _ Hn Hin) as (n & Hf & Hinn).
  exists n. split; [|exact Hinn].
  destruct (getitem field "name") as [v|]; [|discriminate]. cbn [rbind] in Hf.
  destruct v; try discriminate. cbn [as_str] in Hf. by injection Hf as ->.
Qed.

(** What the loader does for a resource without rows: the table is made,
    with no row, no primary key set and no [idx_] index; but [to_sql] is
    still called with [index=True], so the table has the surrogate index column
    before the declared ones, and the index pandas puts on it. *)
Lemma load_resource_empty `{Runtime} name entry s names :
  fst (read_all (e_rcs entry) s) = Ok [] ->
  field_names (e_schema entry) = Ok names ->
  (forall fields field,
     getitem (e_schema entry) "fields" = Ok (VList fields) -> In field fields ->
     exists t, getitem field "type" = Ok (VStr t)) ->
  index_exists ("ix_" +:+ name +:+ "_"
                +:+ (if pd.mem "index" names then "level_0" else "index"))
               (delete name (l_db s)) = false ->
  load_resource name entry s =
  (Ok tt, {| l_db := <[name := empty_table name names]> (l_db s);
             l_resources := l_resources s;
             l_stdout := l_stdout s |}).
Proof.
  intros Hread Hnames Htypes Hfree.
  destruct (field_names_inv _ _ Hnames) as (fields & Hfields & Hfn).
  unfold load_resource, bind at 1, read_or_report.
  pose proof (read_all_state (e_rcs entry) s) as Hs.
  destruct (read_all (e_rcs entry) s) as [[raw|e'] s']; cbn [fst snd] in *; [|discriminate].
  injection Hread as ->. subst s'.
  unfold bind, lift. rewrite Hnames, Hfields. cbn [rbind as_list].
  rewrite coerce_fields_empty.
  - unfold write, pd.to_sql, pd.index_labels, empty_table.
    cbn [pd.empty pd.df_index pd.df_columns pd.df_records rbind List.find].
    rewrite Hfree.
    cbn [pd.empty pd.df_index pd.df_columns pd.df_records rbind imap rmap app map].
    reflexivity.
  - intros field Hin.
    destruct (Htypes fields field Hfields Hin) as [t Ht].
    destruct (Hfn field Hin) as (n & Hn & Hinn).
    exists t, n. split; [exact Ht|]. split; [exact Hn|]. by apply mem_In.
Qed.

(** ** C6: the table of a resource without rows has one column more *)

(** C6, at the failing input. The resource [item] declares the columns [id]
    and [name], with primary key [id], and has no row.  After the load the
    table [item] exists and has no row; no primary key was set ([id] is an
    ordinary column) and no [idx_item_id] index was made; but its columns are
    [index], [id], [name], not the declared set, and it has the index
    [ix_item_index] on the surrogate column. *)
Theorem empty_resource_gets_index_column :
  fst (load_resource (H := demo_runtime) "item"
         {| e_schema := item_schema; e_rcs := [0%nat] |} (demo_loader (Ok [])))
  = Ok tt
  /\ l_db (snd (load_resource (H := demo_runtime) "item"
                  {| e_schema := item_schema; e_rcs := [0%nat] |} (demo_loader (Ok []))))
       !! "item"
     = Some {| sqlite.st_columns := ["index"; "id"; "name"];
               sqlite.st_rows := [];
               sqlite.st_indexes := [("ix_item_index", ["index"])] |}
  /\ field_names item_schema = Ok ["id"; "name"].
Proof. repeat split; vm_compute; reflexivity. Qed.

(** The same through the whole of [DerivaCompatPkg.__init__], and its
    sibling: with two rows, the columns are the declared ones. *)
Example empty_item_loaded :
  map_to_list (l_db (snd (DerivaCompatPkg_init (H := demo_runtime) [[0%nat]] false
                            (demo_loader (Ok [])))))
  = [ ("item", {| sqlite.st_columns := ["index"; "id"; "name"];
                  sqlite.st_rows := [];
                  sqlite.st_indexes := [("ix_item_index", ["index"])] |}) ].
Proof. vm_compute. reflexivity. Qed.

Example two_items_loaded :
  map_to_list (l_db (snd (DerivaCompatPkg_init (H := demo_runtime) [[0%nat]] false
                            (demo_loader (Ok [ [("id", VInt 1); ("name", VStr "a")];
                                               [("id", VInt 2); ("name", VStr "b")] ])))))
  = [ ("item", {| sqlite.st_columns := ["id"; "name"];
                  sqlite.st_rows := [ [VFloat (S754_finite false 1 0); VStr "a"];
                                      [VFloat (S754_finite false 2 0); VStr "b"] ];
                  sqlite.st_indexes := [("ix_item_id", ["id"]); ("idx_item_id", ["id"])] |}) ].
Proof. vm_compute. reflexivity. Qed.

(** * Further properties of the facade *)

(** Every call on a handle ends in one [__init__], or raises before it. *)
Lemma apply_op_is_init h o w q' :
  fst (apply_op h o w) = Ok q' ->
  exists pkg subj query path w0,
    apply_op h o w = DerivaCompatQuery_init pkg subj query path w0.
Proof.
  destruct h as [t|q]; destruct o; cbn [apply_op];
    unfold DerivaCompatTable_filter, DerivaCompatTable_link, DerivaCompatTable_as_query,
      DerivaCompatQuery_filter, DerivaCompatQuery_groupby, DerivaCompatQuery_pivot,
      DerivaCompatQuery_link, bind, raise;
    rewrite ?DerivaCompatQuery_init_spec; cbn [fst snd];
    intros Hok;
    repeat (case_match; try discriminate);
    try discriminate;
    first [ by (eexists _, _, _, _, _; reflexivity)
          | by (rewrite <- DerivaCompatQuery_init_spec; eexists _, _, _, _, _; reflexivity) ].
Qed.

(** ** [link]: the join kinds *)

(** X1. [link] knows two join kinds.  With any other string ([right],
    [inner], the empty string, ...) it raises [NotImplementedError] at the
    call and builds nothing; on a table handle too, after the query handle of
    [_as_query] was made, the store being left alone. *)
Theorem link_refuses_other_kinds (q : DerivaCompatQuery) (t0 t : DerivaCompatTable)
    (p : pyobj) (jt : string) (w : world) :
  jt <> "left" -> jt <> "full" ->
  DerivaCompatQuery_link q t p jt w = (Raise NotImplementedError, w)
  /\ fst (DerivaCompatTable_link t0 t p jt w) = Raise NotImplementedError
  /\ w_db (snd (DerivaCompatTable_link t0 t p jt w)) = w_db w
  /\ w_sent (snd (DerivaCompatTable_link t0 t p jt w)) = w_sent w.
Proof.
  intros Hl Hf.
  assert (Hq : forall q0 w0,
             DerivaCompatQuery_link q0 t p jt w0 = (Raise NotImplementedError, w0)).
  { intros q0 w0. unfold DerivaCompatQuery_link.
    destruct (String.eqb jt "left") eqn:E1; [by apply String.eqb_eq in E1|].
    destruct (String.eqb jt "right"); [reflexivity|].
    destruct (String.eqb jt "full") eqn:E3; [by apply String.eqb_eq in E3|].
    reflexivity. }
  split; [apply Hq|].
  unfold DerivaCompatTable_link, DerivaCompatTable_as_query, bind.
  rewrite DerivaCompatQuery_init_spec, Hq. by cbn.
Qed.

Lemma link_refuses_other_kinds_witness :
  "inner" <> "left" /\ "inner" <> "full"
  /\ DerivaCompatQuery_link item_query category PCompat "inner" item_world
     = (Raise NotImplementedError, item_world).
Proof.
  assert (H1 : "inner" <> "left") by discriminate.
  assert (H2 : "inner" <> "full") by discriminate.
  split; [exact H1|]. split; [exact H2|].
  exact (proj1 (link_refuses_other_kinds item_query item category PCompat "inner"
                  item_world H1 H2)).
Defined.

(** ** [pivot]: the subject changes, the chain stays *)

(** X2. [pivot] changes the subject and keeps the accumulated chain: pivoting
    away and back to the subject gives a handle that stands for the same query
    as before; and [pivot] commutes with [filter] and with [groupby] ([filter]
    then [pivot] and [pivot] then [filter] stand for the same query). *)
Theorem pivot_keeps_chain (q : DerivaCompatQuery) (t : DerivaCompatTable)
    (c : pyobj) (cs : list pyobj) (w : world) :
  (exists q1, fst ((let* a := DerivaCompatQuery_pivot q t in
                    DerivaCompatQuery_pivot a (q_subj q)) w) = Ok q1
              /\ q_subj q1 = q_subj q
              /\ DerivaCompatQuery_call q1 = DerivaCompatQuery_call q)
  /\ (exists q2 q3,
        fst ((let* a := DerivaCompatQuery_filter q c in DerivaCompatQuery_pivot a t) w) = Ok q2
        /\ fst ((let* a := DerivaCompatQuery_pivot q t in DerivaCompatQuery_filter a c) w) = Ok q3
        /\ q_subj q2 = t /\ q_subj q3 = t
        /\ DerivaCompatQuery_call q2 = DerivaCompatQuery_call q3)
  /\ (exists q4 q5,
        fst ((let* a := DerivaCompatQuery_groupby q cs in DerivaCompatQuery_pivot a t) w) = Ok q4
        /\ fst ((let* a := DerivaCompatQuery_pivot q t in DerivaCompatQuery_groupby a cs) w) = Ok q5
        /\ q_subj q4 = t /\ q_subj q5 = t
        /\ DerivaCompatQuery_call q4 = DerivaCompatQuery_call q5).
Proof.
  unfold DerivaCompatQuery_pivot, DerivaCompatQuery_filter, DerivaCompatQuery_groupby, bind.
  rewrite !DerivaCompatQuery_init_spec. cbn [fst snd q_pkg q_subj q_query q_path].
  rewrite ?DerivaCompatQuery_init_spec. cbn [fst snd].
  split; [|split].
  - eexists. split; [reflexivity|]. split; reflexivity.
  - eexists _, _. repeat (split; [reflexivity|]). reflexivity.
  - eexists _, _. repeat (split; [reflexivity|]). reflexivity.
Qed.

(** ** [count] and [entities] *)

(** X3. [count()] returns the number of mappings [entities()] yields when
    run to its end, and fails with the same exception when that fails.  Each
    sends one statement, or none when the query cannot even be built, and
    neither writes to the store or to a path mapping. *)
Theorem count_is_number_of_entities `{Runtime} (q : DerivaCompatQuery) (w : world) :
  fst (DerivaCompatQuery_count q w)
  = (let? es := fst (to_list (DerivaCompatQuery_entities q) w) in
     Ok (Z.of_nat (length es)))
  /\ match DerivaCompatQuery_call q with
     | Ok stmt =>
         snd (DerivaCompatQuery_count q w) = send (SelectCount stmt) w
         /\ snd (to_list (DerivaCompatQuery_entities q) w) = send (SelectRows stmt) w
     | Raise e =>
         DerivaCompatQuery_count q w = (Raise e, w)
         /\ to_list (DerivaCompatQuery_entities q) w = (Raise e, w)
     end
  /\ w_db (snd (DerivaCompatQuery_count q w)) = w_db w
  /\ w_db (snd (to_list (DerivaCompatQuery_entities q) w)) = w_db w
  /\ w_paths (snd (DerivaCompatQuery_count q w)) = w_paths w
  /\ w_paths (snd (to_list (DerivaCompatQuery_entities q) w)) = w_paths w.
Proof.
  unfold DerivaCompatQuery_count, to_list, DerivaCompatQuery_entities,
    bind, lift, fetch, fetch_count, ret.
  destruct (DerivaCompatQuery_call q) as [stmt|e]; [|by cbn].
  destruct (sqlite.run (w_db w) stmt) as [rows|e]; cbn; [|by repeat split].
  rewrite length_map. by repeat split.
Qed.

(** X4. Iteration can stop and go on: taking [n] mappings and then [m] more
    from the generator as it was left gives what taking [n + m] at once gives,
    the same mappings in the same order, the same final state of the
    generator, and the query sent once. *)
Theorem take_resumes `{Runtime} (n m : nat) (g : generator) (w : world) :
  take (n + m) g w =
  match take n g w with
  | (Ok xs, g1, w1) =>
      match take m g1 w1 with
      | (Ok ys, g2, w2) => (Ok (xs ++ ys), g2, w2)
      | (Raise e, g2, w2) => (Raise e, g2, w2)
      end
  | (Raise e, g1, w1) => (Raise e, g1, w1)
  end.
Proof.
  revert g w. induction n as [|n IH]; intros g w.
  - cbn [Nat.add take]. by destruct (take m g w) as [[[ys|e] g2] w2].
  - cbn [Nat.add take].
    destruct (next g w) as [[[[x|]|e] g'] w'] eqn:Hnext.
    + rewrite IH.
      destruct (take n g' w') as [[[xs|e] g1] w1]; [|reflexivity].
      by destruct (take m g1 w1) as [[[ys|e] g2] w2].
    + assert (g' = Finished) as ->.
      { unfold next in Hnext. repeat case_match; congruence. }
      by destruct m.
    + reflexivity.
Qed.

(** ** Navigating the path of a handle *)

Lemma plain_table_own t n :
  plain_table t -> In n DerivaCompatTable_reads ->
  DerivaCompatTable_getattr t n = DerivaCompatTable_own t n.
Proof.
  intros Hplain Hn. unfold DerivaCompatTable_getattr.
  destruct (assoc n (column_definitions t)) as [c|] eqn:Hc; [|reflexivity].
  exfalso. apply (Hplain n Hn). clear -Hc. unfold column_definitions in Hc.
  induction (sa.tbl_columns (t_table t)) as [|c0 cols IH]; [discriminate|].
  cbn [map assoc] in Hc. destruct (String.eqb n c0) eqn:Heq.
  - apply String.eqb_eq in Heq. by left.
  - right. by apply IH.
Qed.

Lemma plain_table_check t :
  forallb (fun n => negb (existsb (String.eqb n) (sa.tbl_columns (t_table t))))
          DerivaCompatTable_reads = true ->
  plain_table t.
Proof.
  intros Hall n Hn Hc. rewrite forallb_forall in Hall. specialize (Hall n Hn).
  apply negb_true_iff in Hall.
  assert (existsb (String.eqb n) (sa.tbl_columns (t_table t)) = true); [|congruence].
  apply existsb_exists. exists n. split; [exact Hc|apply String.eqb_refl].
Qed.

Lemma plain_query_check w q :
  forallb (fun n => bool_decide (path_of w q !! n = None)) DerivaCompatQuery_reads = true ->
  plain_query w q.
Proof.
  intros Hall n Hn. rewrite forallb_forall in Hall.
  specialize (Hall n Hn). by apply bool_decide_eq_true_1 in Hall.
Qed.

(** X5. Take a query handle [q] with no table on its path that hides an
    attribute or method its methods read, and a call that derives a handle
    from it, on a subject no column of which hides what is read on it.  An
    attribute of the new handle is: under the name of its subject, the table
    handle kept for the subject; under any other name of a table that [q]
    reaches, the table handle [q] has there; and under every other name an
    attribute or method of the new handle itself (its [path] is the new
    handle, not [q]).  So a new subject whose name is that of a method,
    [count] say, hides the method on the new handle.  The attributes of [q]
    are as they were. *)
Theorem navigation_after_derivation (q : DerivaCompatQuery) (o : op) (w : world)
    (q' : DerivaCompatQuery) (name : string) :
  q_path q ∈ dom (w_paths w) ->
  plain_query w q ->
  fst (apply_op (HQuery q) o w) = Ok q' ->
  plain_table (q_subj q') ->
  DerivaCompatQuery_getattr q' name (snd (apply_op (HQuery q) o w))
  = (if String.eqb name (sa.tbl_name (DerivaCompatTable_call (q_subj q')))
     then Ok (ATable (DerivaCompatTable_with_qs (q_subj q') (q_query q')))
     else match path_of w q !! name with
          | Some t => Ok (ATable t)
          | None => DerivaCompatQuery_own q' name
          end,
     snd (apply_op (HQuery q) o w))
  /\ DerivaCompatQuery_getattr q name (snd (apply_op (HQuery q) o w))
     = (fst (DerivaCompatQuery_getattr q name w), snd (apply_op (HQuery q) o w))
  /\ (forall n, In n DerivaCompatQuery_reads ->
        DerivaCompatQuery_getattr q n w = (DerivaCompatQuery_own q n, w))
  /\ (forall n, In n DerivaCompatTable_reads ->
        DerivaCompatTable_getattr (q_subj q') n = DerivaCompatTable_own (q_subj q') n)
  /\ (path_of w q !! "path" = None ->
      sa.tbl_name (DerivaCompatTable_call (q_subj q')) <> "path" ->
      fst (DerivaCompatQuery_getattr q' "path" (snd (apply_op (HQuery q) o w)))
      = Ok (AQuery q')).
Proof.
  intros Hq Hplain Hq' Hsubj.
  assert (Hinit : exists subj query,
             apply_op (HQuery q) o w =
             DerivaCompatQuery_init (q_pkg q) subj query (PathAt (q_path q)) w).
  { destruct o; cbn [apply_op] in *.
    - eexists _, _. reflexivity.
    - unfold DerivaCompatQuery_link in *.
      repeat (case_match; try (eexists _, _; reflexivity); try discriminate).
    - eexists _, _. reflexivity.
    - eexists _, _. reflexivity. }
  destruct Hinit as (subj & query & Hinit).
  rewrite Hinit in *. rewrite DerivaCompatQuery_init_spec in *.
  cbn [fst snd] in *. injection Hq' as <-.
  assert (Hne : fresh (dom (w_paths w)) <> q_path q).
  { intros Heq. apply (is_fresh (dom (w_paths w))). by rewrite Heq. }
  assert (Hget : forall name,
    DerivaCompatQuery_getattr
      {| q_pkg := q_pkg q; q_subj := subj; q_query := query;
         q_path := fresh (dom (w_paths w)) |} name
      {| w_db := w_db w; w_sent := w_sent w; w_default_path := w_default_path w;
         w_paths := <[fresh (dom (w_paths w)) :=
                        <[sa.tbl_name (DerivaCompatTable_call subj) :=
                            DerivaCompatTable_with_qs subj query]>
                          (read_path w (PathAt (q_path q)))]> (w_paths w) |}
    = (if String.eqb name (sa.tbl_name (DerivaCompatTable_call subj))
       then Ok (ATable (DerivaCompatTable_with_qs subj query))
       else match path_of w q !! name with
            | Some t => Ok (ATable t)
            | None => DerivaCompatQuery_own
                        {| q_pkg := q_pkg q; q_subj := subj; q_query := query;
                           q_path := fresh (dom (w_paths w)) |} name
            end,
       {| w_db := w_db w; w_sent := w_sent w; w_default_path := w_default_path w;
          w_paths := <[fresh (dom (w_paths w)) :=
                         <[sa.tbl_name (DerivaCompatTable_call subj) :=
                             DerivaCompatTable_with_qs subj query]>
                           (read_path w (PathAt (q_path q)))]> (w_paths w) |})).
  { intros n. unfold DerivaCompatQuery_getattr, path_of.
    cbn [w_paths q_path q_subj q_query read_path].
    rewrite lookup_insert_eq. change (default ∅ (Some ?m)) with m.
    destruct (String.eqb n (sa.tbl_name (DerivaCompatTable_call subj))) eqn:Hn.
    - apply String.eqb_eq in Hn. subst n. by rewrite lookup_insert_eq.
    - apply String.eqb_neq in Hn. rewrite lookup_insert_ne by congruence.
      by destruct (default ∅ (w_paths w !! q_path q) !! n). }
  cbn [q_subj q_query] in *.
  split; [apply Hget|]. split; [|split; [|split]].
  - unfold DerivaCompatQuery_getattr, path_of. cbn [w_paths q_path].
    rewrite (lookup_insert_ne _ _ _ _ Hne).
    by destruct (default ∅ (w_paths w !! q_path q) !! name).
  - intros n Hn. unfold DerivaCompatQuery_getattr. by rewrite (Hplain n Hn).
  - intros n Hn. by apply plain_table_own.
  - intros Hp Hname. rewrite Hget. cbn [fst].
    rewrite (proj2 (String.eqb_neq _ _)) by congruence. by rewrite Hp.
Qed.

Lemma navigation_after_derivation_witness :
  q_path item_query ∈ dom (w_paths item_world)
  /\ plain_query item_world item_query
  /\ plain_table category
  /\ (exists q', fst (apply_op (HQuery item_query) (OpPivot category) item_world) = Ok q'
        /\ DerivaCompatQuery_getattr q' "item"
             (snd (apply_op (HQuery item_query) (OpPivot category) item_world))
           = (Ok (ATable (DerivaCompatTable_with_qs item (fun qs => t_qs item qs))),
              snd (apply_op (HQuery item_query) (OpPivot category) item_world))).
Proof.
  assert (Hq : q_path item_query ∈ dom (w_paths item_world)).
  { apply elem_of_dom. eexists. vm_compute. reflexivity. }
  assert (Hplain : plain_query item_world item_query).
  { apply plain_query_check. vm_compute. reflexivity. }
  assert (Hsubj : plain_table category).
  { apply plain_table_check. vm_compute. reflexivity. }
  split; [exact Hq|]. split; [exact Hplain|]. split; [exact Hsubj|].
  eexists. split; [reflexivity|].
  exact (proj1 (navigation_after_derivation item_query (OpPivot category) item_world _
                  "item" Hq Hplain eq_refl Hsubj)).
Defined.

(** X6. The table handle a new query handle keeps for its subject runs the
    subject's own closure and then the accumulated query.  For a table of the
    package (whose closure changes nothing) that handle stands for the same
    query as the query handle: navigating back to the subject loses nothing.
    For a subject that carries a closure of its own, the closure runs twice,
    since the accumulated query of [_as_query] already holds it. *)
Theorem subject_on_path (h : handle) (o : op) (w : world) (q' : DerivaCompatQuery) :
  fst (apply_op h o w) = Ok q' ->
  exists e,
    DerivaCompatQuery_getattr q' (sa.tbl_name (DerivaCompatTable_call (q_subj q')))
      (snd (apply_op h o w))
    = (Ok (ATable e), snd (apply_op h o w))
    /\ statement_of (HTable e)
       = (let? qs := t_qs (q_subj q') (sa.query (DerivaCompatTable_call (q_subj q'))) in
          q_query q' qs)
    /\ (root (q_subj q') -> statement_of (HTable e) = statement_of (HQuery q'))
    /\ (forall t c, h = HTable t -> o = OpFilter c ->
          statement_of (HTable e)
          = (let? a := t_qs t (sa.query (DerivaCompatTable_call t)) in
             let? b := t_qs t a in
             let? c' := call c in
             Ok (sa.filter b c'))).
Proof.
  intros Hq'.
  destruct (apply_op_is_init h o w q' Hq') as (pkg & subj & query & path & w0 & Hinit).
  assert (Htf : forall t c, h = HTable t -> o = OpFilter c ->
            q_subj q' = t
            /\ q_query q' = (fun qs => let? qs' := t_qs t qs in
                                       let? c' := call c in Ok (sa.filter qs' c'))).
  { intros t c -> ->. cbn [apply_op] in Hq'.
    unfold DerivaCompatTable_filter, DerivaCompatTable_as_query,
      DerivaCompatQuery_filter, bind in Hq'.
    rewrite !DerivaCompatQuery_init_spec in Hq'. cbn [fst snd q_pkg q_subj q_query q_path] in Hq'.
    rewrite ?DerivaCompatQuery_init_spec in Hq'. cbn [fst] in Hq'.
    injection Hq' as <-. split; reflexivity. }
  rewrite Hinit in *. rewrite DerivaCompatQuery_init_spec in *.
  cbn [fst snd] in *. injection Hq' as <-. cbn [q_subj q_query] in *.
  eexists. split; [|split; [|split]].
  - unfold DerivaCompatQuery_getattr, path_of. cbn [w_paths q_path].
    rewrite lookup_insert_eq. change (default ∅ (Some ?m)) with m.
    rewrite lookup_insert_eq. reflexivity.
  - reflexivity.
  - intros Hroot. cbn [statement_of DerivaCompatTable_with_qs DerivaCompatTable_init
      DerivaCompatTable_call t_qs t_table].
    unfold DerivaCompatQuery_call. cbn [q_query q_subj DerivaCompatTable_call].
    by rewrite Hroot.
  - intros t c Hh Ho. destruct (Htf t c Hh Ho) as [-> ->].
    cbn [statement_of DerivaCompatTable_with_qs DerivaCompatTable_init
      DerivaCompatTable_call t_qs t_table]. reflexivity.
Qed.

Lemma subject_on_path_witness :
  fst (apply_op (HTable item) (OpFilter (PPrimitive item_in_category)) demo_world)
  = Ok {| q_pkg := demo_pkg; q_subj := item;
          q_query := fun qs =>
            let? qs' := t_qs item qs in
            let? c := call (PPrimitive item_in_category) in Ok (sa.filter qs' c);
          q_path := 2%positive |}
  /\ exists e,
       statement_of (HTable e)
       = Ok (sa.filter (sa.query (t_table item)) (p_value item_in_category)).
Proof.
  assert (Hq : fst (apply_op (HTable item) (OpFilter (PPrimitive item_in_category))
                      demo_world)
               = Ok {| q_pkg := demo_pkg; q_subj := item;
                       q_query := fun qs =>
                         let? qs' := t_qs item qs in
                         let? c := call (PPrimitive item_in_category) in
                         Ok (sa.filter qs' c);
                       q_path := 2%positive |}) by reflexivity.
  split; [exact Hq|].
  destruct (subject_on_path (HTable item) (OpFilter (PPrimitive item_in_category))
              demo_world _ Hq) as (e & _ & He & _ & _).
  exists e. exact He.
Defined.

(** ** [alias] *)

Lemma column_value_renamed n n' c cols : forall cells,
  sqlite.column_value n c (zip_with (fun c v => (n, c, v)) cols cells) =
  sqlite.column_value n' c (zip_with (fun c v => (n', c, v)) cols cells).
Proof.
  induction cols as [|c0 cols IH]; intros [|v cells]; try reflexivity.
  cbn [zip_with sqlite.column_value]. rewrite !String.eqb_refl. cbn [andb].
  destruct (String.eqb c0 c); [reflexivity|apply IH].
Qed.

Lemma in_scope_renamed n c cols :
  existsb (fun tc => String.eqb (fst tc) n && String.eqb (snd tc) c) (map (pair n) cols)
  = existsb (fun c' => String.eqb c' c) cols.
Proof.
  induction cols as [|c0 cols IH]; [reflexivity|].
  cbn [map existsb fst snd]. by rewrite String.eqb_refl, IH.
Qed.

Lemma prepare_columns_renamed (t t' : sa.table) cols l us :
  rmap (fun c => sqlite.prepare (map (pair (sa.tbl_name t)) cols) (sa.EColumn t c)) l = Ok us ->
  rmap (fun c => sqlite.prepare (map (pair (sa.tbl_name t')) cols) (sa.EColumn t' c)) l = Ok us.
Proof.
  revert us. induction l as [|c l IH]; intros us; [done|].
  cbn [rmap].
  set (R := rmap (fun c => sqlite.prepare (map (pair (sa.tbl_name t)) cols)
                             (sa.EColumn t c)) l) in *.
  set (R' := rmap (fun c => sqlite.prepare (map (pair (sa.tbl_name t')) cols)
                              (sa.EColumn t' c)) l) in *.
  cbn [sqlite.prepare]. rewrite !in_scope_renamed.
  destruct (existsb (fun c' => String.eqb c' c) cols); [|discriminate].
  cbn [rbind]. destruct R as [us'|]; cbn [rbind]; [|discriminate].
  intros Hus. by rewrite (IH us' eq_refl).
Qed.

Lemma assoc_column_definitions t c :
  assoc c (column_definitions t) =
  if pd.mem c (sa.tbl_columns (t_table t)) then Some (DerivaCompatColumn t c) else None.
Proof.
  unfold column_definitions, pd.mem.
  induction (sa.tbl_columns (t_table t)) as [|c0 cols IH]; [reflexivity|].
  cbn [map assoc existsb]. destruct (String.eqb c c0) eqn:Hc.
  - apply String.eqb_eq in Hc. by subst c0.
  - exact IH.
Qed.

(** X7. Take a table of the package no column of which hides an attribute
    or method that the methods of its handle read.  An alias of it gives,
    queried alone, the rows the table gives.  Under the name of a column, the
    alias has the column of the aliased table and the table its own; under any
    other name each has the attribute or method it has of its own, the alias
    raising [AttributeError] exactly where the table does. *)
Theorem alias_gives_same_rows `{Runtime} (t : DerivaCompatTable) (name : string)
    (db : gmap string sqlite.table) (rows : list (list (string * value))) :
  root t ->
  plain_table t ->
  rows_of db (HTable t) = Ok rows ->
  rows_of db (HTable (DerivaCompatTable_alias t name)) = Ok rows
  /\ (forall n, In n DerivaCompatTable_reads ->
        DerivaCompatTable_getattr t n = DerivaCompatTable_own t n
        /\ DerivaCompatTable_getattr (DerivaCompatTable_alias t name) n
           = DerivaCompatTable_own (DerivaCompatTable_alias t name) n)
  /\ (forall c,
        pd.mem c (sa.tbl_columns (t_table t)) = true ->
        DerivaCompatTable_getattr (DerivaCompatTable_alias t name) c
        = Ok (AColumn {| p_value := sa.EColumn (sa.alias (t_table t) name) c |})
        /\ DerivaCompatTable_getattr t c
           = Ok (AColumn {| p_value := sa.EColumn (t_table t) c |}))
  /\ (forall c,
        pd.mem c (sa.tbl_columns (t_table t)) = false ->
        DerivaCompatTable_getattr (DerivaCompatTable_alias t name) c
        = DerivaCompatTable_own (DerivaCompatTable_alias t name) c
        /\ DerivaCompatTable_getattr t c = DerivaCompatTable_own t c)
  /\ (forall c e,
        DerivaCompatTable_getattr (DerivaCompatTable_alias t name) c = Raise e
        <-> DerivaCompatTable_getattr t c = Raise e).
Proof.
  intros Hroot Hplain Hrows. split; [|split; [|split; [|split]]].
  - unfold rows_of, statement_of in *.
    cbn [DerivaCompatTable_alias DerivaCompatTable_init DerivaCompatTable_call
         t_qs t_table] in *.
    rewrite Hroot in *. cbn [rbind] in *.
    unfold sqlite.run, sqlite.matching, sqlite.prepare_statement, sqlite.from_where,
      sqlite.from_clause, sqlite.open_table in *.
    cbn [sa.query sa.alias sa.qs_joins sa.qs_entity sa.qs_criterion sa.qs_group_by
         sa.tbl_source sa.tbl_name sa.tbl_columns fold_left sqlite.where_tables] in *.
    unfold DerivaCompatTable_call in *.
    destruct (db !! sa.tbl_source (t_table t)) as [st|];
      cbn [rbind sqlite.prepare_criterion rmap] in *; [|discriminate].
    destruct (rmap (fun c => sqlite.prepare
                       (map (pair (sa.tbl_name (t_table t))) (sqlite.st_columns st))
                       (sa.EColumn (t_table t) c))
                (sa.tbl_columns (t_table t))) as [us|] eqn:Hp;
      cbn [rbind] in *; [|discriminate].
    pose proof (prepare_columns_renamed (t_table t) (sa.alias (t_table t) name) _ _ _ Hp)
      as Hp'.
    change (sa.tbl_name (sa.alias (t_table t) name)) with name in Hp'. rewrite Hp'.
    cbn [rbind sqlite.where_clause sqlite.group_clause] in *.
    injection Hrows as <-. f_equal. rewrite !map_map. apply map_ext. intros cells.
    unfold sqlite.select. cbn [sa.tbl_name sa.tbl_columns].
    apply map_ext. intros c. f_equal. f_equal. apply column_value_renamed.
  - intros n Hn. split; apply plain_table_own; auto.
  - intros c Hc. unfold DerivaCompatTable_getattr. rewrite !assoc_column_definitions.
    cbn [DerivaCompatTable_alias DerivaCompatTable_init t_table sa.alias sa.tbl_columns].
    rewrite Hc. split; reflexivity.
  - intros c Hc. unfold DerivaCompatTable_getattr. rewrite !assoc_column_definitions.
    cbn [DerivaCompatTable_alias DerivaCompatTable_init t_table sa.alias sa.tbl_columns].
    rewrite Hc. split; reflexivity.
  - intros c e. unfold DerivaCompatTable_getattr. rewrite !assoc_column_definitions.
    cbn [DerivaCompatTable_alias DerivaCompatTable_init t_table sa.alias sa.tbl_columns].
    destruct (pd.mem c (sa.tbl_columns (t_table t))); [split; discriminate|].
    unfold DerivaCompatTable_own.
    repeat (destruct (String.eqb c _); [split; discriminate|]).
    reflexivity.
Qed.

Lemma alias_gives_same_rows_witness :
  root item
  /\ plain_table item
  /\ rows_of (H := demo_runtime) demo_db (HTable item) = Ok item_rows
  /\ rows_of (H := demo_runtime) demo_db (HTable (DerivaCompatTable_alias item "i2"))
     = Ok item_rows.
Proof.
  assert (Hroot : root item) by (intros qs; reflexivity).
  assert (Hplain : plain_table item).
  { apply plain_table_check. vm_compute. reflexivity. }
  assert (Hrows : rows_of (H := demo_runtime) demo_db (HTable item) = Ok item_rows)
    by (vm_compute; reflexivity).
  split; [exact Hroot|]. split; [exact Hplain|]. split; [exact Hrows|].
  exact (proj1 (alias_gives_same_rows (H := demo_runtime) item "i2" demo_db item_rows
                  Hroot Hplain Hrows)).
Defined.

(** A column named like a method hides the method, on the table and on its
    alias: on a table with a column [count], [count] is the column handle. *)
Example column_hides_method :
  let t := DerivaCompatTable_init demo_pkg
             {| sa.tbl_source := "visit"; sa.tbl_name := "visit";
                sa.tbl_columns := ["id"; "count"] |} None in
  DerivaCompatTable_getattr t "count" = Ok (AColumn (DerivaCompatColumn t "count"))
  /\ DerivaCompatTable_getattr t "entities" = Ok (AMethod "entities")
  /\ DerivaCompatTable_getattr t "path" = Ok (ATable t)
  /\ DerivaCompatTable_getattr t "nope" = Raise (AttributeError "nope").
Proof. repeat split. Qed.

(** ** Predicates: [==] and [!=] *)

Lemma is_true_ne_literal `{Runtime} r col v :
  sqlite.is_true (sqlite.eval r (sa.ne col (sa.ELiteral v))) =
  match v with
  | VNone => negb (sqlite.is_null (sqlite.eval r col))
  | _ => negb (sqlite.is_null (sqlite.eval r col))
         && negb (sqlite.is_null (sqlite.bound v))
         && negb (compare col (sa.ELiteral v) (sqlite.eval r col) (sqlite.bound v))
  end.
Proof.
  destruct v; cbn [sa.ne sqlite.eval];
    destruct (sqlite.is_null (sqlite.eval r col)); cbn [orb negb andb];
    try reflexivity; try apply is_true_of_bool;
    destruct (sqlite.is_null (sqlite.bound _)); cbn [orb negb andb];
    first [reflexivity | apply is_true_of_bool].
Qed.

(** X8. For a column handle and a plain value, [col == v] and [col != v] are
    both built, and on no row are both true.  With [v = None] they read
    [IS NULL] and [IS NOT NULL], and exactly one is true on every row.  With
    any other [v] exactly one is true on a row where the column is not NULL,
    and neither on a row where it is NULL: [!=] does not select NULLs.  The
    exception is a [v] that is bound as NULL, which NaN is: then neither is
    true on any row. *)
Theorem eq_and_ne_exclusive `{Runtime} (col : DerivaCompatPrimitive) (v : value)
    (r : sqlite.row) :
  exists e n,
    DerivaCompatPrimitive_eq col (PValue v) = Ok e
    /\ DerivaCompatPrimitive_ne col (PValue v) = Ok n
    /\ sqlite.is_true (sqlite.eval r (p_value e))
       && sqlite.is_true (sqlite.eval r (p_value n)) = false
    /\ sqlite.is_true (sqlite.eval r (p_value e))
       || sqlite.is_true (sqlite.eval r (p_value n))
       = sqlite.is_null v
         || negb (sqlite.is_null (sqlite.eval r (p_value col)))
            && negb (sqlite.is_null (sqlite.bound v))
    /\ sqlite.bound (VFloat S754_nan) = VNone.
Proof.
  eexists _, _. split; [reflexivity|]. split; [reflexivity|].
  cbn [p_value]. unfold DerivaCompatPrimitive_call.
  fold (equals_candidate (p_value col) r v).
  rewrite is_true_eq_literal, is_true_ne_literal.
  destruct v as [|b|z|f|s0|xs|kvs]; cbn [sqlite.is_null orb];
    try destruct f; cbn [sqlite.bound sqlite.is_null];
    destruct (sqlite.is_null (sqlite.eval r (p_value col))); cbn [negb andb orb];
    try destruct (compare _ _ _ _); repeat split; reflexivity.
Qed.

(** ** [DERIVA_col_in]: the candidates as a set *)

Lemma existsb_same_elements {A} (f : A -> bool) (l l' : list A) :
  (forall x, In x l <-> In x l') -> existsb f l = existsb f l'.
Proof.
  intros Hsame.
  destruct (existsb f l) eqn:E1, (existsb f l') eqn:E2; try reflexivity.
  - apply existsb_exists in E1 as (x & Hx & Hfx).
    assert (existsb f l' = true) by (apply existsb_exists; exists x; split; [by apply Hsame|done]).
    congruence.
  - apply existsb_exists in E2 as (x & Hx & Hfx).
    assert (existsb f l = true) by (apply existsb_exists; exists x; split; [by apply Hsame|done]).
    congruence.
Qed.

(** X9. Which rows the predicate of [DERIVA_col_in] lets pass depends on the
    candidates as a set: two candidate lists with the same elements, in any
    order and with any repetitions, give predicates that are true on the same
    rows. *)
Theorem DERIVA_col_in_ignores_order `{Runtime} (col : DerivaCompatPrimitive)
    (v v' : value) (vs vs' : list value) :
  (forall x, In x (v :: vs) <-> In x (v' :: vs')) ->
  exists f f',
    fold_left (col_in_step col) (map PValue (v :: vs)) (Ok None) = Ok (Some f)
    /\ fold_left (col_in_step col) (map PValue (v' :: vs')) (Ok None) = Ok (Some f')
    /\ (forall h w,
          DERIVA_col_in h col (map PValue (v :: vs)) w = handle_filter h (PPrimitive f) w
          /\ DERIVA_col_in h col (map PValue (v' :: vs')) w = handle_filter h (PPrimitive f') w)
    /\ forall r,
         sqlite.is_true (sqlite.eval r (p_value f))
         = sqlite.is_true (sqlite.eval r (p_value f')).
Proof.
  intros Hsame. eexists _, _.
  split; [apply col_in_loop|]. split; [apply col_in_loop|]. split.
  - intros h w. unfold DERIVA_col_in, bind, lift. by rewrite !col_in_loop.
  - intros r. cbn [p_value]. rewrite !is_true_or_of_equalities.
    by apply existsb_same_elements.
Qed.

Lemma DERIVA_col_in_ignores_order_witness :
  (forall x, In x [VInt 1; VInt 2] <-> In x [VInt 2; VInt 1; VInt 2])
  /\ exists f f',
       fold_left (col_in_step (DerivaCompatColumn item "tag"))
         (map PValue [VInt 1; VInt 2]) (Ok None) = Ok (Some f)
       /\ fold_left (col_in_step (DerivaCompatColumn item "tag"))
            (map PValue [VInt 2; VInt 1; VInt 2]) (Ok None) = Ok (Some f')
       /\ forall r,
            sqlite.is_true (H := demo_runtime)
              (sqlite.eval (H := demo_runtime) r (p_value f))
            = sqlite.is_true (H := demo_runtime)
                (sqlite.eval (H := demo_runtime) r (p_value f')).
Proof.
  assert (Hsame : forall x, In x [VInt 1; VInt 2] <-> In x [VInt 2; VInt 1; VInt 2]).
  { intros x. cbn [In]. tauto. }
  split; [exact Hsame|].
  destruct (DERIVA_col_in_ignores_order (H := demo_runtime) (DerivaCompatColumn item "tag")
              (VInt 1) (VInt 2) [VInt 2] [VInt 1; VInt 2] Hsame)
    as (f & f' & Hf & Hf' & _ & Heq).
  exists f, f'. split; [exact Hf|]. split; [exact Hf'|exact Heq].
Defined.

(** * Further properties of the loader *)

(** ** [format_patch]: what it leaves alone, and when it settles *)

Lemma format_patch_cases rc r p s :
  l_resources s !! rc = Some r ->
  rc_descriptor r !! "path" = Some (VStr p) ->
  format_patch rc s =
  if endswith p ".tsv" && bool_decide (rc_descriptor r !! "dialect" = None)
  then (Ok rc, with_resource s rc (patched r "dialect" tsv_dialect))
  else if bool_decide (rc_descriptor r !! "format" = None)
       then (Ok rc, with_resource s rc (patched r "format" VNone))
       else (Ok rc, s).
Proof.
  intros Hr Hp. unfold format_patch, format_patch_with, bind at 1 2, deref, lift, path_endswith_tsv.
  rewrite Hr, Hp.
  destruct (endswith p ".tsv" && bool_decide (rc_descriptor r !! "dialect" = None)).
  - by apply patch_and_commit.
  - destruct (bool_decide (rc_descriptor r !! "format" = None)).
    + by apply patch_and_commit.
    + reflexivity.
Qed.

(** X10. [format_patch] never overwrites: every entry of the descriptor is
    still there with its value, the only keys it may add are [dialect] and
    [format], and the name of the resource and its reader are as before;
    either nothing at all is changed, or the descriptor with the addition is
    the one in force.  Other resources, the store and the output are not
    touched. *)
Theorem format_patch_only_adds (rc : nat) (r : Resource) (p : string) (s : loader_state) :
  l_resources s !! rc = Some r ->
  rc_descriptor r !! "path" = Some (VStr p) ->
  exists r',
    l_resources (snd (format_patch rc s)) !! rc = Some r'
    /\ rc_name r' = rc_name r
    /\ rc_read r' = rc_read r
    /\ (forall k v, rc_descriptor r !! k = Some v -> rc_descriptor r' !! k = Some v)
    /\ (forall k, k <> "dialect" -> k <> "format" ->
          rc_descriptor r' !! k = rc_descriptor r !! k)
    /\ (snd (format_patch rc s) = s \/ rc_committed r' = rc_descriptor r')
    /\ (forall rc', rc' <> rc ->
          l_resources (snd (format_patch rc s)) !! rc' = l_resources s !! rc')
    /\ l_db (snd (format_patch rc s)) = l_db s
    /\ l_stdout (snd (format_patch rc s)) = l_stdout s.
Proof.
  intros Hr Hp. rewrite (format_patch_cases rc r p s Hr Hp).
  destruct (endswith p ".tsv" && bool_decide (rc_descriptor r !! "dialect" = None)) eqn:Ha.
  - apply andb_true_iff in Ha as [_ Hd]. apply bool_decide_eq_true_1 in Hd.
    exists (patched r "dialect" tsv_dialect). cbn [snd with_resource l_resources l_db l_stdout].
    rewrite lookup_insert_eq. cbn [patched rc_name rc_read rc_descriptor rc_committed].
    repeat split; auto.
    + intros k v Hk. rewrite lookup_insert_ne; [exact Hk|]. intros <-. congruence.
    + intros k Hk _. by rewrite lookup_insert_ne.
    + intros rc' Hne. by rewrite lookup_insert_ne.
  - destruct (bool_decide (rc_descriptor r !! "format" = None)) eqn:Hf.
    + apply bool_decide_eq_true_1 in Hf.
      exists (patched r "format" VNone). cbn [snd with_resource l_resources l_db l_stdout].
      rewrite lookup_insert_eq. cbn [patched rc_name rc_read rc_descriptor rc_committed].
      repeat split; auto.
      * intros k v Hk. rewrite lookup_insert_ne; [exact Hk|]. intros <-. congruence.
      * intros k _ Hk. by rewrite lookup_insert_ne.
      * intros rc' Hne. by rewrite lookup_insert_ne.
    + exists r. cbn [snd]. repeat split; auto.
Qed.

Lemma format_patch_only_adds_witness :
  l_resources (demo_loader (Ok [])) !! 0%nat = Some (item_resource (Ok []))
  /\ rc_descriptor (item_resource (Ok [])) !! "path" = Some (VStr "item.tsv")
  /\ l_db (snd (format_patch 0 (demo_loader (Ok [])))) = l_db (demo_loader (Ok [])).
Proof.
  assert (Hr : l_resources (demo_loader (Ok [])) !! 0%nat = Some (item_resource (Ok [])))
    by (vm_compute; reflexivity).
  assert (Hp : rc_descriptor (item_resource (Ok [])) !! "path" = Some (VStr "item.tsv"))
    by (vm_compute; reflexivity).
  split; [exact Hr|]. split; [exact Hp|].
  destruct (format_patch_only_adds 0 (item_resource (Ok [])) "item.tsv"
              (demo_loader (Ok [])) Hr Hp) as (r' & _ & _ & _ & _ & _ & _ & _ & Hdb & _).
  exact Hdb.
Defined.

Lemma commit_keeps_commit rc : commit_keeps commit rc.
Proof.
  intros s r Hr. unfold commit, bind, deref, store. rewrite Hr.
  eexists _, _. split; [reflexivity|]. cbn [l_resources].
  split; [apply lookup_insert_eq|]. cbn [rc_descriptor]. auto.
Qed.

(** One call of [format_patch], over a [commit] that keeps what is there. *)
Lemma format_patch_with_step commit rc r p s :
  commit_keeps commit rc ->
  l_resources s !! rc = Some r ->
  rc_descriptor r !! "path" = Some (VStr p) ->
  exists s' r',
    format_patch_with commit rc s = (Ok rc, s')
    /\ l_resources s' !! rc = Some r'
    /\ rc_descriptor r' !! "path" = Some (VStr p)
    /\ (is_Some (rc_descriptor r !! "dialect") -> is_Some (rc_descriptor r' !! "dialect"))
    /\ (is_Some (rc_descriptor r !! "format") -> is_Some (rc_descriptor r' !! "format"))
    /\ (if endswith p ".tsv" && bool_decide (rc_descriptor r !! "dialect" = None)
        then is_Some (rc_descriptor r' !! "dialect")
             /\ (rc_descriptor r !! "format" = None -> rc_descriptor r' !! "format" = None)
        else if bool_decide (rc_descriptor r !! "format" = None)
             then is_Some (rc_descriptor r' !! "format")
             else s' = s).
Proof.
  intros Hkeep Hr Hp. rewrite (format_patch_with_cases commit rc r p s Hr Hp).
  assert (Hedit : forall k v,
            k <> "path" ->
            exists s' r',
              (let* _ := commit rc in ret rc) (with_resource s rc (edited r k v)) = (Ok rc, s')
              /\ l_resources s' !! rc = Some r'
              /\ rc_descriptor r' !! "path" = Some (VStr p)
              /\ is_Some (rc_descriptor r' !! k)
              /\ (forall k', is_Some (rc_descriptor r !! k') ->
                             is_Some (rc_descriptor r' !! k'))
              /\ (k <> "format" -> rc_descriptor r !! "format" = None ->
                  rc_descriptor r' !! "format" = None)).
  { intros k v Hk.
    destruct (Hkeep (with_resource s rc (edited r k v)) (edited r k v))
      as (s' & r' & Hc & Hr' & Hpath & Hkeys & Hformat).
    { cbn [with_resource l_resources]. apply lookup_insert_eq. }
    exists s', r'. unfold bind, ret. rewrite Hc. split; [reflexivity|].
    split; [exact Hr'|]. cbn [edited rc_descriptor] in *.
    split; [by rewrite Hpath, lookup_insert_ne|].
    split; [apply Hkeys; rewrite lookup_insert_eq; by eexists|].
    split.
    - intros k' Hk'. apply Hkeys. destruct (decide (k = k')) as [->|Hne].
      + rewrite lookup_insert_eq. by eexists.
      + by rewrite lookup_insert_ne.
    - intros Hkf Hf. apply Hformat. by rewrite lookup_insert_ne. }
  destruct (endswith p ".tsv" && bool_decide (rc_descriptor r !! "dialect" = None)).
  - destruct (Hedit "dialect" tsv_dialect) as (s' & r' & He & Hr' & Hp' & Hd & Hk & Hf);
      [done|].
    exists s', r'. repeat split; auto.
  - destruct (bool_decide (rc_descriptor r !! "format" = None)).
    + destruct (Hedit "format" VNone) as (s' & r' & He & Hr' & Hp' & Hd & Hk & Hf); [done|].
      exists s', r'. repeat split; auto.
    + exists s, r. repeat split; auto.
Qed.

(** X11. [format_patch] is not idempotent, but it settles at the second
    call, over any [commit] that returns and keeps what the descriptor holds.
    On a [.tsv] resource with neither [dialect] nor [format] the first call
    adds the dialect only; the second call then finds a dialect and adds
    [format], so it changes the resource again.  Whatever the resource, a
    third call changes nothing. *)
Theorem format_patch_settles (commit : nat -> M loader_state unit) (rc : nat) (r : Resource)
    (p : string) (s : loader_state) :
  commit_keeps commit rc ->
  l_resources s !! rc = Some r ->
  rc_descriptor r !! "path" = Some (VStr p) ->
  format_patch_with commit rc
    (snd (format_patch_with commit rc (snd (format_patch_with commit rc s))))
  = (Ok rc, snd (format_patch_with commit rc (snd (format_patch_with commit rc s))))
  /\ (endswith p ".tsv" = true ->
      rc_descriptor r !! "dialect" = None ->
      rc_descriptor r !! "format" = None ->
      exists r1 r2,
        l_resources (snd (format_patch_with commit rc s)) !! rc = Some r1
        /\ is_Some (rc_descriptor r1 !! "dialect")
        /\ rc_descriptor r1 !! "format" = None
        /\ l_resources (snd (format_patch_with commit rc
                               (snd (format_patch_with commit rc s)))) !! rc = Some r2
        /\ is_Some (rc_descriptor r2 !! "dialect")
        /\ is_Some (rc_descriptor r2 !! "format")
        /\ snd (format_patch_with commit rc (snd (format_patch_with commit rc s)))
           <> snd (format_patch_with commit rc s)).
Proof.
  intros Hkeep Hr Hp.
  destruct (format_patch_with_step commit rc r p s Hkeep Hr Hp)
    as (s1 & r1 & E1 & Hr1 & Hp1 & Hd1 & Hf1 & H1).
  destruct (format_patch_with_step commit rc r1 p s1 Hkeep Hr1 Hp1)
    as (s2 & r2 & E2 & Hr2 & Hp2 & Hd2 & Hf2 & H2).
  destruct (format_patch_with_step commit rc r2 p s2 Hkeep Hr2 Hp2)
    as (s3 & r3 & E3 & Hr3 & Hp3 & Hd3 & Hf3 & H3).
  rewrite E1. cbn [snd]. rewrite E2. cbn [snd]. rewrite E3.
  assert (Hnone : forall (m : gmap string value) k, is_Some (m !! k) ->
                    bool_decide (m !! k = None) = false).
  { intros m k [x Hx]. apply bool_decide_eq_false_2. by rewrite Hx. }
  split.
  - f_equal.
    (* after the first call the dialect case is closed *)
    assert (Ha1 : endswith p ".tsv" && bool_decide (rc_descriptor r1 !! "dialect" = None)
                  = false).
    { destruct (endswith p ".tsv") eqn:Ht; [|reflexivity]. cbn [andb] in *.
      destruct (bool_decide (rc_descriptor r !! "dialect" = None)) eqn:Hd.
      - destruct H1 as [Hd' _]. by apply Hnone.
      - apply Hnone, Hd1. apply bool_decide_eq_false_1 in Hd.
        by destruct (rc_descriptor r !! "dialect"); [eexists|]. }
    rewrite Ha1 in H2.
    assert (Ha2 : endswith p ".tsv" && bool_decide (rc_descriptor r2 !! "dialect" = None)
                  = false).
    { destruct (endswith p ".tsv") eqn:Ht; [|reflexivity]. cbn [andb] in *.
      apply Hnone, Hd2.
      destruct (rc_descriptor r1 !! "dialect") eqn:Hd; [by eexists|].
      by rewrite bool_decide_eq_true_2 in Ha1. }
    assert (Hb2 : bool_decide (rc_descriptor r2 !! "format" = None) = false).
    { destruct (bool_decide (rc_descriptor r1 !! "format" = None)) eqn:Hf.
      - by apply Hnone.
      - apply Hnone, Hf2. apply bool_decide_eq_false_1 in Hf.
        by destruct (rc_descriptor r1 !! "format"); [eexists|]. }
    by rewrite Ha2, Hb2 in H3.
  - intros Ht Hd Hf. rewrite Ht, (bool_decide_eq_true_2 _ Hd) in H1. cbn [andb] in H1.
    destruct H1 as [Hd1' Hf1']. specialize (Hf1' Hf).
    rewrite (Hnone _ _ Hd1'), andb_false_r, (bool_decide_eq_true_2 _ Hf1') in H2.
    exists r1, r2. repeat split; auto.
    intros Heq. rewrite Heq, Hr1 in Hr2. injection Hr2 as <-.
    rewrite Hf1' in H2. by destruct H2.
Qed.

Lemma format_patch_settles_witness :
  commit_keeps commit 0
  /\ l_resources (demo_loader (Ok [])) !! 0%nat = Some (item_resource (Ok []))
  /\ rc_descriptor (item_resource (Ok [])) !! "path" = Some (VStr "item.tsv")
  /\ format_patch 0 (snd (format_patch 0 (snd (format_patch 0 (demo_loader (Ok []))))))
     = (Ok 0%nat, snd (format_patch 0 (snd (format_patch 0 (demo_loader (Ok [])))))).
Proof.
  assert (Hr : l_resources (demo_loader (Ok [])) !! 0%nat = Some (item_resource (Ok [])))
    by (vm_compute; reflexivity).
  assert (Hp : rc_descriptor (item_resource (Ok [])) !! "path" = Some (VStr "item.tsv"))
    by (vm_compute; reflexivity).
  split; [exact (commit_keeps_commit 0)|]. split; [exact Hr|]. split; [exact Hp|].
  exact (proj1 (format_patch_settles commit 0 (item_resource (Ok [])) "item.tsv"
                  (demo_loader (Ok [])) (commit_keeps_commit 0) Hr Hp)).
Defined.

(** ** The tables of the package *)

Lemma prepare_own_columns (t : sa.table) cols l :
  (forall c, In c l -> In c cols) ->
  rmap (fun c => sqlite.prepare (map (pair (sa.tbl_name t)) cols) (sa.EColumn t c)) l
  = Ok (map (fun _ => tt) l).
Proof.
  induction l as [|c l IH]; intros Hsub; [reflexivity|].
  cbn [rmap map].
  set (R := rmap (fun c => sqlite.prepare (map (pair (sa.tbl_name t)) cols)
                             (sa.EColumn t c)) l) in *.
  cbn [sqlite.prepare]. rewrite in_scope_renamed.
  assert (Hc : existsb (fun c' => String.eqb c' c) cols = true).
  { apply existsb_exists. exists c. split; [apply Hsub; by left|apply String.eqb_refl]. }
  rewrite Hc. cbn [rbind]. rewrite IH by (intros c' Hc'; apply Hsub; by right).
  reflexivity.
Qed.

(** A table as reflected from the store, queried alone, gives one row for
    each stored row. *)
Lemma run_reflected_table `{Runtime} db name st :
  db !! name = Some st ->
  exists rows,
    sqlite.run db (sa.query {| sa.tbl_source := name; sa.tbl_name := name;
                               sa.tbl_columns := sqlite.st_columns st |}) = Ok rows
    /\ length rows = length (sqlite.st_rows st).
Proof.
  intros Hst.
  unfold sqlite.run, sqlite.matching, sqlite.prepare_statement, sqlite.from_where,
    sqlite.from_clause, sqlite.open_table.
  cbn [sa.query sa.qs_joins sa.qs_entity sa.qs_criterion sa.qs_group_by
       sa.tbl_source sa.tbl_name sa.tbl_columns fold_left sqlite.where_tables].
  rewrite Hst. cbn [rbind sqlite.prepare_criterion rmap].
  pose proof (prepare_own_columns
                {| sa.tbl_source := name; sa.tbl_name := name;
                   sa.tbl_columns := sqlite.st_columns st |}
                (sqlite.st_columns st) (sqlite.st_columns st) (fun c Hc => Hc)) as Hp.
  cbn [sa.tbl_name] in Hp. rewrite Hp.
  cbn [rbind sqlite.where_clause sqlite.group_clause].
  eexists. split; [reflexivity|]. by rewrite !length_map.
Qed.

(** X12. When [DerivaCompatPkg.__init__] returns, [tables] has a handle for
    exactly the tables then in the store, those left by an earlier load
    included; each is over the table of its name with the columns the store
    has, its closure changes nothing, and it carries the flag [progress_bar]
    given. *)
Theorem tables_are_the_tables_of_the_store `{Runtime} (pkgs : list (list nat))
    (progress : bool) (s s' : loader_state) (pkg : DerivaCompatPkg)
    (tables : gmap string DerivaCompatTable) :
  DerivaCompatPkg_init pkgs progress s = (Ok (pkg, tables), s') ->
  progress_bar pkg = progress
  /\ dom tables = dom (l_db s')
  /\ (forall name st, l_db s' !! name = Some st ->
        exists t, tables !! name = Some t
          /\ root t
          /\ t_pkg t = pkg
          /\ DerivaCompatTable_call t
             = {| sa.tbl_source := name; sa.tbl_name := name;
                  sa.tbl_columns := sqlite.st_columns st |})
  /\ (forall name, l_db s' !! name = None -> tables !! name = None).
Proof.
  unfold DerivaCompatPkg_init, bind.
  destruct (foldM collect_resource (concat pkgs) [] s) as [[rcs|e] s1]; [|discriminate].
  destruct (foldM _ rcs tt s1) as [[[]|e] s2]; [|discriminate].
  intros [= <- <- <-]. split; [reflexivity|].
  assert (Hlook : forall name,
            reflect {| progress_bar := progress |} (l_db s2) !! name
            = (fun st => DerivaCompatTable_init {| progress_bar := progress |}
                           {| sa.tbl_source := name; sa.tbl_name := name;
                              sa.tbl_columns := sqlite.st_columns st |} None)
              <$> l_db s2 !! name).
  { intros name. unfold reflect. rewrite map_lookup_imap.
    by destruct (l_db s2 !! name). }
  split; [|split].
  - apply set_eq. intros name. rewrite !elem_of_dom, Hlook.
    by rewrite fmap_is_Some.
  - intros name st Hst. eexists. rewrite Hlook, Hst. split; [reflexivity|].
    split; [by intros qs|]. split; reflexivity.
  - intros name Hnone. by rewrite Hlook, Hnone.
Qed.

(** X13. Take a table of the store none of whose columns has a name that
    [count] and [entities] read on the table handle, and whose own name is not
    one they read on the query handle.  On the handle reflected for it, those
    names give the attributes and methods of the handle itself, and so they do
    on the query handle of [_as_query]; [count()] returns the number of rows
    the table has in the store, and [entities()] run to its end yields as many
    mappings. *)
Theorem table_count_is_row_count `{Runtime} (pkg : DerivaCompatPkg)
    (w : world) (name : string) (st : sqlite.table) :
  w_db w !! name = Some st ->
  w_default_path w = ∅ ->
  (forall n, In n DerivaCompatTable_reads -> ~ In n (sqlite.st_columns st)) ->
  ~ In name DerivaCompatQuery_reads ->
  exists t,
    reflect pkg (w_db w) !! name = Some t
    /\ (forall n, In n DerivaCompatTable_reads ->
          DerivaCompatTable_getattr t n = DerivaCompatTable_own t n)
    /\ (exists q w1,
          DerivaCompatTable_as_query t w = (Ok q, w1)
          /\ forall n, In n DerivaCompatQuery_reads ->
               DerivaCompatQuery_getattr q n w1 = (DerivaCompatQuery_own q n, w1))
    /\ fst (DerivaCompatTable_count t w) = Ok (Z.of_nat (length (sqlite.st_rows st)))
    /\ exists g w1 es,
         DerivaCompatTable_entities t w = (Ok g, w1)
         /\ fst (to_list g w1) = Ok es
         /\ length es = length (sqlite.st_rows st).
Proof.
  intros Hst Hdefault Hcols Hname.
  destruct (run_reflected_table (w_db w) name st Hst) as (rows & Hrun & Hlen).
  eexists. split.
  { unfold reflect. rewrite map_lookup_imap, Hst. reflexivity. }
  split; [|split; [|split]].
  - intros n Hn. unfold DerivaCompatTable_getattr. rewrite assoc_column_definitions.
    cbn [DerivaCompatTable_init t_table sa.tbl_columns].
    destruct (pd.mem n (sqlite.st_columns st)) eqn:Hmem; [|reflexivity].
    exfalso. apply (Hcols n Hn). unfold pd.mem in Hmem.
    apply existsb_exists in Hmem as (c & Hc & Heq). apply String.eqb_eq in Heq. by subst c.
  - unfold DerivaCompatTable_as_query. rewrite DerivaCompatQuery_init_spec.
    eexists _, _. split; [reflexivity|].
    intros n Hn. unfold DerivaCompatQuery_getattr, path_of. cbn [w_paths q_path].
    rewrite lookup_insert_eq. change (default ∅ (Some ?m)) with m.
    cbn [read_path DerivaCompatTable_call DerivaCompatTable_init t_table sa.tbl_name].
    rewrite Hdefault, lookup_insert_ne by (intros <-; by apply Hname).
    by rewrite lookup_empty.
  - unfold DerivaCompatTable_count, DerivaCompatTable_as_query, bind.
    rewrite DerivaCompatQuery_init_spec.
    unfold DerivaCompatQuery_count, DerivaCompatQuery_call, bind, lift, fetch_count.
    cbn [q_query q_subj DerivaCompatTable_init DerivaCompatTable_call t_qs t_table w_db fst].
    rewrite Hrun. cbn [rbind fst]. by rewrite Hlen.
  - unfold DerivaCompatTable_entities, DerivaCompatTable_as_query, bind.
    cbn [DerivaCompatTable_init t_pkg].
    assert (Hto : forall q w1,
              w_db w1 = w_db w ->
              DerivaCompatQuery_call q
              = Ok (sa.query {| sa.tbl_source := name; sa.tbl_name := name;
                                sa.tbl_columns := sqlite.st_columns st |}) ->
              fst (to_list (DerivaCompatQuery_entities q) w1) = Ok (map entity rows)).
    { intros q w1 Hdb Hcall.
      unfold to_list, DerivaCompatQuery_entities, bind, lift, fetch, ret.
      by rewrite Hcall, Hdb, Hrun. }
    destruct (progress_bar pkg); rewrite DerivaCompatQuery_init_spec;
      (eexists _, _, _; split; [reflexivity|]; split;
       [apply Hto; reflexivity|by rewrite length_map]).
Qed.

Lemma table_count_is_row_count_witness :
  w_db demo_world !! "item"
  = Some {| sqlite.st_columns := ["id"; "grp"; "tag"];
            sqlite.st_rows := [ [VInt 1; VInt 7; VInt 0]; [VInt 2; VInt 7; VInt 1] ];
            sqlite.st_indexes := [] |}
  /\ w_default_path demo_world = ∅
  /\ (forall n, In n DerivaCompatTable_reads -> ~ In n ["id"; "grp"; "tag"])
  /\ ~ In "item" DerivaCompatQuery_reads
  /\ exists t, reflect demo_pkg (w_db demo_world) !! "item" = Some t
       /\ fst (DerivaCompatTable_count (H := demo_runtime) t demo_world) = Ok 2.
Proof.
  assert (Hst : w_db demo_world !! "item"
                = Some {| sqlite.st_columns := ["id"; "grp"; "tag"];
                          sqlite.st_rows := [ [VInt 1; VInt 7; VInt 0];
                                              [VInt 2; VInt 7; VInt 1] ];
                          sqlite.st_indexes := [] |}) by (vm_compute; reflexivity).
  assert (Hdefault : w_default_path demo_world = ∅) by reflexivity.
  assert (Hcols : forall n, In n DerivaCompatTable_reads -> ~ In n ["id"; "grp"; "tag"]).
  { intros n Hn Hc. cbn [In DerivaCompatTable_reads] in Hn, Hc.
    repeat (destruct Hn as [<-|Hn];
            [repeat (destruct Hc as [Hc|Hc]; [discriminate|]); exact Hc|]).
    exact Hn. }
  assert (Hname : ~ In "item" DerivaCompatQuery_reads).
  { intros Hn. cbn [In DerivaCompatQuery_reads] in Hn.
    repeat (destruct Hn as [Hn|Hn]; [discriminate|]). exact Hn. }
  split; [exact Hst|]. split; [exact Hdefault|]. split; [exact Hcols|].
  split; [exact Hname|].
  destruct (table_count_is_row_count (H := demo_runtime) demo_pkg demo_world "item" _
              Hst Hdefault Hcols Hname) as (t & Ht & _ & _ & Hc & _).
  exists t. split; [exact Ht|exact Hc].
Defined.

Lemma tables_are_the_tables_of_the_store_witness :
  exists pkg tables s',
    DerivaCompatPkg_init (H := demo_runtime) [[0%nat]] false (demo_loader (Ok []))
    = (Ok (pkg, tables), s')
    /\ progress_bar pkg = false
    /\ dom tables = dom (l_db s').
Proof.
  destruct (DerivaCompatPkg_init (H := demo_runtime) [[0%nat]] false (demo_loader (Ok [])))
    as [[[pkg tables]|e] s'] eqn:Hinit.
  - exists pkg, tables, s'. split; [reflexivity|].
    destruct (tables_are_the_tables_of_the_store (H := demo_runtime) _ _ _ _ _ _ Hinit)
      as (Hp & Hd & _).
    split; [exact Hp|exact Hd].
  - exfalso. vm_compute in Hinit. discriminate.
Defined.

(** ** What pandas makes of the records *)

(** A column of integers with a missing cell is a column of floats, and an
    integer beyond 64 bits cannot be written. *)
Example of_records_missing_cell :
  pd.df_records (pd.of_records (H := demo_runtime)
                   [ [("id", VInt 1); ("n", VInt 5)]; [("id", VInt 2)] ])
  = [ [("id", VInt 1); ("n", VFloat (S754_finite false 5 0))];
      [("id", VInt 2); ("n", pd.nan)] ].
Proof. vm_compute. reflexivity. Qed.

Example to_sql_overflow :
  pd.to_sql (pd.of_records (H := demo_runtime) [ [("id", VInt (2 ^ 70))] ]) "big" None ∅
  = Raise (Foreign "OverflowError" "Python int too large to convert to SQLite INTEGER" None).
Proof. vm_compute. reflexivity. Qed.

(** ** The loader writes one table at a time *)

Lemma writes_only_ret {A} name (a : A) : writes_only name (ret a).
Proof. intros s. by split. Qed.

Lemma writes_only_raise {A} name e : writes_only name (raise (A := A) e).
Proof. intros s. by split. Qed.

Lemma writes_only_lift {A} name (r : result A) : writes_only name (lift r).
Proof. intros s. by split. Qed.

Lemma writes_only_print name line : writes_only name (print line).
Proof. intros s. by split. Qed.

Lemma writes_only_bind {A B} name (c : M loader_state A) (k : A -> M loader_state B) :
  writes_only name c -> (forall a, writes_only name (k a)) ->
  writes_only name (bind c k).
Proof.
  intros Hc Hk s. unfold bind. destruct (Hc s) as [Hdb Hres].
  destruct (c s) as [[a|e] s1]; cbn [snd] in *; [|by split].
  destruct (Hk a s1) as [Hdb' Hres']. split.
  - intros n Hn. by rewrite Hdb', Hdb.
  - by rewrite Hres'.
Qed.

Lemma writes_only_foldM {A B} name (f : B -> A -> M loader_state B) l :
  (forall b x, writes_only name (f b x)) -> forall b, writes_only name (foldM f l b).
Proof.
  intros Hf. induction l as [|x l IH]; intros b; cbn [foldM].
  - apply writes_only_ret.
  - apply writes_only_bind; [apply Hf|apply IH].
Qed.

Lemma writes_only_write name f :
  (forall db db' n, f db = Ok db' -> n <> name -> db' !! n = db !! n) ->
  writes_only name (write f).
Proof.
  intros Hf s. unfold write. destruct (f (l_db s)) as [db'|e] eqn:Hfd; cbn [snd l_db l_resources].
  - split; [|reflexivity]. intros n Hn. by apply (Hf _ _ _ Hfd).
  - by split.
Qed.

Lemma to_sql_other_tables df name label db db' n :
  pd.to_sql df name label db = Ok db' -> n <> name -> db' !! n = db !! n.
Proof.
  unfold pd.to_sql. intros Hsql Hn.
  destruct (pd.index_labels df label) as [labels|]; [|discriminate]. cbn [rbind] in Hsql.
  destruct (List.find _ labels); [discriminate|].
  destruct (rmap (pd.row_cells df) (imap pair (pd.df_records df))) as [rows|]; [|discriminate].
  cbn [rbind] in Hsql. injection Hsql as <-. by rewrite lookup_insert_ne.
Qed.

Lemma create_index_other_tables idx tbl cols db db' n :
  create_index idx tbl cols db = Ok db' -> n <> tbl -> db' !! n = db !! n.
Proof.
  unfold create_index. intros Hci Hn.
  destruct (db !! tbl) as [st|]; [|discriminate].
  destruct (index_exists idx db); [by injection Hci as <-|].
  destruct (pd.first_missing cols (sqlite.st_columns st)); [discriminate|].
  injection Hci as <-. by rewrite lookup_insert_ne.
Qed.

Lemma writes_only_read_or_report name resource_name rcs :
  writes_only name (read_or_report resource_name rcs).
Proof.
  intros s. unfold read_or_report.
  pose proof (read_all_state rcs s) as Hs.
  destruct (read_all rcs s) as [[raw|e] s']; cbn [snd] in *; subst s'; [by split|].
  apply (writes_only_bind name (print _)
           (fun _ => let* errors := lift (getattr_errors e) in
                     let* _ := print (repr_list errors) in raise e)).
  - apply writes_only_print.
  - intros _. apply writes_only_bind; [apply writes_only_lift|].
    intros errors. apply writes_only_bind; [apply writes_only_print|].
    intros _. apply writes_only_raise.
Qed.

Lemma writes_only_load_resource `{Runtime} name entry :
  writes_only name (load_resource name entry).
Proof.
  unfold load_resource.
  apply writes_only_bind; [apply writes_only_read_or_report|]. intros raw.
  apply writes_only_bind; [apply writes_only_lift|]. intros names.
  apply writes_only_bind; [apply writes_only_lift|]. intros data.
  apply writes_only_bind; [apply writes_only_lift|]. intros fields.
  apply writes_only_bind; [apply writes_only_lift|]. intros data'.
  destruct raw as [|r raw].
  - apply writes_only_write. intros db db' n. apply to_sql_other_tables.
  - apply writes_only_bind; [apply writes_only_lift|]. intros pk.
    apply writes_only_bind; [apply writes_only_lift|]. intros keys.
    apply writes_only_bind; [apply writes_only_lift|]. intros data''.
    apply writes_only_bind;
      [apply writes_only_write; intros db db' n; apply to_sql_other_tables|]. intros _.
    apply writes_only_bind;
      [apply writes_only_write; intros db db' n; apply create_index_other_tables|]. intros _.
    apply writes_only_bind; [apply writes_only_lift|]. intros fks.
    apply writes_only_foldM. intros _ fk.
    apply writes_only_bind; [apply writes_only_lift|]. intros fs.
    apply writes_only_write. intros db db' n. apply create_index_other_tables.
Qed.

(** X14. Loading a resource, whether it succeeds or fails at any step,
    writes to no table but the one of its name, and to no resource object;
    so the loop over the resources leaves every table that no resource names
    as it was (a table of an earlier load stays, with its rows and indexes). *)
Theorem load_writes_only_named_tables `{Runtime} (rcs : list (string * rcs_entry))
    (s : loader_state) (n : string) :
  ~ In n (map fst rcs) ->
  l_db (snd (foldM (fun _ x => load_resource (fst x) (snd x)) rcs tt s)) !! n = l_db s !! n
  /\ l_resources (snd (foldM (fun _ x => load_resource (fst x) (snd x)) rcs tt s))
     = l_resources s
  /\ (forall name entry, n <> name ->
        l_db (snd (load_resource name entry s)) !! n = l_db s !! n).
Proof.
  intros Hn. split; [|split].
  - revert s. induction rcs as [|[name entry] rcs IH]; intros s; [reflexivity|].
    cbn [foldM]. unfold bind. cbn [fst snd].
    destruct (writes_only_load_resource name entry s) as [Hdb _].
    assert (Hne : n <> name) by (intros ->; apply Hn; by left).
    destruct (load_resource name entry s) as [[[]|e] s1]; cbn [snd] in *.
    + rewrite IH by (intros Hin; apply Hn; by right). by apply Hdb.
    + by apply Hdb.
  - revert s. induction rcs as [|[name entry] rcs IH]; intros s; [reflexivity|].
    cbn [foldM]. unfold bind. cbn [fst snd].
    destruct (writes_only_load_resource name entry s) as [_ Hres].
    destruct (load_resource name entry s) as [[[]|e] s1]; cbn [snd] in *.
    + rewrite IH by (intros Hin; apply Hn; by right). exact Hres.
    + exact Hres.
  - intros name entry Hne. by apply (writes_only_load_resource name entry s).
Qed.

Lemma load_writes_only_named_tables_witness :
  ~ In "category" (map fst [("item", {| e_schema := item_schema; e_rcs := [0%nat] |})])
  /\ l_db (snd (foldM (fun _ x => load_resource (H := demo_runtime) (fst x) (snd x))
                  [("item", {| e_schema := item_schema; e_rcs := [0%nat] |})] tt
                  (demo_loader (Ok [])))) !! "category"
     = l_db (demo_loader (Ok [])) !! "category".
Proof.
  assert (Hn : ~ In "category"
                 (map fst [("item", {| e_schema := item_schema; e_rcs := [0%nat] |})])).
  { cbn [map fst In]. intros [Heq|[]]. discriminate. }
  split; [exact Hn|].
  exact (proj1 (load_writes_only_named_tables (H := demo_runtime) _ (demo_loader (Ok []))
                  "category" Hn)).
Defined.

(** ** Loading a resource that has rows *)

Lemma bind_lift_inv {S A B} (r : result A) (k : A -> M S B) s b s' :
  bind (lift r) k s = (Ok b, s') -> exists a, r = Ok a /\ k a s = (Ok b, s').
Proof. unfold bind, lift. destruct r as [a|e]; [eauto|discriminate]. Qed.

Lemma bind_write_inv {B} f (k : unit -> M loader_state B) s b s' :
  bind (write f) k s = (Ok b, s') ->
  exists db', f (l_db s) = Ok db' /\ k tt (with_db s db') = (Ok b, s').
Proof.
  unfold bind, write. destruct (f (l_db s)) as [db'|e]; [eauto|discriminate].
Qed.

Lemma rmap_length {A B} (f : A -> result B) l ys :
  rmap f l = Ok ys -> length ys = length l.
Proof.
  revert ys. induction l as [|a l IH]; intros ys; cbn [rmap].
  - by intros [= <-].
  - destruct (f a) as [b|]; cbn [rbind]; [|discriminate].
    destruct (rmap f l) as [bs|]; cbn [rbind]; [|discriminate].
    intros [= <-]. cbn [length]. by rewrite (IH bs).
Qed.

Lemma convert_shape df c f df' :
  pd.convert df c f = Ok df' ->
  pd.df_index df' = pd.df_index df
  /\ pd.df_columns df' = pd.df_columns df
  /\ length (pd.df_records df') = length (pd.df_records df).
Proof.
  unfold pd.convert. destruct (pd.mem c (pd.df_columns df)); [|discriminate].
  destruct (rmap _ (pd.df_records df)) as [rs|] eqn:Hrs; cbn [rbind]; [|discriminate].
  intros [= <-]. cbn. repeat split. by apply rmap_length in Hrs.
Qed.

Lemma coerce_field_shape `{Runtime} df field df' :
  coerce_field df field = Ok df' ->
  pd.df_index df' = pd.df_index df
  /\ pd.df_columns df' = pd.df_columns df
  /\ length (pd.df_records df') = length (pd.df_records df).
Proof.
  unfold coerce_field.
  destruct (getitem field "type") as [ty|]; cbn [rbind]; [|discriminate].
  assert (Hconv : forall f,
            (let? n := getitem field "name" in let? c := as_str n in pd.convert df c f)
            = Ok df' ->
            pd.df_index df' = pd.df_index df
            /\ pd.df_columns df' = pd.df_columns df
            /\ length (pd.df_records df') = length (pd.df_records df)).
  { intros f. destruct (getitem field "name") as [n|]; cbn [rbind]; [|discriminate].
    destruct (as_str n) as [c|]; cbn [rbind]; [|discriminate]. apply convert_shape. }
  destruct ty; try (by intros [= <-]); try discriminate.
  repeat case_match; try (by intros [= <-]); apply Hconv.
Qed.

Lemma coerce_fields_shape `{Runtime} fields : forall df df',
  fold_left (fun acc field => let? d := acc in coerce_field d field) fields (Ok df) = Ok df' ->
  pd.df_index df' = pd.df_index df
  /\ pd.df_columns df' = pd.df_columns df
  /\ length (pd.df_records df') = length (pd.df_records df).
Proof.
  induction fields as [|field fields IH]; intros df df'; cbn [fold_left rbind].
  - by intros [= <-].
  - destruct (coerce_field df field) as [d|e] eqn:Hd.
    + intros Hrest. destruct (IH d df' Hrest) as (Hi & Hc & Hl).
      destruct (coerce_field_shape df field d Hd) as (Hi' & Hc' & Hl').
      repeat split; congruence.
    + intros Hrest. exfalso. clear -Hrest.
      induction fields as [|f fs IHf]; cbn [fold_left rbind] in Hrest; [discriminate|].
      by apply IHf.
Qed.

Lemma create_index_same_table idx tbl cols db db' name st0 :
  create_index idx tbl cols db = Ok db' ->
  same_table_more_indexes name st0 db -> same_table_more_indexes name st0 db'.
Proof.
  unfold create_index. intros Hci (st & Hst & Hc & Hr & Hi).
  destruct (db !! tbl) as [stt|] eqn:Htbl; [|discriminate].
  destruct (index_exists idx db); [injection Hci as <-; by exists st|].
  destruct (pd.first_missing cols (sqlite.st_columns stt)); [discriminate|].
  injection Hci as <-. destruct (decide (tbl = name)) as [->|Hne].
  - rewrite Hst in Htbl. injection Htbl as <-.
    eexists. rewrite lookup_insert_eq. split; [reflexivity|]. cbn.
    repeat split; auto. intros i Hin. apply in_or_app. left. by apply Hi.
  - exists st. by rewrite lookup_insert_ne.
Qed.

Lemma index_exists_intro idx db k st :
  db !! k = Some st -> pd.mem idx (map fst (sqlite.st_indexes st)) = true ->
  index_exists idx db = true.
Proof.
  intros Hk Hmem. unfold index_exists. apply existsb_exists. exists (k, st).
  split; [|exact Hmem]. apply list_elem_of_In. by apply elem_of_map_to_list.
Qed.

Lemma index_exists_elim idx db :
  index_exists idx db = true ->
  exists k st, db !! k = Some st /\ pd.mem idx (map fst (sqlite.st_indexes st)) = true.
Proof.
  unfold index_exists. intros Hex. apply existsb_exists in Hex as ([k st] & Hin & Hmem).
  exists k, st. split; [|exact Hmem]. apply elem_of_map_to_list. by apply list_elem_of_In.
Qed.

Lemma mem_app x l l' : pd.mem x (l ++ l') = pd.mem x l || pd.mem x l'.
Proof. unfold pd.mem. apply existsb_app. Qed.

Lemma create_index_exists idx tbl cols db db' :
  create_index idx tbl cols db = Ok db' -> index_exists idx db' = true.
Proof.
  unfold create_index. intros Hci.
  destruct (db !! tbl) as [stt|] eqn:Htbl; [|discriminate].
  destruct (index_exists idx db) eqn:Hex; [by injection Hci as <-|].
  destruct (pd.first_missing cols (sqlite.st_columns stt)); [discriminate|].
  injection Hci as <-. eapply index_exists_intro; [apply lookup_insert_eq|].
  cbn [sqlite.st_indexes]. rewrite map_app, mem_app. cbn [map fst pd.mem existsb].
  rewrite String.eqb_refl. by rewrite orb_true_r.
Qed.

Lemma create_index_keeps_indexes idx idx2 tbl cols db db' :
  index_exists idx db = true ->
  create_index idx2 tbl cols db = Ok db' -> index_exists idx db' = true.
Proof.
  intros Hex Hci. unfold create_index in Hci.
  destruct (db !! tbl) as [stt|] eqn:Htbl; [|discriminate].
  destruct (index_exists idx2 db); [by injection Hci as <-|].
  destruct (pd.first_missing cols (sqlite.st_columns stt)); [discriminate|].
  injection Hci as <-.
  apply index_exists_elim in Hex as (k & st & Hk & Hmem).
  destruct (decide (k = tbl)) as [->|Hne].
  - rewrite Htbl in Hk. injection Hk as <-.
    eapply index_exists_intro; [apply lookup_insert_eq|].
    cbn [sqlite.st_indexes]. rewrite map_app, mem_app. by rewrite Hmem.
  - eapply index_exists_intro; [|exact Hmem]. by rewrite lookup_insert_ne.
Qed.

Lemma first_missing_None wanted have :
  pd.first_missing wanted have = None -> forall c, In c wanted -> In c have.
Proof.
  unfold pd.first_missing. intros Hnone c Hc.
  pose proof (find_none _ _ Hnone c Hc) as Hmem. cbn in Hmem.
  apply negb_false_iff in Hmem. unfold pd.mem in Hmem.
  apply existsb_exists in Hmem as (c' & Hin & Heq).
  apply String.eqb_eq in Heq. by subst c'.
Qed.

(** What a loop of [create index if not exists] statements keeps. *)
Lemma foreign_key_indexes_keep `{Runtime} name st0 idx fks : forall s s',
  foldM (fun (_ : unit) foreignKeys =>
           let* fs := lift (let? f := getitem foreignKeys "fields" in keys_of f) in
           write (create_index (index_name name fs) name fs)) fks tt s = (Ok tt, s') ->
  same_table_more_indexes name st0 (l_db s) ->
  index_exists idx (l_db s) = true ->
  same_table_more_indexes name st0 (l_db s') /\ index_exists idx (l_db s') = true.
Proof.
  induction fks as [|fk fks IH]; intros s s'; cbn [foldM].
  - intros [= <-]. auto.
  - intros Hfold Hsame Hex. unfold bind at 1 in Hfold.
    destruct ((let* fs := lift (let? f := getitem fk "fields" in keys_of f) in
               write (create_index (index_name name fs) name fs)) s)
      as [[[]|e] s1] eqn:Hstep; [|discriminate].
    apply bind_lift_inv in Hstep as (fs & _ & Hw).
    unfold write in Hw.
    destruct (create_index (index_name name fs) name fs (l_db s)) as [db1|] eqn:Hci;
      [|discriminate].
    injection Hw as <-. apply (IH _ _ Hfold); cbn [l_db].
    + by eapply create_index_same_table.
    + by eapply create_index_keeps_indexes.
Qed.

(** The records of the bundles, one bundle after the other. *)
Lemma read_all_concat rcs s raw :
  fst (read_all rcs s) = Ok raw ->
  exists parts,
    Forall2 (fun rc part => fst (read rc s) = Ok part) rcs parts
    /\ raw = concat parts.
Proof.
  revert raw. induction rcs as [|rc rcs IH]; intros raw; cbn [read_all].
  - intros [= <-]. exists []. split; [constructor|reflexivity].
  - unfold bind at 1.
    assert (Hstate : snd (read rc s) = s).
    { unfold read, bind, deref, lift.
      destruct (l_resources s !! rc) as [r|]; [|reflexivity].
      by destruct (rc_read r (rc_committed r)). }
    destruct (read rc s) as [[records|e] s1] eqn:Hread; cbn [snd] in Hstate; subst s1;
      [|discriminate].
    unfold bind. destruct (read_all rcs s) as [[more|e] s2] eqn:Hrest; [|discriminate].
    cbn [ret fst]. intros [= <-].
    destruct (IH more eq_refl) as (parts & Hparts & ->).
    exists (records :: parts). split; [|reflexivity].
    constructor; [by rewrite Hread|exact Hparts].
Qed.

(** X15. When a resource with rows is loaded: its table has exactly the
    declared columns, those of the primary key first; it has one row for each
    record read, the records of the contributing bundles one bundle after the
    other, so the row count is the sum over the bundles; every primary key
    column is a declared column and has an index [ix_<table>_<column>] of its
    own from the bulk load; and an index named [idx_<table>_<key columns>]
    exists in the store. *)
Theorem load_resource_with_rows `{Runtime} (name : string) (entry : rcs_entry)
    (s s' : loader_state) (raw : list (list (string * value))) :
  fst (read_all (e_rcs entry) s) = Ok raw ->
  raw <> [] ->
  load_resource name entry s = (Ok tt, s') ->
  exists names keys st parts,
    field_names (e_schema entry) = Ok names
    /\ (let? pk := getitem (e_schema entry) "primaryKey" in keys_of pk) = Ok keys
    /\ l_db s' !! name = Some st
    /\ sqlite.st_columns st = keys ++ List.filter (fun c => negb (pd.mem c keys)) names
    /\ (forall k, In k keys -> In k names)
    /\ length (sqlite.st_rows st) = length raw
    /\ Forall2 (fun rc part => fst (read rc s) = Ok part) (e_rcs entry) parts
    /\ raw = concat parts
    /\ (forall k, In k keys ->
          In ("ix_" +:+ name +:+ "_" +:+ k, [k]) (sqlite.st_indexes st))
    /\ index_exists (index_name name keys) (l_db s') = true
    /\ ((forall n st1, n <> name -> l_db s !! n = Some st1 ->
           pd.mem (index_name name keys) (map fst (sqlite.st_indexes st1)) = false) ->
        In (index_name name keys, keys) (sqlite.st_indexes st)).
Proof.
  intros Hread Hne Hload.
  destruct (read_all_concat _ _ _ Hread) as (parts & Hparts & Hconcat).
  unfold load_resource in Hload. unfold bind at 1 in Hload. unfold read_or_report in Hload.
  pose proof (read_all_state (e_rcs entry) s) as Hs.
  destruct (read_all (e_rcs entry) s) as [[raw'|e] s0]; cbn [fst snd] in Hread, Hs;
    [|discriminate].
  injection Hread as ->. subst s0.
  destruct raw as [|r0 raw]; [done|]. cbv beta zeta iota in Hload.
  apply bind_lift_inv in Hload as (names & Hnames & Hload).
  apply bind_lift_inv in Hload as (data0 & Hdata0 & Hload).
  apply bind_lift_inv in Hload as (fields & Hfields & Hload).
  apply bind_lift_inv in Hload as (data1 & Hdata1 & Hload).
  apply bind_lift_inv in Hload as (pk & Hpk & Hload).
  apply bind_lift_inv in Hload as (keys & Hkeys & Hload).
  apply bind_lift_inv in Hload as (data2 & Hdata2 & Hload).
  apply bind_write_inv in Hload as (db1 & Hsql & Hload).
  apply bind_write_inv in Hload as (db2 & Hci & Hload).
  apply bind_lift_inv in Hload as (fks & Hfks & Hload).
  (* the frame after the selection of the declared columns *)
  assert (Hshape0 : pd.df_index data0 = None /\ pd.df_columns data0 = names
                    /\ length (pd.df_records data0) = length (r0 :: raw)).
  { unfold pd.select in Hdata0.
    destruct (pd.first_missing names (pd.df_columns (pd.of_records (r0 :: raw))));
      [discriminate|].
    injection Hdata0 as <-. cbn [pd.df_index pd.df_columns pd.df_records pd.of_records].
    split; [reflexivity|]. split; [reflexivity|].
    cbn [length map]. by rewrite ?length_map. }
  destruct Hshape0 as (Hi0 & Hc0 & Hl0).
  destruct (coerce_fields_shape fields data0 data1 Hdata1) as (Hi1 & Hc1 & Hl1).
  (* after set_index *)
  assert (Hshape2 : pd.df_index data2 = Some keys
                    /\ pd.df_columns data2
                       = List.filter (fun c => negb (pd.mem c keys)) names
                    /\ length (pd.df_records data2) = length (r0 :: raw)
                    /\ forall k, In k keys -> In k names).
  { unfold pd.set_index in Hdata2.
    destruct (pd.first_missing keys (pd.df_columns data1)) eqn:Hmiss; [discriminate|].
    injection Hdata2 as <-. cbn [pd.df_index pd.df_columns pd.df_records].
    rewrite Hc1, Hc0 in *. repeat split; [congruence|].
    by apply first_missing_None. }
  destruct Hshape2 as (Hi2 & Hc2 & Hl2 & Hsub).
  (* the table written by to_sql *)
  unfold pd.to_sql, pd.index_labels in Hsql. rewrite Hi2, Nat.eqb_refl in Hsql.
  cbn [rbind] in Hsql.
  destruct (List.find _ keys); [discriminate|].
  destruct (rmap (pd.row_cells data2) (imap pair (pd.df_records data2))) as [rows|] eqn:Hrows;
    [|discriminate].
  cbn [rbind with_db l_db] in Hsql. injection Hsql as <-.
  apply rmap_length in Hrows. rewrite length_imap, Hl2 in Hrows.
  set (st0 := {| sqlite.st_columns := keys ++ pd.df_columns data2;
                 sqlite.st_rows := rows;
                 sqlite.st_indexes :=
                   map (fun l => ("ix_" +:+ name +:+ "_" +:+ l, [l])) keys |}) in *.
  assert (Hsame1 : same_table_more_indexes name st0 (<[name := st0]> (l_db s))).
  { exists st0. rewrite lookup_insert_eq. by repeat split. }
  cbn [with_db l_db] in Hci.
  pose proof (create_index_same_table _ _ _ _ _ name st0 Hci Hsame1) as Hsame2.
  pose proof (create_index_exists _ _ _ _ _ Hci) as Hex2.
  destruct (foreign_key_indexes_keep name st0 (index_name name keys) fks _ _ Hload)
    as ((st & Hst & Hcols & Hrws & Hidx) & Hex); [exact Hsame2|exact Hex2|].
  exists names, keys, st, parts.
  split; [exact Hnames|]. split; [by rewrite Hpk|]. split; [exact Hst|].
  split; [by rewrite Hcols, <- Hc2|]. split; [exact Hsub|].
  split; [by rewrite Hrws|]. split; [exact Hparts|]. split; [exact Hconcat|].
  split; [intros k Hk; apply Hidx; cbn [st0 sqlite.st_indexes];
          apply in_map_iff; exists k; by split|].
  split; [exact Hex|].
  intros Hfree.
  assert (Hnone : index_exists (index_name name keys) (<[name := st0]> (l_db s)) = false).
  { destruct (index_exists (index_name name keys) (<[name := st0]> (l_db s))) eqn:Hie;
      [|reflexivity].
    apply index_exists_elim in Hie as (k & st1 & Hk & Hmem).
    destruct (decide (k = name)) as [->|Hkn].
    - rewrite lookup_insert_eq in Hk. injection Hk as <-.
      cbn [st0 sqlite.st_indexes] in Hmem. rewrite map_map in Hmem. cbn [fst] in Hmem.
      unfold pd.mem in Hmem. apply existsb_exists in Hmem as (x & Hx & Heq).
      apply in_map_iff in Hx as (l & <- & _). apply String.eqb_eq in Heq.
      unfold index_name in Heq. cbn in Heq. discriminate.
    - rewrite lookup_insert_ne in Hk by done. by rewrite (Hfree k st1 Hkn Hk) in Hmem. }
  unfold create_index in Hci. rewrite lookup_insert_eq, Hnone in Hci.
  destruct (pd.first_missing keys (sqlite.st_columns st0)); [discriminate|].
  injection Hci as <-.
  set (st1 := {| sqlite.st_columns := sqlite.st_columns st0;
                 sqlite.st_rows := sqlite.st_rows st0;
                 sqlite.st_indexes := sqlite.st_indexes st0 ++ [(index_name name keys, keys)] |})
    in *.
  assert (Hsame3 : same_table_more_indexes name st1 (<[name := st1]> (<[name := st0]> (l_db s)))).
  { exists st1. rewrite lookup_insert_eq. by repeat split. }
  destruct (foreign_key_indexes_keep name st1 (index_name name keys) fks _ _ Hload Hsame3 Hex2)
    as ((st' & Hst' & _ & _ & Hidx') & _).
  rewrite Hst in Hst'. injection Hst' as <-.
  apply Hidx'. cbn [st1 sqlite.st_indexes]. apply in_or_app. right. by left.
Qed.

Lemma load_resource_with_rows_witness :
  exists s',
    fst (read_all [0%nat]
           (demo_loader (Ok [ [("id", VInt 1); ("name", VStr "a")];
                              [("id", VInt 2); ("name", VStr "b")] ])))
    = Ok [ [("id", VInt 1); ("name", VStr "a")]; [("id", VInt 2); ("name", VStr "b")] ]
    /\ [ [("id", VInt 1); ("name", VStr "a")]; [("id", VInt 2); ("name", VStr "b")] ] <> []
    /\ load_resource (H := demo_runtime) "item"
         {| e_schema := item_schema; e_rcs := [0%nat] |}
         (demo_loader (Ok [ [("id", VInt 1); ("name", VStr "a")];
                            [("id", VInt 2); ("name", VStr "b")] ]))
       = (Ok tt, s')
    /\ exists st, l_db s' !! "item" = Some st /\ length (sqlite.st_rows st) = 2%nat.
Proof.
  set (raw := [ [("id", VInt 1); ("name", VStr "a")]; [("id", VInt 2); ("name", VStr "b")] ]).
  assert (Hread : fst (read_all [0%nat] (demo_loader (Ok raw))) = Ok raw) by reflexivity.
  assert (Hne : raw <> []) by discriminate.
  destruct (load_resource (H := demo_runtime) "item"
              {| e_schema := item_schema; e_rcs := [0%nat] |} (demo_loader (Ok raw)))
    as [[[]|e] s'] eqn:Hload.
  - exists s'. split; [exact Hread|]. split; [exact Hne|]. split; [reflexivity|].
    destruct (load_resource_with_rows (H := demo_runtime) "item"
                {| e_schema := item_schema; e_rcs := [0%nat] |}
                (demo_loader (Ok raw)) s' raw Hread Hne Hload)
      as (names & keys & st & parts & _ & _ & Hst & _ & _ & Hlen & _).
    exists st. split; [exact Hst|exact Hlen].
  - exfalso. vm_compute in Hload. discriminate.
Defined.


(** ** Grouping the resources by name *)

Lemma append_rc_found name rc rcs e :
  assoc name rcs = Some e ->
  assoc name (append_rc name rc rcs)
  = Some {| e_schema := e_schema e; e_rcs := e_rcs e ++ [rc] |}
  /\ map fst (append_rc name rc rcs) = map fst rcs
  /\ forall n, n <> name -> assoc n (append_rc name rc rcs) = assoc n rcs.
Proof.
  induction rcs as [|[k e0] rcs IH]; [discriminate|].
  cbn [assoc append_rc]. destruct (String.eqb name k) eqn:Hk.
  - apply String.eqb_eq in Hk. subst k. intros [= ->].
    rewrite String.eqb_refl. cbn [assoc map fst]. rewrite String.eqb_refl.
    repeat split. intros n Hn. apply String.eqb_neq in Hn. by rewrite Hn.
  - intros He. rewrite String.eqb_sym, Hk. cbn [assoc map fst]. rewrite Hk.
    destruct (IH He) as (Ha & Hm & Ho). repeat split; [exact Ha|by rewrite Hm|].
    intros n Hn. destruct (String.eqb n k); [reflexivity|by apply Ho].
Qed.

Lemma append_rc_new name rc rcs e :
  assoc name rcs = None ->
  append_rc name rc (rcs ++ [(name, e)])
  = rcs ++ [(name, {| e_schema := e_schema e; e_rcs := e_rcs e ++ [rc] |})].
Proof.
  induction rcs as [|[k e0] rcs IH]; cbn [assoc append_rc app].
  - by rewrite String.eqb_refl.
  - destruct (String.eqb name k) eqn:Hk; [discriminate|].
    intros Hn. rewrite String.eqb_sym, Hk. by rewrite (IH Hn).
Qed.

(** X16. Resources are grouped by name in the order their names are first
    met.  A resource whose name was met before is added to the group of that
    name, after the resources already there; the schema of the group stays
    that of its first resource, and the schema of the newcomer is not even
    looked at.  A resource with a new name opens a group at the end, with its
    own schema, and it must have one: without [schema] the load fails with
    [KeyError].  The store is not touched. *)
Theorem collect_resource_groups (rcs : list (string * rcs_entry)) (rc : nat)
    (r : Resource) (p : string) (s : loader_state) :
  l_resources s !! rc = Some r ->
  rc_descriptor r !! "path" = Some (VStr p) ->
  l_db (snd (collect_resource rcs rc s)) = l_db s
  /\ match assoc (rc_name r) rcs with
     | Some e =>
         exists rcs',
           fst (collect_resource rcs rc s) = Ok rcs'
           /\ assoc (rc_name r) rcs'
              = Some {| e_schema := e_schema e; e_rcs := e_rcs e ++ [rc] |}
           /\ map fst rcs' = map fst rcs
           /\ forall n, n <> rc_name r -> assoc n rcs' = assoc n rcs
     | None =>
         match rc_descriptor r !! "schema" with
         | Some schema =>
             fst (collect_resource rcs rc s)
             = Ok (rcs ++ [(rc_name r, {| e_schema := schema; e_rcs := [rc] |})])
         | None => fst (collect_resource rcs rc s) = Raise (KeyError "schema")
         end
     end.
Proof.
  intros Hr Hp.
  assert (Hpatch : exists r' s1,
            format_patch rc s = (Ok rc, s1)
            /\ l_resources s1 !! rc = Some r'
            /\ l_db s1 = l_db s
            /\ rc_name r' = rc_name r
            /\ rc_descriptor r' !! "schema" = rc_descriptor r !! "schema").
  { rewrite (format_patch_cases rc r p s Hr Hp).
    destruct (endswith p ".tsv" && bool_decide (rc_descriptor r !! "dialect" = None)).
    - exists (patched r "dialect" tsv_dialect), (with_resource s rc (patched r "dialect" tsv_dialect)).
      cbn [with_resource l_resources l_db].
      rewrite lookup_insert_eq. repeat split. cbn [patched rc_descriptor].
      by rewrite lookup_insert_ne.
    - destruct (bool_decide (rc_descriptor r !! "format" = None)).
      + exists (patched r "format" VNone), (with_resource s rc (patched r "format" VNone)).
        cbn [with_resource l_resources l_db].
        rewrite lookup_insert_eq. repeat split. cbn [patched rc_descriptor].
        by rewrite lookup_insert_ne.
      + exists r, s. by repeat split. }
  destruct Hpatch as (r' & s1 & Hfp & Hr' & Hdb & Hname & Hschema).
  assert (Hcr : collect_resource rcs rc s =
            match assoc (rc_name r) rcs with
            | Some _ => (Ok (append_rc (rc_name r) rc rcs), s1)
            | None =>
                match rc_descriptor r !! "schema" with
                | Some schema =>
                    (Ok (append_rc (rc_name r) rc
                           (rcs ++ [(rc_name r, {| e_schema := schema; e_rcs := [] |})])), s1)
                | None => (Raise (KeyError "schema"), s1)
                end
            end).
  { unfold collect_resource, bind at 1. rewrite Hfp.
    unfold bind at 1, deref. rewrite Hr'. rewrite Hname, Hschema.
    unfold bind, ret, raise.
    destruct (assoc (rc_name r) rcs); [reflexivity|].
    by destruct (rc_descriptor r !! "schema"). }
  rewrite Hcr.
  destruct (assoc (rc_name r) rcs) as [e|] eqn:Hassoc.
  - cbn [fst snd]. split; [exact Hdb|].
    destruct (append_rc_found (rc_name r) rc rcs e Hassoc) as (Ha & Hm & Ho).
    eexists. split; [reflexivity|]. by repeat split.
  - destruct (rc_descriptor r !! "schema") as [schema|]; cbn [fst snd];
      (split; [exact Hdb|]); [|reflexivity].
    by rewrite (append_rc_new _ _ _ _ Hassoc).
Qed.

Lemma collect_resource_groups_witness :
  l_resources (demo_loader (Ok [])) !! 0%nat = Some (item_resource (Ok []))
  /\ rc_descriptor (item_resource (Ok [])) !! "path" = Some (VStr "item.tsv")
  /\ l_db (snd (collect_resource [] 0 (demo_loader (Ok [])))) = l_db (demo_loader (Ok [])).
Proof.
  assert (Hr : l_resources (demo_loader (Ok [])) !! 0%nat = Some (item_resource (Ok [])))
    by (vm_compute; reflexivity).
  assert (Hp : rc_descriptor (item_resource (Ok [])) !! "path" = Some (VStr "item.tsv"))
    by (vm_compute; reflexivity).
  split; [exact Hr|]. split; [exact Hp|].
  exact (proj1 (collect_resource_groups [] 0 (item_resource (Ok [])) "item.tsv"
                  (demo_loader (Ok [])) Hr Hp)).
Defined.

(** * Further properties of queries *)

(** ** [DERIVA_col_in]: a candidate that cannot be unwrapped *)

Lemma col_in_fold_raise col arr e :
  fold_left (col_in_step col) arr (Raise e) = Raise e.
Proof. induction arr as [|el arr IH]; [reflexivity|]. cbn [fold_left col_in_step rbind]. exact IH. Qed.

Lemma col_in_fold_bad col arr : forall f,
  In PCompat arr ->
  fold_left (col_in_step col) arr (Ok f) = Raise (Exception "Call is not defined").
Proof.
  induction arr as [|el arr IH]; intros f Hin; [destruct Hin|].
  cbn [fold_left]. destruct el as [p| |v].
  - destruct Hin as [Heq|Hin]; [discriminate|].
    destruct f as [g|]; cbn; by apply IH.
  - cbn. apply col_in_fold_raise.
  - destruct Hin as [Heq|Hin]; [discriminate|].
    destruct f as [g|]; cbn; by apply IH.
Qed.

(** X17. Unlike a malformed predicate given to [filter], a candidate of
    [DERIVA_col_in] is unwrapped at once: if a bare [DerivaCompat] is among
    the candidates, the call itself raises its [Exception], whatever the other
    candidates are, and no handle is built. *)
Theorem DERIVA_col_in_bad_candidate (h : handle) (col : DerivaCompatPrimitive)
    (arr : list pyobj) (w : world) :
  In PCompat arr ->
  DERIVA_col_in h col arr w = (Raise (Exception "Call is not defined"), w).
Proof.
  intros Hin. unfold DERIVA_col_in, bind, lift. by rewrite col_in_fold_bad.
Qed.

Lemma DERIVA_col_in_bad_candidate_witness :
  In PCompat [PValue (VInt 1); PCompat]
  /\ DERIVA_col_in (HTable item) (DerivaCompatColumn item "tag")
       [PValue (VInt 1); PCompat] demo_world
     = (Raise (Exception "Call is not defined"), demo_world).
Proof.
  assert (Hin : In PCompat [PValue (VInt 1); PCompat]) by (right; left; reflexivity).
  split; [exact Hin|].
  exact (DERIVA_col_in_bad_candidate (HTable item) (DerivaCompatColumn item "tag")
           [PValue (VInt 1); PCompat] demo_world Hin).
Defined.

(** ** [filter] and [groupby] only take rows away *)

Lemma sublist_map_filter {A B} (g : A -> B) (P : A -> bool) (l : list A) :
  sublist (map g (List.filter P l)) (map g l).
Proof.
  induction l as [|a l IH]; [constructor|].
  cbn [List.filter map]. destruct (P a); cbn [map]; by constructor.
Qed.

Lemma sublist_map {A B} (g : A -> B) (l1 l2 : list A) :
  sublist l1 l2 -> sublist (map g l1) (map g l2).
Proof. induction 1; cbn [map]; by constructor. Qed.

Lemma sublist_group_rows key rows : forall seen,
  sublist (sqlite.group_rows key seen rows) rows.
Proof.
  induction rows as [|r rows IH]; intros seen; [constructor|].
  cbn [sqlite.group_rows]. destruct (existsb _ seen); by constructor.
Qed.

Section Narrowing.
Context `{Runtime}.

Lemma run_filter_sublist db q f rows rows' :
  sa.qs_group_by q = [] ->
  (forall t, In t (sa.tables_of f) -> selects_from db q t) ->
  sqlite.run db q = Ok rows ->
  sqlite.run db (sa.filter q f) = Ok rows' ->
  sublist rows' rows.
Proof.
  intros Hg Hfrom Hrun Hrun'.
  destruct (run_filter_from db q f rows rows' Hg) as (m & -> & ->);
    [|exact Hrun|exact Hrun'|apply sublist_map_filter].
  intros sc rows0 Hp t Ht.
  destruct (Hfrom t Ht) as (sc' & rows1 & Hp' & Hin).
  rewrite Hp in Hp'. by injection Hp' as <- <-.
Qed.

Lemma run_group_by_sublist db q cs rows rows' :
  sa.qs_group_by q = [] ->
  sqlite.run db q = Ok rows ->
  sqlite.run db (sa.group_by q cs) = Ok rows' ->
  sublist rows' rows /\ (cs = [] -> rows' = rows).
Proof.
  intros Hg Hrun Hrun'.
  unfold sqlite.run, sqlite.matching, sqlite.prepare_statement in Hrun, Hrun'.
  change (sqlite.from_where db (sa.group_by q cs)) with (sqlite.from_where db q) in Hrun'.
  cbn [sa.group_by sa.qs_criterion sa.qs_group_by sa.qs_entity] in Hrun'.
  rewrite Hg in *. cbn [app rmap rbind] in *.
  destruct (sqlite.from_where db q) as [[sc rows0]|]; [|discriminate].
  cbn [rbind] in *.
  destruct (sqlite.prepare_criterion sc (sa.qs_criterion q)) as [[]|]; [|discriminate].
  cbn [rbind] in *.
  destruct (rmap (sqlite.prepare sc) cs) as [us|]; [|discriminate].
  cbn [rbind] in *.
  destruct (rmap _ (sa.tbl_columns (sa.qs_entity q))) as [vs|]; [|discriminate].
  cbn [rbind sqlite.group_clause] in *.
  injection Hrun as <-. injection Hrun' as <-. split.
  - destruct cs as [|c cs]; [reflexivity|]. cbn [sqlite.group_clause].
    apply sublist_map, sublist_group_rows.
  - by intros ->.
Qed.

End Narrowing.

(** X18. On a handle whose query has no GROUP BY, a [filter] on tables the
    query selects from only takes rows away: every row of [h.filter(f)] is a
    row of [h], as often at most, so there are no more of them.  (A predicate
    on a table the query does not select from brings that table into the FROM
    clause, and then there can be more rows; and on a grouped query the filter
    is applied before the grouping.) *)
Theorem filter_only_removes_rows `{Runtime} (h h' : handle) (f : DerivaCompatPrimitive)
    (w : world) (db : gmap string sqlite.table) (stmt : sa.Query)
    (rows rows' : list (list (string * value))) :
  statement_of h = Ok stmt ->
  sa.qs_group_by stmt = [] ->
  (forall t, In t (sa.tables_of (p_value f)) -> selects_from db stmt t) ->
  fst (handle_filter h (PPrimitive f) w) = Ok h' ->
  rows_of db h = Ok rows ->
  rows_of db h' = Ok rows' ->
  rows' ⊆+ rows /\ (length rows' <= length rows)%nat.
Proof.
  intros Hstmt Hg Hfrom Hh' Hrows Hrows'.
  destruct (handle_filter_statement h f w) as (q & Hq & Hst).
  rewrite Hq in Hh'. injection Hh' as <-.
  unfold rows_of in *. rewrite Hst, Hstmt in *. cbn [rbind] in *.
  assert (Hsub : sublist rows' rows) by (by eapply run_filter_sublist).
  split; [by apply sublist_submseteq|by apply sublist_length].
Qed.

Lemma filter_only_removes_rows_witness :
  exists h',
    statement_of (HTable item) = Ok (sa.query (t_table item))
    /\ sa.qs_group_by (sa.query (t_table item)) = []
    /\ (forall t, In t (sa.tables_of (sa.EEq (sa.EColumn (t_table item) "tag")
                                              (sa.ELiteral (VInt 1)))) ->
          selects_from (H := demo_runtime) demo_db (sa.query (t_table item)) t)
    /\ fst (handle_filter (HTable item)
              (PPrimitive {| p_value := sa.EEq (sa.EColumn (t_table item) "tag")
                                               (sa.ELiteral (VInt 1)) |})
              demo_world) = Ok h'
    /\ rows_of (H := demo_runtime) demo_db (HTable item) = Ok item_rows
    /\ rows_of (H := demo_runtime) demo_db h'
       = Ok [ [("id", VInt 2); ("grp", VInt 7); ("tag", VInt 1)] ]
    /\ [ [("id", VInt 2); ("grp", VInt 7); ("tag", VInt 1)] ] ⊆+ item_rows.
Proof.
  eexists.
  assert (H1 : statement_of (HTable item) = Ok (sa.query (t_table item))) by reflexivity.
  assert (H2 : sa.qs_group_by (sa.query (t_table item)) = []) by reflexivity.
  assert (H3 : forall t, In t (sa.tables_of (sa.EEq (sa.EColumn (t_table item) "tag")
                                                    (sa.ELiteral (VInt 1)))) ->
                 selects_from (H := demo_runtime) demo_db (sa.query (t_table item)) t).
  { intros t [<-|[]]. eexists _, _. split; vm_compute; reflexivity. }
  split; [exact H1|]. split; [exact H2|]. split; [exact H3|].
  split; [reflexivity|].
  assert (H4 : rows_of (H := demo_runtime) demo_db (HTable item) = Ok item_rows)
    by (vm_compute; reflexivity).
  split; [exact H4|].
  match goal with
  | |- ?A = ?B /\ _ => assert (H5 : A = B) by (vm_compute; reflexivity)
  end.
  split; [exact H5|].
  exact (proj1 (filter_only_removes_rows (H := demo_runtime) (HTable item) _
                  {| p_value := sa.EEq (sa.EColumn (t_table item) "tag")
                                       (sa.ELiteral (VInt 1)) |}
                  demo_world demo_db _ _ _ H1 H2 H3 eq_refl H4 H5)).
Defined.

(** A filter of [category] on a column of [item], a table the query does not
    select from: [item] comes into the FROM clause, and each of the two rows
    of [category] is there once for each of the two rows of [item]. *)
Example filter_on_another_table_adds_rows :
  exists h' rows',
    fst (handle_filter (HTable category)
           (PPrimitive {| p_value := sa.EEq (sa.EColumn (t_table item) "grp")
                                            (sa.ELiteral (VInt 7)) |})
           demo_world) = Ok h'
    /\ rows_of (H := demo_runtime) demo_db (HTable category)
       = Ok [ [("id", VInt 7); ("label", VStr "fruit")];
              [("id", VInt 8); ("label", VStr "roots")] ]
    /\ rows_of (H := demo_runtime) demo_db h' = Ok rows'
    /\ rows' ≡ₚ [ [("id", VInt 7); ("label", VStr "fruit")];
                  [("id", VInt 7); ("label", VStr "fruit")];
                  [("id", VInt 8); ("label", VStr "roots")];
                  [("id", VInt 8); ("label", VStr "roots")] ].
Proof.
  eexists _, _. split; [reflexivity|]. split; [vm_compute; reflexivity|].
  split; [vm_compute; reflexivity|]. reflexivity.
Qed.

(** X19. On a query that has no GROUP BY yet, [groupby] only takes rows
    away: every row of [q.groupby(cs...)] is a row of [q], as often at most
    (one stands for each group); and [q.groupby()], with no column at all,
    gives the rows of [q] unchanged. *)
Theorem groupby_only_removes_rows `{Runtime} (q q' : DerivaCompatQuery) (cs : list pyobj)
    (w : world) (db : gmap string sqlite.table) (stmt : sa.Query)
    (rows rows' : list (list (string * value))) :
  DerivaCompatQuery_call q = Ok stmt ->
  sa.qs_group_by stmt = [] ->
  fst (DerivaCompatQuery_groupby q cs w) = Ok q' ->
  rows_of db (HQuery q) = Ok rows ->
  rows_of db (HQuery q') = Ok rows' ->
  rows' ⊆+ rows /\ (length rows' <= length rows)%nat /\ (cs = [] -> rows' = rows).
Proof.
  intros Hstmt Hg Hq' Hrows Hrows'.
  unfold DerivaCompatQuery_groupby in Hq'. rewrite DerivaCompatQuery_init_spec in Hq'.
  cbn [fst] in Hq'. injection Hq' as <-.
  unfold rows_of, statement_of in *. unfold DerivaCompatQuery_call in Hrows' |- *.
  cbn [q_query q_subj] in Hrows'.
  unfold DerivaCompatQuery_call in Hstmt, Hrows. rewrite Hstmt in *. cbn [rbind] in *.
  destruct (rmap call cs) as [cs'|] eqn:Hcs; [|discriminate]. cbn [rbind] in *.
  destruct (run_group_by_sublist db stmt cs' rows rows' Hg Hrows Hrows') as [Hsub Hnil].
  split; [by apply sublist_submseteq|]. split; [by apply sublist_length|].
  intros ->. cbn [rmap] in Hcs. injection Hcs as <-. by apply Hnil.
Qed.

Lemma groupby_only_removes_rows_witness :
  exists q',
    DerivaCompatQuery_call item_query = Ok (sa.query (t_table item))
    /\ sa.qs_group_by (sa.query (t_table item)) = []
    /\ fst (DerivaCompatQuery_groupby item_query
              [PPrimitive (DerivaCompatColumn item "grp")] item_world) = Ok q'
    /\ rows_of (H := demo_runtime) demo_db (HQuery item_query) = Ok item_rows
    /\ rows_of (H := demo_runtime) demo_db (HQuery q')
       = Ok [ [("id", VInt 1); ("grp", VInt 7); ("tag", VInt 0)] ]
    /\ [ [("id", VInt 1); ("grp", VInt 7); ("tag", VInt 0)] ] ⊆+ item_rows.
Proof.
  eexists.
  assert (H1 : DerivaCompatQuery_call item_query = Ok (sa.query (t_table item)))
    by reflexivity.
  assert (H2 : sa.qs_group_by (sa.query (t_table item)) = []) by reflexivity.
  split; [exact H1|]. split; [exact H2|].
  split; [reflexivity|].
  assert (H4 : rows_of (H := demo_runtime) demo_db (HQuery item_query) = Ok item_rows)
    by (vm_compute; reflexivity).
  split; [exact H4|].
  match goal with
  | |- ?A = ?B /\ _ => assert (H5 : A = B) by (vm_compute; reflexivity)
  end.
  split; [exact H5|].
  exact (proj1 (groupby_only_removes_rows (H := demo_runtime) item_query _
                  [PPrimitive (DerivaCompatColumn item "grp")]
                  item_world demo_db _ _ _ H1 H2 eq_refl H4 H5)).
Defined.
